(** * OrbitarMechs: the N-body engine (Physics.ts) and its Barnes-Hut octree
    (BarnesHut.ts), embedded in Rocq.

    Numbers.  A JavaScript [number] is modelled by a real number: the
    development follows the algorithms (which branch is taken, which terms are
    summed, which body is mutated), and does not follow IEEE-754 rounding.

    Objects.  A [CelestialBody] is a mutable object compared with [===]; it
    is modelled by a reference ([BodyRef]) into a [Store].  A [THREE.Vector3]
    is modelled by its value, with the methods of three.js the engine calls:
    the engine never shares one vector between two owners ([copy] and [clone]
    are used throughout).

    Randomness.  [Math.random] is a cursor into a stream of draws.

    Recursion.  [insert] recurses without a bound of its own; its embedding
    takes a bound on the depth of the recursion and returns [None] when the
    bound is reached.  Every other function of the engine is total. *)

From Stdlib Require Import Reals Lra Lia List Bool Arith Permutation.
Import ListNotations.
Open Scope R_scope.

(** ** THREE.Vector3 *)

Module Vector3.

Record t : Type := mk { x : R; y : R; z : R }.

(** [new THREE.Vector3()] *)
Definition zero : t := mk 0 0 0.

Definition add (a v : t) : t := mk (x a + x v) (y a + y v) (z a + z v).

Definition subVectors (a b : t) : t := mk (x a - x b) (y a - y b) (z a - z b).

Definition multiplyScalar (v : t) (s : R) : t := mk (x v * s) (y v * s) (z v * s).

(** [divideScalar(s) { return this.multiplyScalar(1 / s) }] *)
Definition divideScalar (v : t) (s : R) : t := multiplyScalar v (1 / s).

Definition lengthSq (v : t) : R := x v * x v + y v * y v + z v * z v.

Definition length (v : t) : R := sqrt (lengthSq v).

(** The JavaScript [l || 1] on a number that is not NaN. *)
Definition orOne (l : R) : R := if Req_dec_T l 0 then 1 else l.

(** [normalize() { return this.divideScalar(this.length() || 1) }] *)
Definition normalize (v : t) : t := divideScalar v (orOne (length v)).

Definition distanceToSquared (a v : t) : R :=
  let dx := x a - x v in
  let dy := y a - y v in
  let dz := z a - z v in
  dx * dx + dy * dy + dz * dz.

Definition distanceTo (a v : t) : R := sqrt (distanceToSquared a v).

End Vector3.

(** ** Bodies, the store and the random source *)

Module CelestialBody.

(** The four fields of Body.ts that the engine reads or writes. *)
Record t : Type := mk {
  mass : R;
  position : Vector3.t;
  velocity : Vector3.t;
  isStatic : bool
}.

End CelestialBody.

Definition BodyRef : Type := nat.

Definition Store : Type := BodyRef -> CelestialBody.t.

(** [body.velocity.add(dv)] and [body.position.add(dx)]: in-place updates of
    one field of one object. *)
Definition velocity_add (st : Store) (body : BodyRef) (dv : Vector3.t) : Store :=
  fun r =>
    if Nat.eqb r body
    then let b := st body in
         CelestialBody.mk (CelestialBody.mass b) (CelestialBody.position b)
           (Vector3.add (CelestialBody.velocity b) dv) (CelestialBody.isStatic b)
    else st r.

Definition position_add (st : Store) (body : BodyRef) (dx : Vector3.t) : Store :=
  fun r =>
    if Nat.eqb r body
    then let b := st body in
         CelestialBody.mk (CelestialBody.mass b)
           (Vector3.add (CelestialBody.position b) dx)
           (CelestialBody.velocity b) (CelestialBody.isStatic b)
    else st r.

(** The global random source: [draws] is the stream [Math.random] will
    return, [cursor] the number of draws consumed so far. *)
Record Rng : Type := mkRng { draws : nat -> R; cursor : nat }.

Definition Math_random (g : Rng) : R * Rng :=
  (draws g (cursor g), mkRng (draws g) (S (cursor g))).

(** [Math.random] returns a number in [0, 1). *)
Definition rng_ok (g : Rng) : Prop := forall n, 0 <= draws g n < 1.

(** What a method of the engine can observe and change. *)
Record World : Type := mkWorld { store : Store; rng : Rng }.

(** ** BarnesHut.ts: the octree node *)

Record Bounds : Type := mkBounds { min : Vector3.t; max : Vector3.t }.

Definition Rmax3 (a b c : R) : R := Rmax (Rmax a b) c.

Definition Rgeb (a b : R) : bool := if Rle_dec b a then true else false.
Definition Rleb (a b : R) : bool := if Rle_dec a b then true else false.
Definition Rltb (a b : R) : bool := if Rlt_dec a b then true else false.
Definition Rgtb (a b : R) : bool := if Rlt_dec b a then true else false.

Module BHNode.

#[local] Unset Elimination Schemes.

Inductive t : Type := mk {
  centerOfMass : Vector3.t;
  totalMass : R;
  body : option BodyRef;
  children : list (option t);
  bounds : Bounds;
  isEmpty : bool
}.

#[local] Set Elimination Schemes.

(** [constructor(bounds)] *)
Definition new (bounds : Bounds) : t :=
  mk Vector3.zero 0 None (repeat None 8) bounds true.

Definition getCenter (this : t) : Vector3.t :=
  Vector3.mk
    ((Vector3.x (min (bounds this)) + Vector3.x (max (bounds this))) / 2)
    ((Vector3.y (min (bounds this)) + Vector3.y (max (bounds this))) / 2)
    ((Vector3.z (min (bounds this)) + Vector3.z (max (bounds this))) / 2).

Definition getSize (this : t) : R :=
  let dx := Vector3.x (max (bounds this)) - Vector3.x (min (bounds this)) in
  let dy := Vector3.y (max (bounds this)) - Vector3.y (min (bounds this)) in
  let dz := Vector3.z (max (bounds this)) - Vector3.z (min (bounds this)) in
  Rmax3 dx dy dz.

Definition contains (this : t) (position : Vector3.t) : bool :=
  Rgeb (Vector3.x position) (Vector3.x (min (bounds this))) &&
  Rleb (Vector3.x position) (Vector3.x (max (bounds this))) &&
  Rgeb (Vector3.y position) (Vector3.y (min (bounds this))) &&
  Rleb (Vector3.y position) (Vector3.y (max (bounds this))) &&
  Rgeb (Vector3.z position) (Vector3.z (min (bounds this))) &&
  Rleb (Vector3.z position) (Vector3.z (max (bounds this))).

(** The octant index: bit 0 for x, bit 1 for y, bit 2 for z. *)
Definition getOctant (this : t) (position : Vector3.t) : nat :=
  let center := getCenter this in
  let index := 0%nat in
  let index := if Rgeb (Vector3.x position) (Vector3.x center)
               then Nat.lor index 1 else index in
  let index := if Rgeb (Vector3.y position) (Vector3.y center)
               then Nat.lor index 2 else index in
  let index := if Rgeb (Vector3.z position) (Vector3.z center)
               then Nat.lor index 4 else index in
  index.

Definition createChild (this : t) (octant : nat) : t :=
  let center := getCenter this in
  let min' := Vector3.mk
    (if Nat.testbit octant 0 then Vector3.x center else Vector3.x (min (bounds this)))
    (if Nat.testbit octant 1 then Vector3.y center else Vector3.y (min (bounds this)))
    (if Nat.testbit octant 2 then Vector3.z center else Vector3.z (min (bounds this))) in
  let max' := Vector3.mk
    (if Nat.testbit octant 0 then Vector3.x (max (bounds this)) else Vector3.x center)
    (if Nat.testbit octant 1 then Vector3.y (max (bounds this)) else Vector3.y center)
    (if Nat.testbit octant 2 then Vector3.z (max (bounds this)) else Vector3.z center) in
  new (mkBounds min' max').

(** [node.children[octant]] and [node.children[octant] = child] *)
Definition child (this : t) (octant : nat) : option t :=
  nth octant (children this) None.

Fixpoint list_set {A : Type} (l : list A) (i : nat) (a : A) : list A :=
  match l, i with
  | [], _ => []
  | _ :: l', O => a :: l'
  | h :: l', S i' => h :: list_set l' i' a
  end.

Definition set_child (this : t) (octant : nat) (c : t) : t :=
  mk (centerOfMass this) (totalMass this) (body this)
     (list_set (children this) octant (Some c)) (bounds this) (isEmpty this).

End BHNode.

(** ** BarnesHut.ts: the tree *)

Module BarnesHutTree.

Record t : Type := mk { root : BHNode.t; theta : R }.

(** The node [insert] leaves behind when it stores [body] in an empty
    [node]. *)
Definition store_body (st : Store) (body : BodyRef) (node : BHNode.t) : BHNode.t :=
  BHNode.mk (CelestialBody.position (st body)) (CelestialBody.mass (st body))
    (Some body) (BHNode.children node) (BHNode.bounds node) false.

(** [node.body = null] *)
Definition clear_body (node : BHNode.t) : BHNode.t :=
  BHNode.mk (BHNode.centerOfMass node) (BHNode.totalMass node) None
    (BHNode.children node) (BHNode.bounds node) (BHNode.isEmpty node).

(** [node.children[octant]] after
    [if (!node.children[octant]) node.children[octant] = node.createChild(octant)]. *)
Definition child_or_create (node : BHNode.t) (octant : nat) : BHNode.t :=
  match BHNode.child node octant with
  | Some c => c
  | None => BHNode.createChild node octant
  end.

(** [insert(body, node)].  The source recurses with no bound of its own;
    [fuel] bounds the depth of the recursion, and [None] is a recursion
    that did not return within it.  The source mutates [node] in place; here
    the mutated node is returned and stored back in its parent. *)
Fixpoint insert (fuel : nat) (st : Store) (body : BodyRef) (node : BHNode.t)
  : option BHNode.t :=
  match fuel with
  | O => None
  | S fuel' =>
    if negb (BHNode.contains node (CelestialBody.position (st body))) then Some node
    else if BHNode.isEmpty node then Some (store_body st body node)
    else
      match BHNode.body node with
      | Some existingBody =>
        let node := clear_body node in
        let existingOctant :=
          BHNode.getOctant node (CelestialBody.position (st existingBody)) in
        match insert fuel' st existingBody (child_or_create node existingOctant) with
        | None => None
        | Some c =>
          let node := BHNode.set_child node existingOctant c in
          let newOctant := BHNode.getOctant node (CelestialBody.position (st body)) in
          match insert fuel' st body (child_or_create node newOctant) with
          | None => None
          | Some c' => Some (BHNode.set_child node newOctant c')
          end
        end
      | None =>
        let octant := BHNode.getOctant node (CelestialBody.position (st body)) in
        match insert fuel' st body (child_or_create node octant) with
        | None => None
        | Some c => Some (BHNode.set_child node octant c)
        end
      end
  end.

(** The loop of [buildTree]: [for (const body of bodies) this.insert(body, this.root)]. *)
Fixpoint insert_all (fuel : nat) (st : Store) (bodies : list BodyRef) (root : BHNode.t)
  : option BHNode.t :=
  match bodies with
  | [] => Some root
  | body :: rest =>
    match insert fuel st body root with
    | None => None
    | Some root' => insert_all fuel st rest root'
    end
  end.

(** The accumulators of the loop over the children in [updateCenterOfMass]. *)
Record Aggregate : Type :=
  mkAggregate { agg_mass : R; agg_weighted : Vector3.t; agg_children : list (option BHNode.t) }.

(** [updateCenterOfMass(node)]: the post-order pass.  The updated node is
    returned; [agg_children] collects the updated children in order. *)
Fixpoint updateCenterOfMass (st : Store) (node : BHNode.t) : BHNode.t :=
  match node with
  | BHNode.mk com tm b ch bd ie =>
    if ie then node
    else
      match b with
      | Some body =>
        BHNode.mk (CelestialBody.position (st body)) (CelestialBody.mass (st body))
          b ch bd ie
      | None =>
        let agg :=
          fold_left
            (fun (acc : Aggregate) (slot : option BHNode.t) =>
               match slot with
               | Some child =>
                 if BHNode.isEmpty child
                 then mkAggregate (agg_mass acc) (agg_weighted acc)
                        (agg_children acc ++ [slot])
                 else
                   let child' := updateCenterOfMass st child in
                   mkAggregate
                     (agg_mass acc + BHNode.totalMass child')
                     (Vector3.add (agg_weighted acc)
                        (Vector3.multiplyScalar (BHNode.centerOfMass child')
                           (BHNode.totalMass child')))
                     (agg_children acc ++ [Some child'])
               | None =>
                 mkAggregate (agg_mass acc) (agg_weighted acc)
                   (agg_children acc ++ [slot])
               end)
            ch (mkAggregate 0 Vector3.zero []) in
        if Rgtb (agg_mass agg) 0
        then BHNode.mk (Vector3.divideScalar (agg_weighted agg) (agg_mass agg))
               (agg_mass agg) b (agg_children agg) bd ie
        else BHNode.mk com tm b (agg_children agg) bd ie
      end
  end.

(** [buildTree(bodies)] *)
Definition buildTree (fuel : nat) (st : Store) (bodies : list BodyRef) (root : BHNode.t)
  : option BHNode.t :=
  match insert_all fuel st bodies root with
  | None => None
  | Some root' => Some (updateCenterOfMass st root')
  end.

(** [new BarnesHutTree(bodies, bounds, theta)] *)
Definition new (fuel : nat) (st : Store) (bodies : list BodyRef) (bounds : Bounds)
  (theta : R) : option t :=
  match buildTree fuel st bodies (BHNode.new bounds) with
  | None => None
  | Some root' => Some (mk root' theta)
  end.

(** [node.body === body] *)
Definition body_is (node : BHNode.t) (body : BodyRef) : bool :=
  match BHNode.body node with
  | Some b => Nat.eqb b body
  | None => false
  end.

(** [node.body !== null] *)
Definition has_body (node : BHNode.t) : bool :=
  match BHNode.body node with
  | Some _ => true
  | None => false
  end.

(** [calculateForceRecursive(body, node, G, force)]: the accumulator [force]
    is mutated in the source and returned here. *)
Fixpoint calculateForceRecursive (st : Store) (theta : R) (body : BodyRef)
  (node : BHNode.t) (G : R) (force : Vector3.t) : Vector3.t :=
  match node with
  | BHNode.mk com tm b ch bd ie =>
    if ie then force
    else if body_is node body then force
    else
      let direction := Vector3.subVectors com (CelestialBody.position (st body)) in
      let distance := Vector3.length direction in
      if Rltb distance 0.001 then force
      else
        let s := BHNode.getSize node in
        let ratio := s / distance in
        if Rltb ratio theta || has_body node then
          let distanceSquared := distance * distance in
          let minDistance := 0.1 in
          let clampedDistanceSquared := Rmax distanceSquared (minDistance * minDistance) in
          let forceMagnitude :=
            G * CelestialBody.mass (st body) * tm / clampedDistanceSquared in
          Vector3.add force
            (Vector3.multiplyScalar (Vector3.normalize direction) forceMagnitude)
        else
          fold_left
            (fun (force : Vector3.t) (slot : option BHNode.t) =>
               match slot with
               | Some child =>
                 if BHNode.isEmpty child then force
                 else calculateForceRecursive st theta body child G force
               | None => force
               end)
            ch force
  end.

(** [calculateForce(body, G)] *)
Definition calculateForce (this : t) (st : Store) (body : BodyRef) (G : R) : Vector3.t :=
  calculateForceRecursive st (theta this) body (root this) G Vector3.zero.

(** The running minimum and maximum of [calculateBounds]. *)
Record Extent : Type := mkExtent {
  minX : R; minY : R; minZ : R; maxX : R; maxY : R; maxZ : R
}.

Definition extend (st : Store) (e : Extent) (body : BodyRef) : Extent :=
  let p := CelestialBody.position (st body) in
  mkExtent (Rmin (minX e) (Vector3.x p)) (Rmin (minY e) (Vector3.y p))
           (Rmin (minZ e) (Vector3.z p))
           (Rmax (maxX e) (Vector3.x p)) (Rmax (maxY e) (Vector3.y p))
           (Rmax (maxZ e) (Vector3.z p)).

(** [calculateBounds(bodies, padding)].  The source starts the running
    minimum at [Infinity] and the maximum at [-Infinity], so that the first
    body replaces both; here the loop starts from the first body's position. *)
Definition calculateBounds (st : Store) (bodies : list BodyRef) (padding : R) : Bounds :=
  match bodies with
  | [] => mkBounds (Vector3.mk (-100) (-100) (-100)) (Vector3.mk 100 100 100)
  | first :: _ =>
    let p := CelestialBody.position (st first) in
    let e := fold_left (extend st) bodies
               (mkExtent (Vector3.x p) (Vector3.y p) (Vector3.z p)
                         (Vector3.x p) (Vector3.y p) (Vector3.z p)) in
    mkBounds (Vector3.mk (minX e - padding) (minY e - padding) (minZ e - padding))
             (Vector3.mk (maxX e + padding) (maxY e + padding) (maxZ e + padding))
  end.

End BarnesHutTree.

(** ** Physics.ts: the engine *)

Module PhysicsEngine.

Record t : Type := mk {
  G : R;
  bodies : list BodyRef;
  useBarnesHut : bool;
  barnesHutTheta : R
}.

(** [bodies.indexOf(body)], with [===] on objects: the first index that
    holds [body]; [None] is the [-1] of the source. *)
Fixpoint indexOf (l : list BodyRef) (body : BodyRef) : option nat :=
  match l with
  | [] => None
  | r :: l' =>
    if Nat.eqb r body then Some 0%nat
    else match indexOf l' body with
         | Some i => Some (S i)
         | None => None
         end
  end.

(** [bodies.splice(index, deleteCount)], the array it leaves. *)
Definition splice (l : list BodyRef) (index deleteCount : nat) : list BodyRef :=
  firstn index l ++ skipn (index + deleteCount) l.

(** [addBody(body) { this.bodies.push(body) }] *)
Definition addBody (this : t) (body : BodyRef) : t :=
  mk (G this) (bodies this ++ [body]) (useBarnesHut this) (barnesHutTheta this).

(** [removeBody(body)] *)
Definition removeBody (this : t) (body : BodyRef) : t :=
  match indexOf (bodies this) body with
  | Some index =>
    mk (G this) (splice (bodies this) index 1) (useBarnesHut this) (barnesHutTheta this)
  | None => this
  end.

(** [calculateGravityForce(body1, body2)]: the force on [body1]. *)
Definition calculateGravityForce (this : t) (body1 body2 : CelestialBody.t) (g : Rng)
  : Vector3.t * Rng :=
  let direction :=
    Vector3.subVectors (CelestialBody.position body2) (CelestialBody.position body1) in
  let distanceSquared := Vector3.lengthSq direction in
  let minDistance := 0.1 in
  let clampedDistanceSquared := Rmax distanceSquared (minDistance * minDistance) in
  if Rltb distanceSquared 0.001 then
    let '(r1, g) := Math_random g in
    let '(r2, g) := Math_random g in
    let '(r3, g) := Math_random g in
    let randomDirection :=
      Vector3.mk ((r1 - 0.5) * 0.1) ((r2 - 0.5) * 0.1) ((r3 - 0.5) * 0.1) in
    let forceMagnitude :=
      G this * (CelestialBody.mass body1 * CelestialBody.mass body2)
      / clampedDistanceSquared in
    (Vector3.multiplyScalar (Vector3.normalize randomDirection) forceMagnitude, g)
  else
    let forceMagnitude :=
      G this * (CelestialBody.mass body1 * CelestialBody.mass body2)
      / clampedDistanceSquared in
    (Vector3.multiplyScalar (Vector3.normalize direction) forceMagnitude, g).

(** [calculateTotalForce(body)] *)
Definition calculateTotalForce (this : t) (st : Store) (body : BodyRef) (g : Rng)
  : Vector3.t * Rng :=
  fold_left
    (fun (acc : Vector3.t * Rng) (otherBody : BodyRef) =>
       let '(totalForce, g) := acc in
       if Nat.eqb otherBody body then acc
       else
         let '(force, g) := calculateGravityForce this (st body) (st otherBody) g in
         (Vector3.add totalForce force, g))
    (bodies this) (Vector3.zero, g).

(** [Map<CelestialBody, THREE.Vector3>], keyed by object identity. *)
Definition ForceMap : Type := BodyRef -> option Vector3.t.

Definition Map_set (m : ForceMap) (k : BodyRef) (v : Vector3.t) : ForceMap :=
  fun r => if Nat.eqb r k then Some v else m r.

(** [forces.get(body)!]: every body of the loop was given an entry by the
    loop before (lemma [force_pass_defined]). *)
Definition Map_get (m : ForceMap) (k : BodyRef) : Vector3.t :=
  match m k with
  | Some v => v
  | None => Vector3.zero
  end.

(** The first loop of [update]: one force per body, all from [st]. *)
Definition force_pass (this : t) (tree : option BarnesHutTree.t) (st : Store) (g : Rng)
  : ForceMap * Rng :=
  fold_left
    (fun (acc : ForceMap * Rng) (body : BodyRef) =>
       let '(forces, g) := acc in
       match tree with
       | Some tree => (Map_set forces body (BarnesHutTree.calculateForce tree st body (G this)), g)
       | None =>
         let '(force, g) := calculateTotalForce this st body g in
         (Map_set forces body force, g)
       end)
    (bodies this) (fun _ => None, g).

(** The second loop: velocities. *)
Definition velocity_pass (this : t) (forces : ForceMap) (deltaTime : R) (st : Store)
  : Store :=
  fold_left
    (fun (st : Store) (body : BodyRef) =>
       if CelestialBody.isStatic (st body) then st
       else
         let force := Map_get forces body in
         let acceleration := Vector3.divideScalar force (CelestialBody.mass (st body)) in
         velocity_add st body (Vector3.multiplyScalar acceleration deltaTime))
    (bodies this) st.

(** The third loop: positions, from the new velocities. *)
Definition position_pass (this : t) (deltaTime : R) (st : Store) : Store :=
  fold_left
    (fun (st : Store) (body : BodyRef) =>
       if CelestialBody.isStatic (st body) then st
       else
         let displacement :=
           Vector3.multiplyScalar (CelestialBody.velocity (st body)) deltaTime in
         position_add st body displacement)
    (bodies this) st.

(** The tree of this tick: [Some None] when the direct evaluator is used,
    [None] when the construction of the tree does not return. *)
Definition tick_tree (fuel : nat) (this : t) (st : Store) : option (option BarnesHutTree.t) :=
  if useBarnesHut this && Nat.ltb 2 (length (bodies this)) then
    let bounds := BarnesHutTree.calculateBounds st (bodies this) 10 in
    match BarnesHutTree.new fuel st (bodies this) bounds (barnesHutTheta this) with
    | None => None
    | Some tree => Some (Some tree)
    end
  else Some None.

(** [update(deltaTime)] *)
Definition update (fuel : nat) (this : t) (deltaTime : R) (w : World) : option World :=
  match tick_tree fuel this (store w) with
  | None => None
  | Some tree =>
    let '(forces, g) := force_pass this tree (store w) (rng w) in
    let st := velocity_pass this forces deltaTime (store w) in
    let st := position_pass this deltaTime st in
    Some (mkWorld st g)
  end.

(** The two loops of [getTotalEnergy]. *)
Definition kineticEnergy (this : t) (st : Store) : R :=
  fold_left
    (fun (kineticEnergy : R) (body : BodyRef) =>
       kineticEnergy
       + 0.5 * CelestialBody.mass (st body)
         * Vector3.lengthSq (CelestialBody.velocity (st body)))
    (bodies this) 0.

(** [for (let j = i + 1; j < this.bodies.length; j++)], for one [i]:
    [later] is [bodies[i+1..]]. *)
Definition potential_row (this : t) (st : Store) (body1 : BodyRef) (later : list BodyRef)
  (potentialEnergy : R) : R :=
  fold_left
    (fun (potentialEnergy : R) (body2 : BodyRef) =>
       let distance :=
         Vector3.distanceTo (CelestialBody.position (st body1))
           (CelestialBody.position (st body2)) in
       potentialEnergy
       - G this * CelestialBody.mass (st body1) * CelestialBody.mass (st body2)
         / Rmax distance 0.1)
    later potentialEnergy.

(** [for (let i = 0; i < this.bodies.length; i++)] over the rows. *)
Fixpoint potential_rows (this : t) (st : Store) (rest : list BodyRef) (potentialEnergy : R)
  : R :=
  match rest with
  | [] => potentialEnergy
  | body1 :: later => potential_rows this st later (potential_row this st body1 later potentialEnergy)
  end.

(** [getTotalEnergy()]: the value returned and the world it leaves. *)
Definition getTotalEnergy (this : t) (w : World) : R * World :=
  let kineticEnergy := kineticEnergy this (store w) in
  let potentialEnergy := potential_rows this (store w) (bodies this) 0 in
  (kineticEnergy + potentialEnergy, w).

End PhysicsEngine.

(** ** Physics.ts: the force with its divisions checked

    A JavaScript division by zero does not throw: it gives an infinity or NaN,
    which spreads to the force.  With every number a real, a division by zero
    is the only way the direct evaluator has to leave the finite numbers (the
    square root is taken of a sum of squares).  Below, the direct evaluator is
    written once more with each division of the source checked, the two of
    three.js included: [None] is a result with a component that is not a
    finite number because a divisor was zero. *)

Module Checked.

Definition div (a b : R) : option R :=
  if Req_dec_T b 0 then None else Some (a / b).

(** [divideScalar(s) { return this.multiplyScalar(1 / s) }] *)
Definition divideScalar (v : Vector3.t) (s : R) : option Vector3.t :=
  match div 1 s with
  | Some k => Some (Vector3.multiplyScalar v k)
  | None => None
  end.

(** [normalize() { return this.divideScalar(this.length() || 1) }] *)
Definition normalize (v : Vector3.t) : option Vector3.t :=
  divideScalar v (Vector3.orOne (Vector3.length v)).

(** [calculateGravityForce(body1, body2)] *)
Definition calculateGravityForce (this : PhysicsEngine.t)
  (body1 body2 : CelestialBody.t) (g : Rng) : option (Vector3.t * Rng) :=
  let direction :=
    Vector3.subVectors (CelestialBody.position body2) (CelestialBody.position body1) in
  let distanceSquared := Vector3.lengthSq direction in
  let minDistance := 0.1 in
  let clampedDistanceSquared := Rmax distanceSquared (minDistance * minDistance) in
  if Rltb distanceSquared 0.001 then
    let '(r1, g) := Math_random g in
    let '(r2, g) := Math_random g in
    let '(r3, g) := Math_random g in
    let randomDirection :=
      Vector3.mk ((r1 - 0.5) * 0.1) ((r2 - 0.5) * 0.1) ((r3 - 0.5) * 0.1) in
    match div (PhysicsEngine.G this
               * (CelestialBody.mass body1 * CelestialBody.mass body2))
            clampedDistanceSquared with
    | None => None
    | Some forceMagnitude =>
      match normalize randomDirection with
      | None => None
      | Some unit => Some (Vector3.multiplyScalar unit forceMagnitude, g)
      end
    end
  else
    match div (PhysicsEngine.G this
               * (CelestialBody.mass body1 * CelestialBody.mass body2))
            clampedDistanceSquared with
    | None => None
    | Some forceMagnitude =>
      match normalize direction with
      | None => None
      | Some unit => Some (Vector3.multiplyScalar unit forceMagnitude, g)
      end
    end.

(** [calculateTotalForce(body)] *)
Definition calculateTotalForce (this : PhysicsEngine.t) (st : Store) (body : BodyRef)
  (g : Rng) : option (Vector3.t * Rng) :=
  fold_left
    (fun (acc : option (Vector3.t * Rng)) (otherBody : BodyRef) =>
       match acc with
       | None => None
       | Some (totalForce, g) =>
         if Nat.eqb otherBody body then acc
         else
           match calculateGravityForce this (st body) (st otherBody) g with
           | None => None
           | Some (force, g) => Some (Vector3.add totalForce force, g)
           end
       end)
    (PhysicsEngine.bodies this) (Some (Vector3.zero, g)).

End Checked.

(** * The vocabulary of the properties, and the inputs of the examples *)

(** ** Sums *)

Definition sum_over {A : Type} (l : list A) (f : A -> R) : R :=
  fold_right (fun a s => f a + s) 0 l.

Definition sum_vectors {A : Type} (l : list A) (f : A -> Vector3.t) : Vector3.t :=
  fold_right (fun a s => Vector3.add (f a) s) Vector3.zero l.

(** The pairs [i < j] of a list, as a double sum over its indices. *)
Definition pair_sum (l : list BodyRef) (term : BodyRef -> BodyRef -> R) : R :=
  sum_over (seq 0 (length l))
    (fun i => sum_over (seq 0 (length l))
       (fun j => if Nat.ltb i j then term (nth i l 0%nat) (nth j l 0%nat) else 0)).

(** ** The jitter of the direct evaluator *)

(** The three draws of the jitter branch, as the vector built from them. *)
Definition jitter (g : Rng) : Vector3.t :=
  Vector3.mk ((draws g (cursor g) - 0.5) * 0.1)
             ((draws g (S (cursor g)) - 0.5) * 0.1)
             ((draws g (S (S (cursor g))) - 0.5) * 0.1).

(** The random source after the three draws. *)
Definition after_jitter (g : Rng) : Rng := mkRng (draws g) (S (S (S (cursor g)))).

(** ** The energy, as the specification writes it *)

(** The energy as the specification writes it, over the indices of the
    registry: KE = sum_i 0.5 m_i |v_i|^2 and
    PE = - sum_{i<j} G m_i m_j / max(dist(i, j), 0.1). *)
Section EnergySpec.

Variable this : PhysicsEngine.t.
Variable st : Store.

Let n : nat := length (PhysicsEngine.bodies this).
Let body_i (i : nat) : CelestialBody.t := st (nth i (PhysicsEngine.bodies this) 0%nat).

Definition KE_spec : R :=
  sum_over (seq 0 n)
    (fun i => 0.5 * CelestialBody.mass (body_i i)
              * Vector3.lengthSq (CelestialBody.velocity (body_i i))).

Definition pair_potential (b1 b2 : CelestialBody.t) : R :=
  PhysicsEngine.G this * CelestialBody.mass b1 * CelestialBody.mass b2
  / Rmax (Vector3.distanceTo (CelestialBody.position b1) (CelestialBody.position b2)) 0.1.

Definition PE_spec : R :=
  - sum_over (seq 0 n)
      (fun i => sum_over (seq 0 n)
         (fun j => if Nat.ltb i j then pair_potential (body_i i) (body_i j) else 0)).

End EnergySpec.

(** ** The integrator, body by body *)

(** What the velocity loop does to one body, and the position loop. *)
Definition kick (forces : PhysicsEngine.ForceMap) (deltaTime : R) (body : BodyRef)
  (b : CelestialBody.t) : CelestialBody.t :=
  if CelestialBody.isStatic b then b
  else CelestialBody.mk (CelestialBody.mass b) (CelestialBody.position b)
         (Vector3.add (CelestialBody.velocity b)
            (Vector3.multiplyScalar
               (Vector3.divideScalar (PhysicsEngine.Map_get forces body) (CelestialBody.mass b))
               deltaTime))
         (CelestialBody.isStatic b).

Definition drift (deltaTime : R) (body : BodyRef) (b : CelestialBody.t) : CelestialBody.t :=
  if CelestialBody.isStatic b then b
  else CelestialBody.mk (CelestialBody.mass b)
         (Vector3.add (CelestialBody.position b)
            (Vector3.multiplyScalar (CelestialBody.velocity b) deltaTime))
         (CelestialBody.velocity b) (CelestialBody.isStatic b).

(** The force a tick computes for [body], from the store [st]. *)
Definition tick_force (this : PhysicsEngine.t) (tree : option BarnesHutTree.t) (st : Store)
  (body : BodyRef) (g : Rng) : Vector3.t * Rng :=
  match tree with
  | Some tree => (BarnesHutTree.calculateForce tree st body (PhysicsEngine.G this), g)
  | None => PhysicsEngine.calculateTotalForce this st body g
  end.

(** One iteration of the first loop of [update]. *)
Definition force_step (this : PhysicsEngine.t) (tree : option BarnesHutTree.t) (st : Store)
  (acc : PhysicsEngine.ForceMap * Rng) (body : BodyRef) : PhysicsEngine.ForceMap * Rng :=
  (PhysicsEngine.Map_set (fst acc) body (fst (tick_force this tree st body (snd acc))),
   snd (tick_force this tree st body (snd acc))).

(** A sequence of ticks; between two ticks the caller may change the
    registry and the settings, so that each tick comes with its engine. *)
Fixpoint updates (fuel : nat) (ticks : list (PhysicsEngine.t * R)) (w : World)
  : option World :=
  match ticks with
  | [] => Some w
  | (this, deltaTime) :: rest =>
    match PhysicsEngine.update fuel this deltaTime w with
    | None => None
    | Some w' => updates fuel rest w'
    end
  end.

(** Two stores that give every body the same mass and the same position. *)
Definition same_matter (st st' : Store) : Prop :=
  forall r, CelestialBody.mass (st r) = CelestialBody.mass (st' r) /\
            CelestialBody.position (st r) = CelestialBody.position (st' r).

(** ** Point masses *)

(** The contribution of a node taken as one point mass, [direction] being the
    vector from the query body to the centre of mass of the node. *)
Definition point_mass_force (G m tm : R) (direction : Vector3.t) : Vector3.t :=
  let distance := Vector3.length direction in
  Vector3.multiplyScalar (Vector3.normalize direction)
    (G * m * tm / Rmax (distance * distance) (0.1 * 0.1)).

(** The force body [r] exerts on [body], away from coincidence. *)
Definition pair_force (G : R) (st : Store) (body r : BodyRef) : Vector3.t :=
  point_mass_force G (CelestialBody.mass (st body)) (CelestialBody.mass (st r))
    (Vector3.subVectors (CelestialBody.position (st r)) (CelestialBody.position (st body))).

(** The bodies of a list other than [body]. *)
Definition others (body : BodyRef) (l : list BodyRef) : list BodyRef :=
  filter (fun r => negb (Nat.eqb r body)) l.

(** ** Boxes and the shape of the octree *)

(** A point lies within a box. *)
Definition within (bd : Bounds) (p : Vector3.t) : Prop :=
  Vector3.x (min bd) <= Vector3.x p <= Vector3.x (max bd) /\
  Vector3.y (min bd) <= Vector3.y p <= Vector3.y (max bd) /\
  Vector3.z (min bd) <= Vector3.z p <= Vector3.z (max bd).

(** The bodies of a list that lie in a box: those [insert] does not drop. *)
Definition in_box (st : Store) (bd : Bounds) (r : BodyRef) : bool :=
  BHNode.contains (BHNode.new bd) (CelestialBody.position (st r)).

(** The box of octant [k] of a box. *)
Definition octant_box (bd : Bounds) (k : nat) : Bounds :=
  BHNode.bounds (BHNode.createChild (BHNode.new bd) k).

(** The leaf [insert] makes of an empty node of box [bd]. *)
Definition leaf_of (st : Store) (r : BodyRef) (bd : Bounds) : BHNode.t :=
  BarnesHutTree.store_body st r (BHNode.new bd).

(** A leaf as [insert] makes one: a body, no child yet. *)
Definition fresh_leaf (st : Store) (body : BodyRef) (node : BHNode.t) : Prop :=
  BHNode.body node = Some body /\
  BHNode.isEmpty node = false /\
  BHNode.children node = repeat None 8 /\
  within (BHNode.bounds node) (CelestialBody.position (st body)).

(** [P] for the child of a slot, when the slot has one. *)
Definition slot_all (P : BHNode.t -> Prop) (slot : option BHNode.t) : Prop :=
  match slot with
  | Some c => P c
  | None => True
  end.

(** The bodies held in the subtree of a node, in slot order. *)
Fixpoint bodies_of (node : BHNode.t) : list BodyRef :=
  match node with
  | BHNode.mk _ _ b ch _ _ =>
    (match b with Some r => [r] | None => [] end)
    ++ flat_map (fun slot => match slot with Some c => bodies_of c | None => [] end) ch
  end.

Definition slot_bodies (slot : option BHNode.t) : list BodyRef :=
  match slot with
  | Some c => bodies_of c
  | None => []
  end.

(** [P k c] for the child [c] of every filled slot, [k] being the index of
    the slot counted from [k0]. *)
Fixpoint all_slots_from (P : nat -> BHNode.t -> Prop) (k0 : nat) (l : list (option BHNode.t))
  : Prop :=
  match l with
  | [] => True
  | slot :: l' =>
    match slot with
    | Some c => P k0 c
    | None => True
    end /\ all_slots_from P (S k0) l'
  end.

(** What [insert] maintains.  An empty node has no body and no child; a leaf
    has a body, inside its box, and no child; an internal node has eight
    slots, a child that is not empty, and in slot [k] a well-formed child whose
    box is the octant [k] of the node. *)
Fixpoint well_formed (st : Store) (node : BHNode.t) : Prop :=
  match node with
  | BHNode.mk com tm b ch bd ie =>
    if ie then b = None /\ ch = repeat None 8
    else
      match b with
      | Some r => ch = repeat None 8 /\ within bd (CelestialBody.position (st r))
      | None =>
        length ch = 8%nat /\
        (exists r, In r (flat_map slot_bodies ch)) /\
        all_slots_from
          (fun k c =>
             well_formed st c /\
             BHNode.bounds c = BHNode.bounds (BHNode.createChild node k))
          0 ch
      end
  end.

(** The children of a node, as [insert] keeps them. *)
Definition slots_ok (st : Store) (node : BHNode.t) : Prop :=
  length (BHNode.children node) = 8%nat /\
  forall i c, nth i (BHNode.children node) None = Some c ->
    well_formed st c /\ BHNode.bounds c = BHNode.bounds (BHNode.createChild node i).

(** [n] is [root] or a node below it. *)
Inductive subnode (n : BHNode.t) : BHNode.t -> Prop :=
| subnode_here : subnode n n
| subnode_below (c parent : BHNode.t) :
    In (Some c) (BHNode.children parent) -> subnode n c -> subnode n parent.

(** The bodies [insert] adds to a node: the body, when it is in the box. *)
Definition inserted (st : Store) (body : BodyRef) (node : BHNode.t) : list BodyRef :=
  if BHNode.contains node (CelestialBody.position (st body)) then [body] else [].

(** What one call of [insert] that returns guarantees. *)
Definition insert_ok (st : Store) (fuel : nat) : Prop :=
  forall body node node',
    well_formed st node ->
    BarnesHutTree.insert fuel st body node = Some node' ->
    well_formed st node' /\
    BHNode.bounds node' = BHNode.bounds node /\
    Permutation (bodies_of node') (inserted st body node ++ bodies_of node).

(** ** The aggregates *)

(** The total mass and the mass-weighted sum of positions of a list of
    bodies. *)
Definition mass_of (st : Store) (l : list BodyRef) : R :=
  sum_over l (fun r => CelestialBody.mass (st r)).

Definition weighted_positions (st : Store) (l : list BodyRef) : Vector3.t :=
  sum_vectors l
    (fun r => Vector3.multiplyScalar (CelestialBody.position (st r))
                (CelestialBody.mass (st r))).

(** One iteration of the loop over the children in [updateCenterOfMass]. *)
Definition aggregate_step (st : Store) (acc : BarnesHutTree.Aggregate)
  (slot : option BHNode.t) : BarnesHutTree.Aggregate :=
  match slot with
  | Some child =>
    if BHNode.isEmpty child
    then BarnesHutTree.mkAggregate (BarnesHutTree.agg_mass acc)
           (BarnesHutTree.agg_weighted acc) (BarnesHutTree.agg_children acc ++ [slot])
    else
      let child' := BarnesHutTree.updateCenterOfMass st child in
      BarnesHutTree.mkAggregate
        (BarnesHutTree.agg_mass acc + BHNode.totalMass child')
        (Vector3.add (BarnesHutTree.agg_weighted acc)
           (Vector3.multiplyScalar (BHNode.centerOfMass child') (BHNode.totalMass child')))
        (BarnesHutTree.agg_children acc ++ [Some child'])
  | None =>
    BarnesHutTree.mkAggregate (BarnesHutTree.agg_mass acc)
      (BarnesHutTree.agg_weighted acc) (BarnesHutTree.agg_children acc ++ [slot])
  end.

Definition slot_update (st : Store) (slot : option BHNode.t) : option BHNode.t :=
  match slot with
  | Some c => Some (BarnesHutTree.updateCenterOfMass st c)
  | None => None
  end.

(** The mass and the weighted centre a slot adds to the accumulators. *)
Definition slot_mass (st : Store) (slot : option BHNode.t) : R :=
  match slot with
  | Some c =>
    if BHNode.isEmpty c then 0
    else BHNode.totalMass (BarnesHutTree.updateCenterOfMass st c)
  | None => 0
  end.

Definition slot_weighted (st : Store) (slot : option BHNode.t) : Vector3.t :=
  match slot with
  | Some c =>
    if BHNode.isEmpty c then Vector3.zero
    else
      let c' := BarnesHutTree.updateCenterOfMass st c in
      Vector3.multiplyScalar (BHNode.centerOfMass c') (BHNode.totalMass c')
  | None => Vector3.zero
  end.

(** The aggregate of one node that is not empty: a leaf has the mass and the
    position of its body; an internal node has the sum of the masses of the
    bodies below it and their mass-weighted average position. *)
Definition node_aggregate (st : Store) (n : BHNode.t) : Prop :=
  match BHNode.body n with
  | Some r =>
    BHNode.totalMass n = CelestialBody.mass (st r) /\
    BHNode.centerOfMass n = CelestialBody.position (st r)
  | None =>
    BHNode.totalMass n = mass_of st (bodies_of n) /\
    BHNode.centerOfMass n =
      Vector3.divideScalar (weighted_positions st (bodies_of n)) (mass_of st (bodies_of n))
  end.

(** [node_aggregate] at a node and at every node below it. *)
Fixpoint aggregated (st : Store) (node : BHNode.t) : Prop :=
  match node with
  | BHNode.mk com tm b ch bd ie =>
    (ie = false -> node_aggregate st node) /\
    all_slots_from (fun _ c => aggregated st c) 0 ch
  end.

(** What the aggregate pass guarantees for one node. *)
Definition update_ok (st : Store) (node : BHNode.t) : Prop :=
  well_formed st node ->
  (forall r, In r (bodies_of node) -> 0 < CelestialBody.mass (st r)) ->
  let node' := BarnesHutTree.updateCenterOfMass st node in
  BHNode.bounds node' = BHNode.bounds node /\
  BHNode.isEmpty node' = BHNode.isEmpty node /\
  BHNode.body node' = BHNode.body node /\
  bodies_of node' = bodies_of node /\
  well_formed st node' /\
  aggregated st node'.

(** ** Bodies apart from each other *)

(** Two points at least [delta] apart along one axis. *)
Definition separated (delta : R) (p q : Vector3.t) : Prop :=
  delta <= Rabs (Vector3.x p - Vector3.x q) \/
  delta <= Rabs (Vector3.y p - Vector3.y q) \/
  delta <= Rabs (Vector3.z p - Vector3.z q).

(** Bodies at pairwise distinct positions, and bodies pairwise [delta]
    apart. *)
Definition distinct_positions (st : Store) (bodies : list BodyRef) : Prop :=
  ForallOrdPairs
    (fun a b => CelestialBody.position (st a) <> CelestialBody.position (st b)) bodies.

Definition apart (st : Store) (delta : R) (a b : BodyRef) : Prop :=
  separated delta (CelestialBody.position (st a)) (CelestialBody.position (st b)).

(** ** The registry as a system of bodies *)

(** Every two distinct bodies of the list are far enough apart for the direct
    evaluator to take its branch without random numbers. *)
Definition no_jitter (st : Store) (bodies : list BodyRef) : Prop :=
  forall a b, In a bodies -> In b bodies -> a <> b ->
    0.001 <= Vector3.distanceToSquared (CelestialBody.position (st a))
               (CelestialBody.position (st b)).

(** The total momentum of the bodies of a list: the sum of [velocity * mass]. *)
Definition momentum (st : Store) (bodies : list BodyRef) : Vector3.t :=
  sum_vectors bodies
    (fun r => Vector3.multiplyScalar (CelestialBody.velocity (st r))
                (CelestialBody.mass (st r))).

(** Two stores that give the bodies of a list the same state. *)
Definition agree_on (l : list BodyRef) (st st' : Store) : Prop :=
  forall r, In r l -> st r = st' r.

(** ** The extent of a list of bodies *)

(** [e] is the extent of the positions of [l]: each of its six numbers bounds
    the coordinate of every body of [l] and is the coordinate of one of them. *)
Definition extent_of (st : Store) (l : list BodyRef) (e : BarnesHutTree.Extent) : Prop :=
  (forall r, In r l ->
     BarnesHutTree.minX e <= Vector3.x (CelestialBody.position (st r))
       <= BarnesHutTree.maxX e /\
     BarnesHutTree.minY e <= Vector3.y (CelestialBody.position (st r))
       <= BarnesHutTree.maxY e /\
     BarnesHutTree.minZ e <= Vector3.z (CelestialBody.position (st r))
       <= BarnesHutTree.maxZ e) /\
  (exists r, In r l /\ Vector3.x (CelestialBody.position (st r)) = BarnesHutTree.minX e) /\
  (exists r, In r l /\ Vector3.y (CelestialBody.position (st r)) = BarnesHutTree.minY e) /\
  (exists r, In r l /\ Vector3.z (CelestialBody.position (st r)) = BarnesHutTree.minZ e) /\
  (exists r, In r l /\ Vector3.x (CelestialBody.position (st r)) = BarnesHutTree.maxX e) /\
  (exists r, In r l /\ Vector3.y (CelestialBody.position (st r)) = BarnesHutTree.maxY e) /\
  (exists r, In r l /\ Vector3.z (CelestialBody.position (st r)) = BarnesHutTree.maxZ e).

(** The box [padding] away from an extent on every side. *)
Definition padded (e : BarnesHutTree.Extent) (padding : R) : Bounds :=
  mkBounds
    (Vector3.mk (BarnesHutTree.minX e - padding) (BarnesHutTree.minY e - padding)
       (BarnesHutTree.minZ e - padding))
    (Vector3.mk (BarnesHutTree.maxX e + padding) (BarnesHutTree.maxY e + padding)
       (BarnesHutTree.maxZ e + padding)).

(** ** The traversal below a node *)

(** The loop over the children in [calculateForceRecursive]. *)
Definition force_of_children (st : Store) (theta : R) (body : BodyRef) (G : R)
  (ch : list (option BHNode.t)) (force : Vector3.t) : Vector3.t :=
  fold_left
    (fun (force : Vector3.t) (slot : option BHNode.t) =>
       match slot with
       | Some child =>
         if BHNode.isEmpty child then force
         else BarnesHutTree.calculateForceRecursive st theta body child G force
       | None => force
       end)
    ch force.

(** ** The inputs of the examples *)

(** An engine with G = 1 and the default settings. *)
Definition engine_G1 (bodies : list BodyRef) : PhysicsEngine.t :=
  PhysicsEngine.mk 1 bodies true 0.5.

(** A body at rest, not static, of mass [m] at ([px], [py], [pz]). *)
Definition body_at (m px py pz : R) : CelestialBody.t :=
  CelestialBody.mk m (Vector3.mk px py pz) Vector3.zero false.

(** A random source that always draws 0. *)
Definition rng_zero : Rng := mkRng (fun _ => 0) 0.

(** The world a tick returned, or [w] when it did not return. *)
Definition world_or (w : World) (r : option World) : World :=
  match r with
  | Some w' => w'
  | None => w
  end.

(** Body 0 of mass 10 and every other body of mass 5, all at the origin. *)
Definition store_pair_origin : Store :=
  fun r => if Nat.eqb r 0 then body_at 10 0 0 0 else body_at 5 0 0 0.

(** A static star and a planet (the case of the repository's integration
    test). *)
Definition store_star_planet : Store :=
  fun r =>
    if Nat.eqb r 0
    then CelestialBody.mk 100 (Vector3.mk 0 0 0) (Vector3.mk 0 0 0) true
    else CelestialBody.mk 1 (Vector3.mk 10 0 0) (Vector3.mk 0 0 1) false.

Definition world_star_planet : World := mkWorld store_star_planet rng_zero.

(** The star of [store_star_planet] made mobile: same masses and positions. *)
Definition store_star_planet_free : Store :=
  fun r =>
    if Nat.eqb r 0
    then CelestialBody.mk 100 (Vector3.mk 0 0 0) (Vector3.mk 0 0 0) false
    else CelestialBody.mk 1 (Vector3.mk 10 0 0) (Vector3.mk 0 0 1) false.

Definition two_ticks : list (PhysicsEngine.t * R) :=
  [(engine_G1 [0%nat; 1%nat], 0.1); (engine_G1 [0%nat; 1%nat], 0.1)].

(** Bodies 0 and 1 at the origin and every other body five units away. *)
Definition store_colocated : Store :=
  fun r => if Nat.ltb r 2 then body_at 1 0 0 0 else body_at 1 5 0 0.

(** A leaf holding body 1, and an internal node of total mass 4 whose centre
    of mass is the origin, with that leaf below it. *)
Definition unit_box : Bounds := mkBounds (Vector3.mk (-1) (-1) (-1)) (Vector3.mk 1 1 1).

Definition leaf_one (ch : list (option BHNode.t)) : BHNode.t :=
  BHNode.mk (Vector3.mk 0.5 0.5 0.5) 5 (Some 1%nat) ch unit_box false.

Definition internal_at_origin : BHNode.t :=
  BHNode.mk Vector3.zero 4 None [Some (leaf_one [])] unit_box false.

(** The tree over the single body 1 of [store_pair_origin]. *)
Definition single_body_bounds : Bounds :=
  BarnesHutTree.calculateBounds store_pair_origin [1%nat] 10.

Definition single_body_tree : BarnesHutTree.t :=
  BarnesHutTree.mk
    (BHNode.mk (Vector3.mk 0 0 0) 5 (Some 1%nat) (repeat None 8) single_body_bounds false)
    0.5.

(** Body 0 of mass 1 at the origin, body 1 of mass 1 at (20, 0, 0) and body 2
    of mass 2 at (-10, 0, 0): the centre of mass of the three is the origin. *)
Definition store_three : Store :=
  fun r =>
    match r with
    | O => body_at 1 0 0 0
    | S O => body_at 1 20 0 0
    | _ => body_at 2 (-10) 0 0
    end.

Definition three : list BodyRef := [0%nat; 1%nat; 2%nat].

Definition bounds_three : Bounds :=
  mkBounds (Vector3.mk (-20) (-10) (-10)) (Vector3.mk 30 10 10).

Definition root_three_1 : BHNode.t := leaf_of store_three 0%nat bounds_three.

Definition root_three_2 : BHNode.t :=
  BHNode.mk (Vector3.mk 0 0 0) 1 None
    [None; None; None; None; None; None;
     Some (leaf_of store_three 0%nat (octant_box bounds_three 6));
     Some (leaf_of store_three 1%nat (octant_box bounds_three 7))]
    bounds_three false.

Definition left_three : BHNode.t :=
  BHNode.mk (Vector3.mk 0 0 0) 1 None
    [Some (leaf_of store_three 2%nat (octant_box (octant_box bounds_three 6) 0));
     Some (leaf_of store_three 0%nat (octant_box (octant_box bounds_three 6) 1));
     None; None; None; None; None; None]
    (octant_box bounds_three 6) false.

Definition root_three_3 : BHNode.t :=
  BHNode.mk (Vector3.mk 0 0 0) 1 None
    [None; None; None; None; None; None;
     Some left_three;
     Some (leaf_of store_three 1%nat (octant_box bounds_three 7))]
    bounds_three false.

(** The tree over the three bodies of [store_three], with theta = 0. *)
Definition tree_three : BarnesHutTree.t :=
  BarnesHutTree.mk (BarnesHutTree.updateCenterOfMass store_three root_three_3) 0.

(** The aggregates of the tree of the three bodies. *)
Definition left_three_aggregated : BHNode.t :=
  BHNode.mk (Vector3.mk (-20 / 3) 0 0) 3 None
    [Some (leaf_of store_three 2%nat (octant_box (octant_box bounds_three 6) 0));
     Some (leaf_of store_three 0%nat (octant_box (octant_box bounds_three 6) 1));
     None; None; None; None; None; None]
    (octant_box bounds_three 6) false.

Definition root_three_aggregated : BHNode.t :=
  BHNode.mk (Vector3.mk 0 0 0) 4 None
    [None; None; None; None; None; None;
     Some left_three_aggregated;
     Some (leaf_of store_three 1%nat (octant_box bounds_three 7))]
    bounds_three false.

(** A random source that always draws 0.5. *)
Definition rng_half : Rng := mkRng (fun _ => 0.5) 0.

(** The bodies of [store_three], body 2 being static. *)
Definition store_three_static : Store :=
  fun r =>
    match r with
    | O => body_at 1 0 0 0
    | S O => body_at 1 20 0 0
    | _ => CelestialBody.mk 2 (Vector3.mk (-10) 0 0) Vector3.zero true
    end.

(** The tree over the three bodies with the default theta. *)
Definition tree_three_default : BarnesHutTree.t :=
  BarnesHutTree.mk root_three_aggregated 0.5.

(** The bodies of [store_three] and, as body 3, a body of mass 1 far away at
    (200, 0, 0). *)
Definition store_far : Store :=
  fun r =>
    match r with
    | O => body_at 1 0 0 0
    | S O => body_at 1 20 0 0
    | S (S O) => body_at 2 (-10) 0 0
    | _ => body_at 1 200 0 0
    end.

(** A heavy body at the origin and two light ones, one of them on the
    diagonal: the centre of mass is (2, 1, 1). *)
Definition store_diagonal : Store :=
  fun r =>
    match r with
    | O => body_at 98 0 0 0
    | S O => body_at 1 100 100 100
    | _ => body_at 1 100 0 0
    end.

(** [store_star_planet] with another state for body 2. *)
Definition store_with_moon : Store :=
  fun r => if Nat.eqb r 2 then body_at 7 1 1 1 else store_star_planet r.

(** * Properties *)

(** ** Comparisons and vectors *)

Lemma Rgeb_true (a b : R) : b <= a -> Rgeb a b = true.
Proof. intros H. unfold Rgeb. destruct (Rle_dec b a); [reflexivity | contradiction]. Qed.

Lemma Rgeb_false (a b : R) : a < b -> Rgeb a b = false.
Proof. intros H. unfold Rgeb. destruct (Rle_dec b a); [lra | reflexivity]. Qed.

Lemma Rleb_true (a b : R) : a <= b -> Rleb a b = true.
Proof. intros H. unfold Rleb. destruct (Rle_dec a b); [reflexivity | contradiction]. Qed.

Lemma Rleb_false (a b : R) : b < a -> Rleb a b = false.
Proof. intros H. unfold Rleb. destruct (Rle_dec a b); [lra | reflexivity]. Qed.

Lemma Rltb_true (a b : R) : a < b -> Rltb a b = true.
Proof. intros H. unfold Rltb. destruct (Rlt_dec a b); [reflexivity | contradiction]. Qed.

Lemma Rltb_false (a b : R) : b <= a -> Rltb a b = false.
Proof. intros H. unfold Rltb. destruct (Rlt_dec a b); [lra | reflexivity]. Qed.

Lemma Rgtb_true (a b : R) : b < a -> Rgtb a b = true.
Proof. intros H. unfold Rgtb. destruct (Rlt_dec b a); [reflexivity | contradiction]. Qed.

Lemma Rgtb_false (a b : R) : a <= b -> Rgtb a b = false.
Proof. intros H. unfold Rgtb. destruct (Rlt_dec b a); [lra | reflexivity]. Qed.

Lemma Rmax_left' (a b : R) : b <= a -> Rmax a b = a.
Proof. intros H. unfold Rmax. destruct (Rle_dec a b); lra. Qed.

Lemma Rmax_right' (a b : R) : a <= b -> Rmax a b = b.
Proof. intros H. unfold Rmax. destruct (Rle_dec a b); lra. Qed.

Lemma lengthSq_nonneg (v : Vector3.t) : 0 <= Vector3.lengthSq v.
Proof. unfold Vector3.lengthSq. nra. Qed.

Lemma length_nonneg (v : Vector3.t) : 0 <= Vector3.length v.
Proof. apply sqrt_pos. Qed.

Lemma length_sq (v : Vector3.t) : Vector3.length v * Vector3.length v = Vector3.lengthSq v.
Proof. apply sqrt_sqrt, lengthSq_nonneg. Qed.

Lemma orOne_nonzero (l : R) : Vector3.orOne l <> 0.
Proof. unfold Vector3.orOne. destruct (Req_dec_T l 0); lra. Qed.

Lemma orOne_id (l : R) : l <> 0 -> Vector3.orOne l = l.
Proof. intros H. unfold Vector3.orOne. destruct (Req_dec_T l 0); [contradiction | reflexivity]. Qed.

Lemma lengthSq_multiplyScalar (v : Vector3.t) (s : R) :
  Vector3.lengthSq (Vector3.multiplyScalar v s) = Vector3.lengthSq v * (s * s).
Proof. unfold Vector3.lengthSq, Vector3.multiplyScalar. simpl. ring. Qed.

Lemma length_multiplyScalar (v : Vector3.t) (s : R) :
  Vector3.length (Vector3.multiplyScalar v s) = Vector3.length v * Rabs s.
Proof.
  unfold Vector3.length. rewrite lengthSq_multiplyScalar.
  rewrite sqrt_mult_alt by apply lengthSq_nonneg.
  f_equal. fold (Rsqr s). apply sqrt_Rsqr_abs.
Qed.

(** A vector that is not the zero vector is normalized to length 1. *)
Lemma normalize_unit (v : Vector3.t) :
  Vector3.lengthSq v <> 0 -> Vector3.length (Vector3.normalize v) = 1.
Proof.
  intros Hv.
  assert (Hl : 0 < Vector3.length v).
  { apply sqrt_lt_R0. pose proof (lengthSq_nonneg v). lra. }
  unfold Vector3.normalize, Vector3.divideScalar.
  rewrite orOne_id by lra.
  rewrite length_multiplyScalar.
  rewrite Rabs_right.
  - field. lra.
  - apply Rle_ge. apply Rlt_le. apply Rdiv_lt_0_compat; lra.
Qed.

(** The zero vector is left at zero by [normalize]. *)
Lemma normalize_zero : Vector3.normalize Vector3.zero = Vector3.zero.
Proof.
  unfold Vector3.normalize, Vector3.divideScalar, Vector3.multiplyScalar, Vector3.zero.
  simpl. f_equal; ring.
Qed.

Lemma length_zero : Vector3.length Vector3.zero = 0.
Proof.
  unfold Vector3.length, Vector3.lengthSq, Vector3.zero. simpl.
  replace (0 * 0 + 0 * 0 + 0 * 0) with 0 by ring. apply sqrt_0.
Qed.

Lemma vector_eq (a b : Vector3.t) :
  Vector3.x a = Vector3.x b -> Vector3.y a = Vector3.y b -> Vector3.z a = Vector3.z b ->
  a = b.
Proof. destruct a, b; simpl; intros; subst; reflexivity. Qed.

Lemma add_zero_l (v : Vector3.t) : Vector3.add Vector3.zero v = v.
Proof. apply vector_eq; simpl; ring. Qed.

(** ** The direct evaluator (Physics.ts, [calculateGravityForce]) *)

Lemma gravity_far (this : PhysicsEngine.t) (body1 body2 : CelestialBody.t) (g : Rng) :
  let direction :=
    Vector3.subVectors (CelestialBody.position body2) (CelestialBody.position body1) in
  0.001 <= Vector3.lengthSq direction ->
  PhysicsEngine.calculateGravityForce this body1 body2 g =
  (Vector3.multiplyScalar (Vector3.normalize direction)
     (PhysicsEngine.G this * (CelestialBody.mass body1 * CelestialBody.mass body2)
      / Rmax (Vector3.lengthSq direction) (0.1 * 0.1)), g).
Proof.
  intros direction H. unfold PhysicsEngine.calculateGravityForce.
  fold direction. rewrite Rltb_false by exact H. reflexivity.
Qed.

Lemma gravity_near (this : PhysicsEngine.t) (body1 body2 : CelestialBody.t) (g : Rng) :
  let direction :=
    Vector3.subVectors (CelestialBody.position body2) (CelestialBody.position body1) in
  Vector3.lengthSq direction < 0.001 ->
  PhysicsEngine.calculateGravityForce this body1 body2 g =
  (Vector3.multiplyScalar (Vector3.normalize (jitter g))
     (PhysicsEngine.G this * (CelestialBody.mass body1 * CelestialBody.mass body2)
      / (0.1 * 0.1)), after_jitter g).
Proof.
  intros direction H. unfold PhysicsEngine.calculateGravityForce.
  fold direction. rewrite Rltb_true by exact H.
  rewrite Rmax_right' by lra. reflexivity.
Qed.

Lemma jitter_range (g : Rng) :
  rng_ok g ->
  -0.05 <= Vector3.x (jitter g) <= 0.05 /\
  -0.05 <= Vector3.y (jitter g) <= 0.05 /\
  -0.05 <= Vector3.z (jitter g) <= 0.05.
Proof.
  intros Hg. unfold jitter. simpl.
  pose proof (Hg (cursor g)). pose proof (Hg (S (cursor g))).
  pose proof (Hg (S (S (cursor g)))). lra.
Qed.

(** The direct pairwise force, where it is as intended.  Away from
    coincidence it is the unit vector from body1 to body2 times
    [G m1 m2 / max(d^2, 0.1^2)]; when the unclamped squared distance is below
    0.001 the direction is the normalized jitter vector, each component drawn
    in [-0.05, 0.05], with the same clamped magnitude (the clamp is then
    0.1^2), and it is a unit vector when the jitter is not the zero vector;
    masses 10 and 5 at distance 10 with G = 1 give a force of magnitude 0.5. *)
Theorem calculateGravityForce_spec
  (this : PhysicsEngine.t) (body1 body2 : CelestialBody.t) (g : Rng) :
  let direction :=
    Vector3.subVectors (CelestialBody.position body2) (CelestialBody.position body1) in
  let distanceSquared := Vector3.lengthSq direction in
  let magnitude :=
    PhysicsEngine.G this * (CelestialBody.mass body1 * CelestialBody.mass body2)
    / Rmax distanceSquared (0.1 * 0.1) in
  (0.001 <= distanceSquared ->
     PhysicsEngine.calculateGravityForce this body1 body2 g =
       (Vector3.multiplyScalar (Vector3.normalize direction) magnitude, g)
     /\ Vector3.length (Vector3.normalize direction) = 1)
  /\
  (distanceSquared < 0.001 ->
     PhysicsEngine.calculateGravityForce this body1 body2 g =
       (Vector3.multiplyScalar (Vector3.normalize (jitter g)) magnitude, after_jitter g)
     /\ (rng_ok g ->
         -0.05 <= Vector3.x (jitter g) <= 0.05 /\
         -0.05 <= Vector3.y (jitter g) <= 0.05 /\
         -0.05 <= Vector3.z (jitter g) <= 0.05)
     /\ (Vector3.lengthSq (jitter g) <> 0 ->
         Vector3.length (Vector3.normalize (jitter g)) = 1))
  /\
  (PhysicsEngine.G this = 1 -> CelestialBody.mass body1 = 10 ->
   CelestialBody.mass body2 = 5 -> Vector3.length direction = 10 ->
   Vector3.length (fst (PhysicsEngine.calculateGravityForce this body1 body2 g)) = 0.5).
Proof.
  intros direction distanceSquared magnitude.
  split; [| split].
  - intros H. split.
    + apply gravity_far. exact H.
    + apply normalize_unit. fold direction. fold distanceSquared. lra.
  - intros H. split; [| split].
    + unfold magnitude. rewrite Rmax_right' by lra. apply gravity_near. exact H.
    + apply jitter_range.
    + apply normalize_unit.
  - intros HG H1 H2 Hd.
    assert (Hsq : distanceSquared = 100).
    { unfold distanceSquared. rewrite <- length_sq. rewrite Hd. lra. }
    rewrite gravity_far by (fold direction; fold distanceSquared; lra).
    simpl fst. rewrite length_multiplyScalar.
    rewrite normalize_unit by (fold direction; fold distanceSquared; lra).
    fold direction. fold distanceSquared.
    rewrite HG, H1, H2, Hsq. rewrite Rmax_left' by lra.
    rewrite Rabs_right; lra.
Qed.

Lemma length_axis_x (a : R) : 0 <= a -> Vector3.length (Vector3.mk a 0 0) = a.
Proof.
  intros Ha. unfold Vector3.length, Vector3.lengthSq. simpl.
  replace (a * a + 0 * 0 + 0 * 0) with (a * a) by ring.
  apply sqrt_square. exact Ha.
Qed.

Lemma calculateGravityForce_spec_witness :
  Vector3.length
    (fst (PhysicsEngine.calculateGravityForce (engine_G1 [])
            (body_at 10 0 0 0) (body_at 5 10 0 0) rng_zero)) = 0.5
  /\ PhysicsEngine.calculateGravityForce (engine_G1 [])
       (body_at 10 0 0 0) (body_at 5 10 0 0) rng_zero
     = (Vector3.multiplyScalar
          (Vector3.normalize
             (Vector3.subVectors (Vector3.mk 10 0 0) (Vector3.mk 0 0 0)))
          (1 * (10 * 5)
           / Rmax (Vector3.lengthSq
                     (Vector3.subVectors (Vector3.mk 10 0 0) (Vector3.mk 0 0 0)))
                  (0.1 * 0.1)), rng_zero)
  /\ PhysicsEngine.calculateGravityForce (engine_G1 [])
       (body_at 10 0 0 0) (body_at 5 0 0 0) rng_zero
     = (Vector3.multiplyScalar (Vector3.normalize (jitter rng_zero))
          (1 * (10 * 5)
           / Rmax (Vector3.lengthSq
                     (Vector3.subVectors (Vector3.mk 0 0 0) (Vector3.mk 0 0 0)))
                  (0.1 * 0.1)), after_jitter rng_zero).
Proof.
  split; [| split].
  - apply (calculateGravityForce_spec (engine_G1 [])
             (body_at 10 0 0 0) (body_at 5 10 0 0) rng_zero); try reflexivity.
    replace (Vector3.subVectors _ _) with (Vector3.mk 10 0 0)
      by (apply vector_eq; simpl; ring).
    apply length_axis_x. lra.
  - apply (calculateGravityForce_spec (engine_G1 [])
             (body_at 10 0 0 0) (body_at 5 10 0 0) rng_zero).
    unfold Vector3.lengthSq. simpl. lra.
  - apply (calculateGravityForce_spec (engine_G1 [])
             (body_at 10 0 0 0) (body_at 5 0 0 0) rng_zero).
    unfold Vector3.lengthSq. simpl. lra.
Defined.

Lemma rng_half_ok : rng_ok rng_half.
Proof. intros n. simpl. lra. Qed.

Lemma jitter_half : jitter rng_half = Vector3.zero.
Proof. unfold jitter, rng_half. apply vector_eq; simpl; lra. Qed.

(** C5 (failing input): two bodies of masses 10 and 5 at one position,
    G = 1, and the three draws equal to 0.5 (which are in [0, 1)).  The jitter
    vector is then the zero vector, which [normalize] leaves as it is
    ([length || 1]): the direction has length 0, not 1, and the force returned
    is the zero vector, where a unit direction scaled by the clamped magnitude
    has length [G m1 m2 / max(d^2, 0.1^2) = 5000].  The source announces "a
    small random force to separate them", and its test expects a length above
    0. *)
Theorem calculateGravityForce_zero_at_half_draws :
  rng_ok rng_half
  /\ PhysicsEngine.calculateGravityForce (engine_G1 [])
       (body_at 10 0 0 0) (body_at 5 0 0 0) rng_half
     = (Vector3.zero, after_jitter rng_half)
  /\ Vector3.length (Vector3.normalize (jitter rng_half)) = 0
  /\ 1 * (10 * 5)
     / Rmax (Vector3.lengthSq (Vector3.subVectors (Vector3.mk 0 0 0) (Vector3.mk 0 0 0)))
         (0.1 * 0.1) = 5000.
Proof.
  split; [exact rng_half_ok |]. split; [| split].
  - rewrite gravity_near by (unfold Vector3.lengthSq; simpl; lra).
    rewrite jitter_half, normalize_zero.
    f_equal. apply vector_eq; simpl; ring.
  - rewrite jitter_half, normalize_zero. apply length_zero.
  - rewrite Rmax_right' by (unfold Vector3.lengthSq; simpl; lra). lra.
Qed.

(** ** Degenerate registries *)

(** With at most two bodies [update] never builds the tree. *)
Lemma tick_tree_small (fuel : nat) (this : PhysicsEngine.t) (st : Store) :
  (length (PhysicsEngine.bodies this) <= 2)%nat ->
  PhysicsEngine.tick_tree fuel this st = Some None.
Proof.
  intros H. unfold PhysicsEngine.tick_tree.
  replace (Nat.ltb 2 (length (PhysicsEngine.bodies this))) with false.
  - rewrite andb_false_r. reflexivity.
  - symmetry. apply Nat.ltb_ge. exact H.
Qed.

Lemma update_small (fuel : nat) (this : PhysicsEngine.t) (deltaTime : R) (w : World) :
  (length (PhysicsEngine.bodies this) <= 2)%nat ->
  PhysicsEngine.update fuel this deltaTime w <> None.
Proof.
  intros H. unfold PhysicsEngine.update. rewrite tick_tree_small by exact H.
  destruct (PhysicsEngine.force_pass this None (store w) (rng w)). discriminate.
Qed.

Lemma checked_div (a b : R) : b <> 0 -> Checked.div a b = Some (a / b).
Proof.
  intros Hb. unfold Checked.div. destruct (Req_dec_T b 0); [contradiction | reflexivity].
Qed.

Lemma checked_normalize (v : Vector3.t) : Checked.normalize v = Some (Vector3.normalize v).
Proof.
  unfold Checked.normalize, Checked.divideScalar.
  rewrite checked_div by apply orOne_nonzero. reflexivity.
Qed.

Lemma checked_gravity (this : PhysicsEngine.t) (body1 body2 : CelestialBody.t) (g : Rng) :
  Checked.calculateGravityForce this body1 body2 g
  = Some (PhysicsEngine.calculateGravityForce this body1 body2 g).
Proof.
  unfold Checked.calculateGravityForce, PhysicsEngine.calculateGravityForce.
  set (d := Vector3.lengthSq _).
  assert (Hc : Rmax d (0.1 * 0.1) <> 0).
  { pose proof (Rmax_r d (0.1 * 0.1)). lra. }
  destruct (Rltb d 0.001); cbn [Math_random];
    rewrite (checked_div _ _ Hc), checked_normalize; reflexivity.
Qed.

Lemma checked_total (this : PhysicsEngine.t) (st : Store) (body : BodyRef) (g : Rng) :
  Checked.calculateTotalForce this st body g
  = Some (PhysicsEngine.calculateTotalForce this st body g).
Proof.
  unfold Checked.calculateTotalForce, PhysicsEngine.calculateTotalForce.
  generalize (Vector3.zero, g).
  induction (PhysicsEngine.bodies this) as [| r l IH]; intros acc; [reflexivity |].
  cbn [fold_left]. destruct acc as [totalForce g0].
  destruct (Nat.eqb r body); [apply IH |].
  rewrite checked_gravity.
  destruct (PhysicsEngine.calculateGravityForce this (st body) (st r) g0) as [force g1].
  apply IH.
Qed.


(** Degenerate registries, where the code is as intended: with no body or
    one body registered the total force on a registered body is the zero
    vector (and the random source is not consulted), and [update] returns
    whatever the recursion budget; with exactly two bodies at one position the
    force is finite: the evaluator with its divisions checked returns it, the
    normalized jitter vector scaled by [G m1 m2 / 0.1^2], and [update]
    returns.  No division of the direct evaluator is ever by zero, for any
    registry, any positions and any draws: [normalize] divides by
    [length || 1] and the magnitude is divided by the clamped squared
    distance. *)
Theorem degenerate_registries (this : PhysicsEngine.t) (st : Store) (g : Rng) :
  ((length (PhysicsEngine.bodies this) <= 1)%nat ->
     (forall body, In body (PhysicsEngine.bodies this) ->
        PhysicsEngine.calculateTotalForce this st body g = (Vector3.zero, g))
     /\ (forall fuel deltaTime w, PhysicsEngine.update fuel this deltaTime w <> None))
  /\
  (forall a b, PhysicsEngine.bodies this = [a; b] -> a <> b ->
     CelestialBody.position (st a) = CelestialBody.position (st b) ->
     Checked.calculateTotalForce this st a g =
       Some (Vector3.multiplyScalar (Vector3.normalize (jitter g))
               (PhysicsEngine.G this
                * (CelestialBody.mass (st a) * CelestialBody.mass (st b)) / (0.1 * 0.1)),
             after_jitter g)
     /\ (forall fuel deltaTime w, PhysicsEngine.update fuel this deltaTime w <> None))
  /\
  (forall body,
     Checked.calculateTotalForce this st body g
     = Some (PhysicsEngine.calculateTotalForce this st body g)).
Proof.
  split; [| split].
  - intros Hlen. split.
    + intros body Hin. unfold PhysicsEngine.calculateTotalForce.
      destruct (PhysicsEngine.bodies this) as [| r [| r' rest]].
      * reflexivity.
      * destruct Hin as [-> | []]. simpl. rewrite Nat.eqb_refl. reflexivity.
      * simpl in Hlen. lia.
    + intros fuel deltaTime w. apply update_small. lia.
  - intros a b Hb Hab Hpos.
    assert (Hzero : Vector3.lengthSq
                      (Vector3.subVectors (CelestialBody.position (st b))
                         (CelestialBody.position (st a))) = 0).
    { rewrite Hpos. unfold Vector3.lengthSq, Vector3.subVectors. simpl. ring. }
    split.
    + rewrite checked_total. f_equal.
      unfold PhysicsEngine.calculateTotalForce. rewrite Hb. simpl.
      rewrite Nat.eqb_refl.
      replace (Nat.eqb b a) with false
        by (symmetry; apply Nat.eqb_neq; congruence).
      rewrite gravity_near by (rewrite Hzero; lra).
      rewrite add_zero_l. reflexivity.
    + intros fuel deltaTime w. apply update_small. rewrite Hb. simpl. lia.
  - intros body. apply checked_total.
Qed.

Lemma degenerate_registries_witness :
  PhysicsEngine.calculateTotalForce (engine_G1 [0%nat]) store_pair_origin 0%nat rng_zero
    = (Vector3.zero, rng_zero)
  /\ PhysicsEngine.update 0 (engine_G1 [0%nat]) 1 (mkWorld store_pair_origin rng_zero) <> None
  /\ Checked.calculateTotalForce (engine_G1 [0%nat; 1%nat]) store_pair_origin 0%nat
       rng_zero
     = Some (Vector3.multiplyScalar (Vector3.normalize (jitter rng_zero))
               (1 * (10 * 5) / (0.1 * 0.1)), after_jitter rng_zero).
Proof.
  pose proof (degenerate_registries (engine_G1 [0%nat]) store_pair_origin rng_zero)
    as [H1 _].
  pose proof (degenerate_registries (engine_G1 [0%nat; 1%nat]) store_pair_origin rng_zero)
    as [_ [H2 _]].
  split; [| split].
  - apply H1; simpl; [lia | left; reflexivity].
  - apply H1. simpl. lia.
  - apply (H2 0%nat 1%nat); [reflexivity | discriminate | reflexivity].
Defined.

(** ** The energy diagnostic *)

Lemma sum_over_ext {A : Type} (l : list A) (f f' : A -> R) :
  (forall a, f a = f' a) -> sum_over l f = sum_over l f'.
Proof.
  intros H. induction l as [| a l IH]; simpl; [reflexivity |].
  rewrite H, IH. reflexivity.
Qed.

Lemma sum_over_map {A B : Type} (h : A -> B) (l : list A) (f : B -> R) :
  sum_over (map h l) f = sum_over l (fun a => f (h a)).
Proof.
  induction l as [| a l IH]; simpl; [reflexivity |].
  rewrite IH. reflexivity.
Qed.

Lemma sum_over_seq_nth {A : Type} (d : A) (l : list A) (f : A -> R) :
  sum_over (seq 0 (length l)) (fun i => f (nth i l d)) = sum_over l f.
Proof.
  induction l as [| a l IH]; simpl; [reflexivity |].
  rewrite <- seq_shift, sum_over_map. simpl. rewrite IH. reflexivity.
Qed.

Lemma fold_left_plus {A : Type} (f : A -> R) (l : list A) (acc : R) :
  fold_left (fun s a => s + f a) l acc = acc + sum_over l f.
Proof.
  revert acc. induction l as [| a l IH]; intros acc; simpl.
  - ring.
  - rewrite IH. ring.
Qed.

Lemma fold_left_minus {A : Type} (f : A -> R) (l : list A) (acc : R) :
  fold_left (fun s a => s - f a) l acc = acc - sum_over l f.
Proof.
  revert acc. induction l as [| a l IH]; intros acc; simpl.
  - ring.
  - rewrite IH. ring.
Qed.

Lemma potential_row_sum (this : PhysicsEngine.t) (st : Store) (body1 : BodyRef)
  (later : list BodyRef) (acc : R) :
  PhysicsEngine.potential_row this st body1 later acc =
  acc - sum_over later (fun body2 => pair_potential this (st body1) (st body2)).
Proof.
  unfold PhysicsEngine.potential_row.
  apply (fold_left_minus (fun body2 => pair_potential this (st body1) (st body2))).
Qed.

Lemma pair_sum_cons (a : BodyRef) (l : list BodyRef) (term : BodyRef -> BodyRef -> R) :
  pair_sum (a :: l) term = sum_over l (term a) + pair_sum l term.
Proof.
  unfold pair_sum. simpl length.
  change (seq 0 (S (length l))) with (0%nat :: seq 1 (length l)).
  rewrite <- seq_shift. simpl sum_over at 1. f_equal.
  - simpl. rewrite sum_over_map. simpl. rewrite Rplus_0_l.
    exact (sum_over_seq_nth 0%nat l (term a)).
  - rewrite sum_over_map. apply sum_over_ext. intros i.
    simpl. rewrite sum_over_map. simpl. ring_simplify.
    apply sum_over_ext. intros j. reflexivity.
Qed.

Lemma potential_rows_sum (this : PhysicsEngine.t) (st : Store) (l : list BodyRef) (acc : R) :
  PhysicsEngine.potential_rows this st l acc =
  acc - pair_sum l (fun b1 b2 => pair_potential this (st b1) (st b2)).
Proof.
  revert acc. induction l as [| a l IH]; intros acc.
  - unfold pair_sum. simpl. ring.
  - simpl. rewrite IH, potential_row_sum, pair_sum_cons. ring.
Qed.

(** C9: [getTotalEnergy] returns KE + PE with
    KE = sum_i 0.5 m_i |v_i|^2 and PE = - sum_{i<j} G m_i m_j / max(dist, 0.1),
    each unordered pair once; and it leaves every body, and the random source,
    as they were. *)
Theorem getTotalEnergy_spec (this : PhysicsEngine.t) (w : World) :
  fst (PhysicsEngine.getTotalEnergy this w) = KE_spec this (store w) + PE_spec this (store w)
  /\ snd (PhysicsEngine.getTotalEnergy this w) = w.
Proof.
  split; [| reflexivity].
  unfold PhysicsEngine.getTotalEnergy. simpl fst. f_equal.
  - unfold PhysicsEngine.kineticEnergy, KE_spec.
    rewrite (fold_left_plus
               (fun body => 0.5 * CelestialBody.mass (store w body)
                            * Vector3.lengthSq (CelestialBody.velocity (store w body)))).
    rewrite Rplus_0_l. symmetry.
    exact (sum_over_seq_nth 0%nat (PhysicsEngine.bodies this)
             (fun body => 0.5 * CelestialBody.mass (store w body)
                          * Vector3.lengthSq (CelestialBody.velocity (store w body)))).
  - rewrite potential_rows_sum. unfold PE_spec, pair_sum. ring.
Qed.

(** ** The integrator *)

(** A loop that rewrites, for each body of the list, that body only. *)
Lemma fold_left_pointwise
  (step : Store -> BodyRef -> Store) (upd : BodyRef -> CelestialBody.t -> CelestialBody.t) :
  (forall st body r, step st body r = if Nat.eqb r body then upd body (st body) else st r) ->
  forall (l : list BodyRef) (st : Store) (r : BodyRef),
    NoDup l ->
    (In r l -> fold_left step l st r = upd r (st r)) /\
    (~ In r l -> fold_left step l st r = st r).
Proof.
  intros Hstep l. induction l as [| a l IH]; intros st r Hnd.
  - simpl. split; [intros [] | reflexivity].
  - inversion Hnd as [| a' l' Hnotin Hnd']; subst.
    destruct (IH (step st a) r Hnd') as [IHin IHout].
    simpl. split.
    + intros [-> | Hin].
      * rewrite IHout by exact Hnotin. rewrite Hstep, Nat.eqb_refl. reflexivity.
      * rewrite IHin by exact Hin. rewrite Hstep.
        replace (Nat.eqb r a) with false; [reflexivity |].
        symmetry. apply Nat.eqb_neq. intros ->. contradiction.
    + intros Hout. rewrite IHout by tauto. rewrite Hstep.
      replace (Nat.eqb r a) with false; [reflexivity |].
      symmetry. apply Nat.eqb_neq. intros ->. apply Hout. left. reflexivity.
Qed.

Lemma velocity_pass_at (this : PhysicsEngine.t) (forces : PhysicsEngine.ForceMap)
  (deltaTime : R) (st : Store) (r : BodyRef) :
  NoDup (PhysicsEngine.bodies this) ->
  (In r (PhysicsEngine.bodies this) ->
   PhysicsEngine.velocity_pass this forces deltaTime st r = kick forces deltaTime r (st r)) /\
  (~ In r (PhysicsEngine.bodies this) ->
   PhysicsEngine.velocity_pass this forces deltaTime st r = st r).
Proof.
  intros Hnd. unfold PhysicsEngine.velocity_pass.
  apply (fold_left_pointwise _ (kick forces deltaTime)); [| exact Hnd].
  intros st0 body r0. unfold kick, velocity_add.
  destruct (CelestialBody.isStatic (st0 body)) eqn:Hs; [| reflexivity].
  destruct (Nat.eqb r0 body) eqn:He; [| reflexivity].
  apply Nat.eqb_eq in He. subst. reflexivity.
Qed.

Lemma position_pass_at (this : PhysicsEngine.t) (deltaTime : R) (st : Store) (r : BodyRef) :
  NoDup (PhysicsEngine.bodies this) ->
  (In r (PhysicsEngine.bodies this) ->
   PhysicsEngine.position_pass this deltaTime st r = drift deltaTime r (st r)) /\
  (~ In r (PhysicsEngine.bodies this) ->
   PhysicsEngine.position_pass this deltaTime st r = st r).
Proof.
  intros Hnd. unfold PhysicsEngine.position_pass.
  apply (fold_left_pointwise _ (drift deltaTime)); [| exact Hnd].
  intros st0 body r0. unfold drift, position_add.
  destruct (CelestialBody.isStatic (st0 body)) eqn:Hs; [| reflexivity].
  destruct (Nat.eqb r0 body) eqn:He; [| reflexivity].
  apply Nat.eqb_eq in He. subst. reflexivity.
Qed.

Lemma force_pass_steps (this : PhysicsEngine.t) (tree : option BarnesHutTree.t)
  (st : Store) (g : Rng) :
  PhysicsEngine.force_pass this tree st g =
  fold_left (force_step this tree st) (PhysicsEngine.bodies this) (fun _ => None, g).
Proof.
  unfold PhysicsEngine.force_pass.
  generalize (fun _ : BodyRef => @None Vector3.t, g).
  induction (PhysicsEngine.bodies this) as [| a l IH]; intros acc; [reflexivity |].
  simpl. rewrite IH. f_equal.
  unfold force_step, tick_force. destruct acc as [forces g0]. simpl.
  destruct tree as [tree |]; [reflexivity |].
  destruct (PhysicsEngine.calculateTotalForce this st a g0). reflexivity.
Qed.

Lemma force_steps_keep (this : PhysicsEngine.t) (tree : option BarnesHutTree.t)
  (st : Store) (l : list BodyRef) (acc : PhysicsEngine.ForceMap * Rng) (body : BodyRef) :
  ~ In body l ->
  fst (fold_left (force_step this tree st) l acc) body = fst acc body.
Proof.
  revert acc. induction l as [| c l IH]; intros acc Hl; [reflexivity |].
  simpl fold_left. rewrite IH by (intros H; apply Hl; right; exact H).
  unfold force_step, PhysicsEngine.Map_set. simpl fst.
  replace (Nat.eqb body c) with false; [reflexivity |].
  symmetry. apply Nat.eqb_neq. intros ->. apply Hl. left. reflexivity.
Qed.

(** Every entry of the force map was computed by [tick_force] on the store
    the loop was given, and every body of the loop has an entry. *)
Lemma force_pass_entries (this : PhysicsEngine.t) (tree : option BarnesHutTree.t)
  (st : Store) (l : list BodyRef) (acc : PhysicsEngine.ForceMap * Rng) (body : BodyRef) :
  In body l ->
  exists g, fst (fold_left (force_step this tree st) l acc) body
            = Some (fst (tick_force this tree st body g)).
Proof.
  revert acc. induction l as [| a l IH]; intros acc Hin; [destruct Hin |].
  simpl fold_left.
  destruct (in_dec Nat.eq_dec body l) as [Hl | Hl].
  - apply IH. exact Hl.
  - destruct Hin as [-> | Hin]; [| contradiction].
    exists (snd acc). rewrite force_steps_keep by exact Hl.
    unfold force_step, PhysicsEngine.Map_set. simpl fst.
    rewrite Nat.eqb_refl. reflexivity.
Qed.

(** [forces.get(body)] is defined for every body of the registry. *)
Lemma force_pass_defined (this : PhysicsEngine.t) (tree : option BarnesHutTree.t)
  (st : Store) (g : Rng) (body : BodyRef) :
  In body (PhysicsEngine.bodies this) ->
  fst (PhysicsEngine.force_pass this tree st g) body <> None.
Proof.
  intros Hin. rewrite force_pass_steps.
  destruct (force_pass_entries this tree st (PhysicsEngine.bodies this)
              (fun _ => None, g) body Hin) as [g' Hg'].
  rewrite Hg'. discriminate.
Qed.

(** The three loops of [update] always return: a tick returns when the
    construction of its tree does. *)
Lemma update_returns (fuel : nat) (this : PhysicsEngine.t) (deltaTime : R) (w : World) :
  PhysicsEngine.tick_tree fuel this (store w) <> None ->
  PhysicsEngine.update fuel this deltaTime w <> None.
Proof.
  intros Htree. unfold PhysicsEngine.update.
  destruct (PhysicsEngine.tick_tree fuel this (store w)) as [tree |]; [| contradiction].
  destruct (PhysicsEngine.force_pass this tree (store w) (rng w)). discriminate.
Qed.

Lemma tick_tree_direct (fuel : nat) (this : PhysicsEngine.t) (st : Store) :
  PhysicsEngine.useBarnesHut this = false ->
  PhysicsEngine.tick_tree fuel this st = Some None.
Proof. intros H. unfold PhysicsEngine.tick_tree. rewrite H. reflexivity. Qed.

(** ** Static bodies *)

Lemma velocity_pass_static (this : PhysicsEngine.t) (forces : PhysicsEngine.ForceMap)
  (deltaTime : R) (st : Store) (r : BodyRef) :
  CelestialBody.isStatic (st r) = true ->
  PhysicsEngine.velocity_pass this forces deltaTime st r = st r.
Proof.
  unfold PhysicsEngine.velocity_pass. revert st.
  induction (PhysicsEngine.bodies this) as [| a l IH]; intros st Hs; [reflexivity |].
  simpl fold_left.
  destruct (CelestialBody.isStatic (st a)) eqn:Ha.
  - apply IH. exact Hs.
  - assert (Hne : Nat.eqb r a = false).
    { apply Nat.eqb_neq. intros ->. congruence. }
    rewrite IH; unfold velocity_add; rewrite Hne; [reflexivity | exact Hs].
Qed.

Lemma position_pass_static (this : PhysicsEngine.t) (deltaTime : R) (st : Store)
  (r : BodyRef) :
  CelestialBody.isStatic (st r) = true ->
  PhysicsEngine.position_pass this deltaTime st r = st r.
Proof.
  unfold PhysicsEngine.position_pass. revert st.
  induction (PhysicsEngine.bodies this) as [| a l IH]; intros st Hs; [reflexivity |].
  simpl fold_left.
  destruct (CelestialBody.isStatic (st a)) eqn:Ha.
  - apply IH. exact Hs.
  - assert (Hne : Nat.eqb r a = false).
    { apply Nat.eqb_neq. intros ->. congruence. }
    rewrite IH; unfold position_add; rewrite Hne; [reflexivity | exact Hs].
Qed.

Lemma update_static (fuel : nat) (this : PhysicsEngine.t) (deltaTime : R) (w w' : World)
  (r : BodyRef) :
  CelestialBody.isStatic (store w r) = true ->
  PhysicsEngine.update fuel this deltaTime w = Some w' ->
  store w' r = store w r.
Proof.
  intros Hs Hup. unfold PhysicsEngine.update in Hup.
  destruct (PhysicsEngine.tick_tree fuel this (store w)) as [tree |]; [| discriminate].
  destruct (PhysicsEngine.force_pass this tree (store w) (rng w)) as [forces g].
  injection Hup as <-. simpl store.
  rewrite position_pass_static; rewrite velocity_pass_static; auto.
Qed.

Lemma updates_static (fuel : nat) (ticks : list (PhysicsEngine.t * R)) (w w' : World)
  (r : BodyRef) :
  CelestialBody.isStatic (store w r) = true ->
  updates fuel ticks w = Some w' ->
  store w' r = store w r.
Proof.
  revert w. induction ticks as [| [this deltaTime] rest IH]; intros w Hs Hrun.
  - injection Hrun as <-. reflexivity.
  - simpl in Hrun.
    destruct (PhysicsEngine.update fuel this deltaTime w) as [w1 |] eqn:Hup;
      [| discriminate].
    pose proof (update_static fuel this deltaTime w w1 r Hs Hup) as H1.
    rewrite <- H1. apply IH; [rewrite H1; exact Hs | exact Hrun].
Qed.

(** ** Induction on octree nodes *)

(** Structural induction on a node, with the property available for the
    child of every slot. *)
Lemma BHNode_induction (P : BHNode.t -> Prop) :
  (forall com tm b ch bd ie,
     Forall (slot_all P) ch -> P (BHNode.mk com tm b ch bd ie)) ->
  forall node, P node.
Proof.
  intros step. fix IH 1. intros [com tm b ch bd ie]. apply step.
  induction ch as [| slot l IHl]; constructor.
  - destruct slot as [c |]; [apply IH | exact I].
  - exact IHl.
Qed.

Lemma fold_left_ext_Forall {A B : Type} (f f' : A -> B -> A) (l : list B) :
  Forall (fun b => forall a, f a b = f' a b) l ->
  forall a, fold_left f l a = fold_left f' l a.
Proof.
  induction 1 as [| b l Hb _ IH]; intros a; simpl; [reflexivity |].
  rewrite Hb. apply IH.
Qed.

(** ** The forces do not look at the static flag *)

Section SameMatter.

Variables st st' : Store.
Hypothesis Hsame : same_matter st st'.

Let Hmass (r : BodyRef) : CelestialBody.mass (st r) = CelestialBody.mass (st' r) :=
  proj1 (Hsame r).
Let Hpos (r : BodyRef) : CelestialBody.position (st r) = CelestialBody.position (st' r) :=
  proj2 (Hsame r).

Lemma insert_same (fuel : nat) (body : BodyRef) (node : BHNode.t) :
  BarnesHutTree.insert fuel st body node = BarnesHutTree.insert fuel st' body node.
Proof.
  revert body node. induction fuel as [| fuel IH]; intros body node; [reflexivity |].
  cbn [BarnesHutTree.insert]. rewrite (Hpos body).
  destruct (negb _); [reflexivity |].
  destruct (BHNode.isEmpty node).
  { unfold BarnesHutTree.store_body. rewrite Hpos, Hmass. reflexivity. }
  destruct (BHNode.body node) as [existingBody |].
  - rewrite (Hpos existingBody). rewrite IH.
    destruct (BarnesHutTree.insert fuel st' existingBody _); [| reflexivity].
    rewrite IH. reflexivity.
  - rewrite IH. reflexivity.
Qed.

Lemma insert_all_same (fuel : nat) (bodies : list BodyRef) (root : BHNode.t) :
  BarnesHutTree.insert_all fuel st bodies root
  = BarnesHutTree.insert_all fuel st' bodies root.
Proof.
  revert root. induction bodies as [| body rest IH]; intros root; [reflexivity |].
  simpl. rewrite insert_same.
  destruct (BarnesHutTree.insert fuel st' body root); [apply IH | reflexivity].
Qed.

Lemma updateCenterOfMass_same (node : BHNode.t) :
  BarnesHutTree.updateCenterOfMass st node = BarnesHutTree.updateCenterOfMass st' node.
Proof.
  induction node as [com tm b ch bd ie IH] using BHNode_induction.
  cbn [BarnesHutTree.updateCenterOfMass].
  destruct ie; [reflexivity |].
  destruct b as [body |].
  { rewrite Hpos, Hmass. reflexivity. }
  match goal with
  | |- context [fold_left ?f ch ?a] =>
    match goal with
    | |- context [fold_left ?f' ch a] =>
      assert (Hfold : fold_left f ch a = fold_left f' ch a); [| rewrite Hfold; reflexivity]
    end
  end.
  apply fold_left_ext_Forall.
  eapply Forall_impl; [| exact IH].
  intros [child |] Hc acc; [| reflexivity].
  simpl in Hc. rewrite Hc. reflexivity.
Qed.

Lemma calculateForceRecursive_same (theta : R) (body : BodyRef) (node : BHNode.t)
  (G : R) (force : Vector3.t) :
  BarnesHutTree.calculateForceRecursive st theta body node G force
  = BarnesHutTree.calculateForceRecursive st' theta body node G force.
Proof.
  revert force.
  induction node as [com tm b ch bd ie IH] using BHNode_induction. intros force.
  cbn [BarnesHutTree.calculateForceRecursive].
  rewrite Hpos, Hmass.
  destruct ie; [reflexivity |].
  destruct (BarnesHutTree.body_is _ body); [reflexivity |].
  destruct (Rltb _ 0.001); [reflexivity |].
  destruct (_ || _); [reflexivity |].
  apply fold_left_ext_Forall.
  eapply Forall_impl; [| exact IH].
  intros [child |] Hc acc; [| reflexivity].
  simpl in Hc. rewrite Hc. reflexivity.
Qed.

Lemma calculateBounds_same (bodies : list BodyRef) (padding : R) :
  BarnesHutTree.calculateBounds st bodies padding
  = BarnesHutTree.calculateBounds st' bodies padding.
Proof.
  unfold BarnesHutTree.calculateBounds.
  destruct bodies as [| first rest]; [reflexivity |].
  rewrite (Hpos first).
  assert (Hfold : forall l e,
             fold_left (BarnesHutTree.extend st) l e
             = fold_left (BarnesHutTree.extend st') l e).
  { induction l as [| a l IHl]; intros e; [reflexivity |].
    simpl. rewrite IHl. f_equal. unfold BarnesHutTree.extend.
    rewrite (Hpos a). reflexivity. }
  rewrite Hfold. reflexivity.
Qed.

End SameMatter.

Lemma gravity_same (this : PhysicsEngine.t) (b1 b1' b2 b2' : CelestialBody.t) (g : Rng) :
  CelestialBody.mass b1 = CelestialBody.mass b1' ->
  CelestialBody.position b1 = CelestialBody.position b1' ->
  CelestialBody.mass b2 = CelestialBody.mass b2' ->
  CelestialBody.position b2 = CelestialBody.position b2' ->
  PhysicsEngine.calculateGravityForce this b1 b2 g
  = PhysicsEngine.calculateGravityForce this b1' b2' g.
Proof.
  intros Hm1 Hp1 Hm2 Hp2. unfold PhysicsEngine.calculateGravityForce.
  rewrite Hm1, Hp1, Hm2, Hp2. reflexivity.
Qed.

Lemma calculateTotalForce_same (this : PhysicsEngine.t) (st st' : Store)
  (body : BodyRef) (g : Rng) :
  same_matter st st' ->
  PhysicsEngine.calculateTotalForce this st body g
  = PhysicsEngine.calculateTotalForce this st' body g.
Proof.
  intros Hsame. unfold PhysicsEngine.calculateTotalForce.
  apply fold_left_ext_Forall. apply Forall_forall. intros otherBody _ [totalForce g0].
  destruct (Nat.eqb otherBody body); [reflexivity |].
  rewrite (gravity_same this (st body) (st' body) (st otherBody) (st' otherBody));
    try apply Hsame.
  reflexivity.
Qed.

Lemma tick_tree_same (fuel : nat) (this : PhysicsEngine.t) (st st' : Store) :
  same_matter st st' ->
  PhysicsEngine.tick_tree fuel this st = PhysicsEngine.tick_tree fuel this st'.
Proof.
  intros Hsame. unfold PhysicsEngine.tick_tree, BarnesHutTree.new, BarnesHutTree.buildTree.
  destruct (_ && _); [| reflexivity].
  rewrite (calculateBounds_same st st' Hsame).
  rewrite (insert_all_same st st' Hsame).
  destruct (BarnesHutTree.insert_all fuel st' _ _); [| reflexivity].
  rewrite (updateCenterOfMass_same st st' Hsame). reflexivity.
Qed.

Lemma force_pass_same (this : PhysicsEngine.t) (tree : option BarnesHutTree.t)
  (st st' : Store) (g : Rng) :
  same_matter st st' ->
  PhysicsEngine.force_pass this tree st g = PhysicsEngine.force_pass this tree st' g.
Proof.
  intros Hsame. unfold PhysicsEngine.force_pass.
  apply fold_left_ext_Forall. apply Forall_forall. intros body _ [forces g0].
  destruct tree as [tree |].
  - unfold BarnesHutTree.calculateForce.
    rewrite (calculateForceRecursive_same st st' Hsame). reflexivity.
  - rewrite (calculateTotalForce_same this st st' body g0 Hsame). reflexivity.
Qed.

(** The direct sum takes one term from every registered body other than the
    query body, whatever that body's static flag. *)
Lemma calculateTotalForce_snoc (G : R) (l : list BodyRef) (s : BodyRef)
  (useBarnesHut : bool) (theta : R) (st : Store) (body : BodyRef) (g : Rng) :
  s <> body ->
  PhysicsEngine.calculateTotalForce (PhysicsEngine.mk G (l ++ [s]) useBarnesHut theta)
    st body g =
  let '(totalForce, g1) :=
    PhysicsEngine.calculateTotalForce (PhysicsEngine.mk G l useBarnesHut theta) st body g in
  let '(force, g2) :=
    PhysicsEngine.calculateGravityForce (PhysicsEngine.mk G l useBarnesHut theta)
      (st body) (st s) g1 in
  (Vector3.add totalForce force, g2).
Proof.
  intros Hne.
  unfold PhysicsEngine.calculateTotalForce, PhysicsEngine.calculateGravityForce.
  cbn [PhysicsEngine.bodies PhysicsEngine.G].
  rewrite fold_left_app.
  match goal with
  | |- context [fold_left ?f l ?a] => destruct (fold_left f l a) as [totalForce g1]
  end.
  cbn [fold_left].
  replace (Nat.eqb s body) with false by (symmetry; apply Nat.eqb_neq; exact Hne).
  reflexivity.
Qed.

Lemma updates_small (fuel : nat) (ticks : list (PhysicsEngine.t * R)) (w : World) :
  Forall (fun tick => (length (PhysicsEngine.bodies (fst tick)) <= 2)%nat) ticks ->
  updates fuel ticks w <> None.
Proof.
  intros H. revert w. induction H as [| [this deltaTime] rest Hlen _ IH]; intros w.
  - discriminate.
  - simpl. destruct (PhysicsEngine.update fuel this deltaTime w) as [w1 |] eqn:Hup.
    + apply IH.
    + exfalso. revert Hup. apply update_small. exact Hlen.
Qed.

(** A static body has, after any sequence of ticks that returns, the
    position and the velocity (the whole record) it had before; and the forces
    of a tick are those of any store that gives the bodies the same masses and
    positions, so that the static flag of a body plays no part in the force it
    exerts: the tree and the force map are the same, and the direct sum takes
    a term from each registered body other than the one queried. *)
Theorem static_body_invariance :
  (forall fuel ticks w w' r,
     CelestialBody.isStatic (store w r) = true ->
     updates fuel ticks w = Some w' ->
     store w' r = store w r)
  /\
  (forall fuel this st st' g,
     same_matter st st' ->
     PhysicsEngine.tick_tree fuel this st = PhysicsEngine.tick_tree fuel this st' /\
     forall tree,
       PhysicsEngine.force_pass this tree st g = PhysicsEngine.force_pass this tree st' g)
  /\
  (forall G l s useBarnesHut theta st body g,
     s <> body ->
     PhysicsEngine.calculateTotalForce (PhysicsEngine.mk G (l ++ [s]) useBarnesHut theta)
       st body g =
     let '(totalForce, g1) :=
       PhysicsEngine.calculateTotalForce (PhysicsEngine.mk G l useBarnesHut theta)
         st body g in
     let '(force, g2) :=
       PhysicsEngine.calculateGravityForce (PhysicsEngine.mk G l useBarnesHut theta)
         (st body) (st s) g1 in
     (Vector3.add totalForce force, g2)).
Proof.
  split; [| split].
  - intros fuel ticks w w' r. apply updates_static.
  - intros fuel this st st' g Hsame. split.
    + apply tick_tree_same. exact Hsame.
    + intros tree. apply force_pass_same. exact Hsame.
  - intros. apply calculateTotalForce_snoc. assumption.
Qed.

Lemma static_body_invariance_witness :
  store (world_or world_star_planet (updates 0 two_ticks world_star_planet)) 0%nat
    = store world_star_planet 0%nat
  /\ PhysicsEngine.force_pass (engine_G1 [0%nat; 1%nat]) None store_star_planet rng_zero
     = PhysicsEngine.force_pass (engine_G1 [0%nat; 1%nat]) None store_star_planet_free
         rng_zero
  /\ PhysicsEngine.calculateTotalForce (PhysicsEngine.mk 1 ([] ++ [0%nat]) true 0.5)
       store_star_planet 1%nat rng_zero
     = (let '(totalForce, g1) :=
          PhysicsEngine.calculateTotalForce (PhysicsEngine.mk 1 [] true 0.5)
            store_star_planet 1%nat rng_zero in
        let '(force, g2) :=
          PhysicsEngine.calculateGravityForce (PhysicsEngine.mk 1 [] true 0.5)
            (store_star_planet 1%nat) (store_star_planet 0%nat) g1 in
        (Vector3.add totalForce force, g2)).
Proof.
  destruct static_body_invariance as [Hfixed [Hflag Hsum]].
  split; [| split].
  - apply (Hfixed 0%nat two_ticks world_star_planet); [reflexivity |].
    destruct (updates 0 two_ticks world_star_planet) as [w' |] eqn:Hrun; [reflexivity |].
    exfalso. revert Hrun. apply updates_small.
    repeat constructor.
  - apply (Hflag 0%nat (engine_G1 [0%nat; 1%nat]) store_star_planet store_star_planet_free
             rng_zero).
    intros r. unfold store_star_planet, store_star_planet_free.
    destruct (Nat.eqb r 0); split; reflexivity.
  - apply (Hsum 1 [] 0%nat true 0.5 store_star_planet 1%nat rng_zero). discriminate.
Defined.

(** ** Insertion into the octree *)

Lemma Rgeb_true_inv (a b : R) : Rgeb a b = true -> b <= a.
Proof. unfold Rgeb. destruct (Rle_dec b a); [trivial | discriminate]. Qed.

Lemma Rgeb_false_inv (a b : R) : Rgeb a b = false -> a < b.
Proof. unfold Rgeb. destruct (Rle_dec b a); [discriminate | lra]. Qed.

Lemma Rleb_true_inv (a b : R) : Rleb a b = true -> a <= b.
Proof. unfold Rleb. destruct (Rle_dec a b); [trivial | discriminate]. Qed.

Lemma Rltb_true_inv (a b : R) : Rltb a b = true -> a < b.
Proof. unfold Rltb. destruct (Rlt_dec a b); [trivial | discriminate]. Qed.

Lemma Rltb_false_inv (a b : R) : Rltb a b = false -> b <= a.
Proof. unfold Rltb. destruct (Rlt_dec a b); [discriminate | lra]. Qed.

Lemma contains_within (node : BHNode.t) (p : Vector3.t) :
  BHNode.contains node p = true <-> within (BHNode.bounds node) p.
Proof.
  unfold BHNode.contains, within. split.
  - intros H. repeat (apply andb_prop in H; destruct H as [H ?]).
    repeat match goal with
           | H : Rgeb _ _ = true |- _ => apply Rgeb_true_inv in H
           | H : Rleb _ _ = true |- _ => apply Rleb_true_inv in H
           end.
    lra.
  - intros H. rewrite !Rgeb_true, !Rleb_true by lra. reflexivity.
Qed.

Lemma getOctant_lt_8 (node : BHNode.t) (p : Vector3.t) : (BHNode.getOctant node p < 8)%nat.
Proof.
  unfold BHNode.getOctant.
  destruct (Rgeb _ _), (Rgeb _ _), (Rgeb _ _); vm_compute; lia.
Qed.

(** The three bits of the octant index are the three comparisons. *)
Lemma getOctant_bits (node : BHNode.t) (p : Vector3.t) :
  Nat.testbit (BHNode.getOctant node p) 0
    = Rgeb (Vector3.x p) (Vector3.x (BHNode.getCenter node)) /\
  Nat.testbit (BHNode.getOctant node p) 1
    = Rgeb (Vector3.y p) (Vector3.y (BHNode.getCenter node)) /\
  Nat.testbit (BHNode.getOctant node p) 2
    = Rgeb (Vector3.z p) (Vector3.z (BHNode.getCenter node)).
Proof.
  unfold BHNode.getOctant.
  destruct (Rgeb (Vector3.x p) _), (Rgeb (Vector3.y p) _), (Rgeb (Vector3.z p) _);
    repeat split; reflexivity.
Qed.

(** The octant chosen for a point of the node is a box that holds the point. *)
Lemma createChild_within (node : BHNode.t) (p : Vector3.t) :
  within (BHNode.bounds node) p ->
  within (BHNode.bounds (BHNode.createChild node (BHNode.getOctant node p))) p.
Proof.
  intros H. destruct (getOctant_bits node p) as (Hx & Hy & Hz).
  unfold within, BHNode.createChild. cbn [BHNode.new BHNode.bounds min max Vector3.x Vector3.y Vector3.z].
  rewrite Hx, Hy, Hz. clear Hx Hy Hz. unfold within in H. unfold BHNode.getCenter.
  cbn [Vector3.x Vector3.y Vector3.z].
  destruct (Rgeb (Vector3.x p) _) eqn:Ex, (Rgeb (Vector3.y p) _) eqn:Ey,
           (Rgeb (Vector3.z p) _) eqn:Ez;
    repeat match goal with
           | E : Rgeb _ _ = true |- _ => apply Rgeb_true_inv in E
           | E : Rgeb _ _ = false |- _ => apply Rgeb_false_inv in E
           end; lra.
Qed.

Lemma nth_list_set {A : Type} (l : list A) (i : nat) (a d : A) :
  (i < length l)%nat -> nth i (BHNode.list_set l i a) d = a.
Proof.
  revert i. induction l as [| h l IH]; intros i Hi; [simpl in Hi; lia |].
  destruct i as [| i]; simpl; [reflexivity |]. apply IH. simpl in Hi. lia.
Qed.

Lemma nth_list_set_other {A : Type} (l : list A) (i j : nat) (a d : A) :
  i <> j -> nth j (BHNode.list_set l i a) d = nth j l d.
Proof.
  revert i j. induction l as [| h l IH]; intros i j Hij; [destruct i; reflexivity |].
  destruct i as [| i], j as [| j]; simpl; try reflexivity; [lia |].
  apply IH. lia.
Qed.

Lemma length_list_set {A : Type} (l : list A) (i : nat) (a : A) :
  length (BHNode.list_set l i a) = length l.
Proof.
  revert i. induction l as [| h l IH]; intros i; [destruct i; reflexivity |].
  destruct i as [| i]; simpl; [reflexivity |]. rewrite IH. reflexivity.
Qed.

Lemma nth_repeat_None {A : Type} (k n : nat) : nth k (repeat (@None A) n) None = None.
Proof.
  revert k. induction n as [| n IH]; intros [| k]; simpl; auto.
Qed.

(** An empty node takes the body it is given, when the body is in its box. *)
Lemma insert_empty (fuel : nat) (st : Store) (body : BodyRef) (node : BHNode.t) :
  within (BHNode.bounds node) (CelestialBody.position (st body)) ->
  BHNode.isEmpty node = true ->
  BarnesHutTree.insert (S fuel) st body node = Some (BarnesHutTree.store_body st body node).
Proof.
  intros Hin Hempty. cbn [BarnesHutTree.insert].
  rewrite (proj2 (contains_within _ _) Hin). cbn [negb]. rewrite Hempty. reflexivity.
Qed.

(** A body outside the box of a node is dropped. *)
Lemma insert_outside (fuel : nat) (st : Store) (body : BodyRef) (node : BHNode.t) :
  BHNode.contains node (CelestialBody.position (st body)) = false ->
  BarnesHutTree.insert (S fuel) st body node = Some node.
Proof.
  intros Hout. cbn [BarnesHutTree.insert]. rewrite Hout. reflexivity.
Qed.

(** Inserting, into a leaf, a body at the position of the leaf's body: the
    two fall into the same octant at every level and no recursion budget is
    enough. *)
Lemma insert_colocated (st : Store) (a b : BodyRef) :
  CelestialBody.position (st a) = CelestialBody.position (st b) ->
  forall (fuel : nat) (node : BHNode.t),
    fresh_leaf st a node ->
    BarnesHutTree.insert fuel st b node = None.
Proof.
  intros Hpos fuel. induction fuel as [| fuel IH]; intros node Hleaf; [reflexivity |].
  destruct Hleaf as (Hbody & Hempty & Hch & Hin).
  cbn [BarnesHutTree.insert].
  rewrite <- Hpos.
  rewrite (proj2 (contains_within node _) Hin). cbn [negb].
  rewrite Hempty, Hbody.
  set (node1 := BarnesHutTree.clear_body node).
  set (k := BHNode.getOctant node1 (CelestialBody.position (st a))).
  assert (Hcreate : BarnesHutTree.child_or_create node1 k = BHNode.createChild node1 k).
  { unfold BarnesHutTree.child_or_create, BHNode.child. simpl. rewrite Hch.
    rewrite nth_repeat_None. reflexivity. }
  rewrite Hcreate.
  assert (Hin1 : within (BHNode.bounds (BHNode.createChild node1 k))
                   (CelestialBody.position (st a))).
  { apply createChild_within. exact Hin. }
  destruct fuel as [| fuel']; [reflexivity |].
  rewrite (insert_empty fuel' st a (BHNode.createChild node1 k) Hin1) by reflexivity.
  cbv beta iota.
  set (leaf := BarnesHutTree.store_body st a (BHNode.createChild node1 k)).
  set (node2 := BHNode.set_child node1 k leaf).
  assert (Hk : BHNode.getOctant node2 (CelestialBody.position (st a)) = k) by reflexivity.
  rewrite Hk.
  assert (Hchild : BarnesHutTree.child_or_create node2 k = leaf).
  { unfold BarnesHutTree.child_or_create, BHNode.child, node2. simpl. rewrite Hch.
    rewrite nth_list_set; [reflexivity |].
    rewrite repeat_length. apply getOctant_lt_8. }
  rewrite Hchild.
  rewrite IH; [reflexivity |].
  repeat split; try reflexivity; apply Hin1.
Qed.

(** The running extent only grows, and holds every body it has seen. *)
Lemma extend_fold (st : Store) (l : list BodyRef) (e : BarnesHutTree.Extent) :
  let e' := fold_left (BarnesHutTree.extend st) l e in
  (BarnesHutTree.minX e' <= BarnesHutTree.minX e /\
   BarnesHutTree.minY e' <= BarnesHutTree.minY e /\
   BarnesHutTree.minZ e' <= BarnesHutTree.minZ e /\
   BarnesHutTree.maxX e <= BarnesHutTree.maxX e' /\
   BarnesHutTree.maxY e <= BarnesHutTree.maxY e' /\
   BarnesHutTree.maxZ e <= BarnesHutTree.maxZ e') /\
  forall r, In r l ->
    let p := CelestialBody.position (st r) in
    BarnesHutTree.minX e' <= Vector3.x p <= BarnesHutTree.maxX e' /\
    BarnesHutTree.minY e' <= Vector3.y p <= BarnesHutTree.maxY e' /\
    BarnesHutTree.minZ e' <= Vector3.z p <= BarnesHutTree.maxZ e'.
Proof.
  revert e. induction l as [| a l IH]; intros e; cbn zeta.
  - simpl. split; [lra | intros r []].
  - simpl fold_left. destruct (IH (BarnesHutTree.extend st e a)) as [Hmono Hall].
    cbn zeta in Hall.
    set (p := CelestialBody.position (st a)) in *.
    assert (Hstep :
      BarnesHutTree.minX (BarnesHutTree.extend st e a) <= BarnesHutTree.minX e /\
      BarnesHutTree.minY (BarnesHutTree.extend st e a) <= BarnesHutTree.minY e /\
      BarnesHutTree.minZ (BarnesHutTree.extend st e a) <= BarnesHutTree.minZ e /\
      BarnesHutTree.maxX e <= BarnesHutTree.maxX (BarnesHutTree.extend st e a) /\
      BarnesHutTree.maxY e <= BarnesHutTree.maxY (BarnesHutTree.extend st e a) /\
      BarnesHutTree.maxZ e <= BarnesHutTree.maxZ (BarnesHutTree.extend st e a) /\
      BarnesHutTree.minX (BarnesHutTree.extend st e a) <= Vector3.x p
        <= BarnesHutTree.maxX (BarnesHutTree.extend st e a) /\
      BarnesHutTree.minY (BarnesHutTree.extend st e a) <= Vector3.y p
        <= BarnesHutTree.maxY (BarnesHutTree.extend st e a) /\
      BarnesHutTree.minZ (BarnesHutTree.extend st e a) <= Vector3.z p
        <= BarnesHutTree.maxZ (BarnesHutTree.extend st e a)).
    { unfold BarnesHutTree.extend. fold p. simpl.
      pose proof (Rmin_l (BarnesHutTree.minX e) (Vector3.x p)).
      pose proof (Rmin_r (BarnesHutTree.minX e) (Vector3.x p)).
      pose proof (Rmin_l (BarnesHutTree.minY e) (Vector3.y p)).
      pose proof (Rmin_r (BarnesHutTree.minY e) (Vector3.y p)).
      pose proof (Rmin_l (BarnesHutTree.minZ e) (Vector3.z p)).
      pose proof (Rmin_r (BarnesHutTree.minZ e) (Vector3.z p)).
      pose proof (Rmax_l (BarnesHutTree.maxX e) (Vector3.x p)).
      pose proof (Rmax_r (BarnesHutTree.maxX e) (Vector3.x p)).
      pose proof (Rmax_l (BarnesHutTree.maxY e) (Vector3.y p)).
      pose proof (Rmax_r (BarnesHutTree.maxY e) (Vector3.y p)).
      pose proof (Rmax_l (BarnesHutTree.maxZ e) (Vector3.z p)).
      pose proof (Rmax_r (BarnesHutTree.maxZ e) (Vector3.z p)).
      lra. }
    split; [lra |].
    intros r [<- | Hin].
    + fold p. lra.
    + apply Hall. exact Hin.
Qed.

(** With a padding that is not negative, the box of [calculateBounds] holds
    every body of the list. *)
Lemma calculateBounds_within (st : Store) (bodies : list BodyRef) (padding : R)
  (r : BodyRef) :
  0 <= padding -> In r bodies ->
  within (BarnesHutTree.calculateBounds st bodies padding) (CelestialBody.position (st r)).
Proof.
  intros Hpad Hin. unfold BarnesHutTree.calculateBounds.
  destruct bodies as [| first rest]; [destruct Hin |].
  match goal with
  | |- context [fold_left ?f ?l ?e] =>
    destruct (extend_fold st l e) as [_ Hall]
  end.
  specialize (Hall r Hin). cbn zeta in Hall.
  unfold within. cbn [min max Vector3.x Vector3.y Vector3.z]. lra.
Qed.

Lemma new_colocated (fuel : nat) (st : Store) (a b : BodyRef) (rest : list BodyRef)
  (bounds : Bounds) (theta : R) :
  CelestialBody.position (st a) = CelestialBody.position (st b) ->
  within bounds (CelestialBody.position (st a)) ->
  BarnesHutTree.new fuel st (a :: b :: rest) bounds theta = None.
Proof.
  intros Hpos Hin.
  unfold BarnesHutTree.new, BarnesHutTree.buildTree. cbn [BarnesHutTree.insert_all].
  destruct fuel as [| fuel]; [reflexivity |].
  rewrite insert_empty by (try reflexivity; exact Hin).
  rewrite (insert_colocated st a b Hpos); [reflexivity |].
  repeat split; try reflexivity; apply Hin.
Qed.

(** A registry of three bodies or more whose first two are at one position:
    the tick never returns, whatever the recursion budget. *)
Lemma update_colocated (fuel : nat) (this : PhysicsEngine.t) (deltaTime : R) (w : World)
  (a b c : BodyRef) (rest : list BodyRef) :
  PhysicsEngine.bodies this = a :: b :: c :: rest ->
  PhysicsEngine.useBarnesHut this = true ->
  CelestialBody.position (store w a) = CelestialBody.position (store w b) ->
  PhysicsEngine.update fuel this deltaTime w = None.
Proof.
  intros Hb Huse Hpos. unfold PhysicsEngine.update, PhysicsEngine.tick_tree.
  rewrite Huse, Hb. cbn [length Nat.ltb Nat.leb andb].
  rewrite new_colocated; [reflexivity | exact Hpos |].
  apply calculateBounds_within; [lra | left; reflexivity].
Qed.

(** C1 (failing input): with three registered bodies, two of them at the
    origin, and the tree in use (the default), [update] does not return for
    any bound on the depth of the recursion of [insert]: the source has
    neither a minimum cell size nor a maximum depth. *)
Theorem update_colocated_never_returns (fuel : nat) (deltaTime : R) :
  PhysicsEngine.update fuel (engine_G1 [0%nat; 1%nat; 2%nat]) deltaTime
    (mkWorld store_colocated rng_zero) = None.
Proof.
  apply (update_colocated fuel _ deltaTime _ 0%nat 1%nat 2%nat []); reflexivity.
Qed.

(** ** The Barnes-Hut traversal *)

(** A node whose centre of mass is within 0.001 of the query body leaves the
    accumulator as it is. *)
Lemma force_near_node (st : Store) (theta : R) (body : BodyRef) (node : BHNode.t)
  (G : R) (force : Vector3.t) :
  Vector3.length
    (Vector3.subVectors (BHNode.centerOfMass node) (CelestialBody.position (st body)))
    < 0.001 ->
  BarnesHutTree.calculateForceRecursive st theta body node G force = force.
Proof.
  intros Hd. destruct node as [com tm b ch bd ie].
  cbn [BarnesHutTree.calculateForceRecursive]. cbn [BHNode.centerOfMass] in Hd.
  destruct ie; [reflexivity |].
  destruct (BarnesHutTree.body_is _ body); [reflexivity |].
  rewrite Rltb_true by exact Hd. reflexivity.
Qed.

(** A node that is used as a point mass: its children are not looked at. *)
Lemma force_point_mass (st : Store) (theta : R) (body : BodyRef)
  (com : Vector3.t) (tm : R) (b : option BodyRef) (ch : list (option BHNode.t))
  (bd : Bounds) (G : R) (force : Vector3.t) :
  let node := BHNode.mk com tm b ch bd false in
  let direction := Vector3.subVectors com (CelestialBody.position (st body)) in
  BarnesHutTree.body_is node body = false ->
  0.001 <= Vector3.length direction ->
  Rltb (BHNode.getSize node / Vector3.length direction) theta
    || BarnesHutTree.has_body node = true ->
  BarnesHutTree.calculateForceRecursive st theta body node G force =
  Vector3.add force (point_mass_force G (CelestialBody.mass (st body)) tm direction).
Proof.
  intros node direction Hself Hd Hpoint.
  unfold node. cbn [BarnesHutTree.calculateForceRecursive].
  fold node. rewrite Hself. fold direction.
  rewrite Rltb_false by exact Hd. rewrite Hpoint. reflexivity.
Qed.

(** The random source is not consulted in a tick that uses the tree. *)
Lemma force_pass_tree_rng (this : PhysicsEngine.t) (tree : BarnesHutTree.t)
  (st : Store) (g : Rng) :
  snd (PhysicsEngine.force_pass this (Some tree) st g) = g.
Proof.
  rewrite force_pass_steps.
  generalize (fun _ : BodyRef => @None Vector3.t). intros forces. revert forces.
  induction (PhysicsEngine.bodies this) as [| a l IH]; intros forces; [reflexivity |].
  simpl fold_left. unfold force_step at 2. simpl. apply IH.
Qed.

(** C10: in the tree evaluator a node whose centre of mass is less than
    0.001 away from the query body contributes the zero vector, be it a leaf
    or an internal node with a subtree of any size below it; the random source
    is never drawn from in a tick by the tree; and a node that holds a body
    other than the query body is never recursed into: its children play no
    part in the result. *)
Theorem tree_coincidence_and_leaves :
  (forall st theta body node G force,
     Vector3.length
       (Vector3.subVectors (BHNode.centerOfMass node) (CelestialBody.position (st body)))
       < 0.001 ->
     BarnesHutTree.calculateForceRecursive st theta body node G force = force
     /\ BarnesHutTree.calculateForceRecursive st theta body node G Vector3.zero
        = Vector3.zero)
  /\
  (forall this tree st g, snd (PhysicsEngine.force_pass this (Some tree) st g) = g)
  /\
  (forall st theta body com tm other ch ch' bd ie G force,
     other <> body ->
     BarnesHutTree.calculateForceRecursive st theta body
       (BHNode.mk com tm (Some other) ch bd ie) G force
     = BarnesHutTree.calculateForceRecursive st theta body
         (BHNode.mk com tm (Some other) ch' bd ie) G force).
Proof.
  split; [| split].
  - intros st theta body node G force Hd.
    split; apply force_near_node; exact Hd.
  - apply force_pass_tree_rng.
  - intros st theta body com tm other ch ch' bd ie G force Hne.
    cbn [BarnesHutTree.calculateForceRecursive].
    destruct ie; [reflexivity |].
    unfold BarnesHutTree.body_is, BarnesHutTree.has_body. cbn [BHNode.body].
    destruct (Nat.eqb other body); [reflexivity |].
    destruct (Rltb _ 0.001); [reflexivity |].
    rewrite !orb_true_r. reflexivity.
Qed.

Lemma tree_coincidence_and_leaves_witness :
  BarnesHutTree.calculateForceRecursive store_pair_origin 0.5 0%nat internal_at_origin 1
    Vector3.zero = Vector3.zero
  /\ BarnesHutTree.calculateForceRecursive store_pair_origin 0.5 0%nat
       (leaf_one [Some internal_at_origin]) 1 Vector3.zero
     = BarnesHutTree.calculateForceRecursive store_pair_origin 0.5 0%nat
         (leaf_one []) 1 Vector3.zero.
Proof.
  destruct tree_coincidence_and_leaves as [Hnear [_ Hleaf]].
  split.
  - apply (Hnear store_pair_origin 0.5 0%nat internal_at_origin 1 Vector3.zero).
    replace (Vector3.subVectors _ _) with Vector3.zero
      by (apply vector_eq; simpl; ring).
    rewrite length_zero. lra.
  - apply (Hleaf store_pair_origin 0.5 0%nat). discriminate.
Defined.

(** C6 (as the code has it): a node that is not empty, is not the leaf of the
    query body, has its centre of mass at a distance d of at least 0.001 from
    the query body, and is a leaf or has s / d < theta, is used as one point
    mass: it adds [normalize(com - position) * G m M / max(d^2, 0.1^2)] to the
    accumulator, whatever its children; this is the value of the direct
    evaluator for a body of mass M at the centre of mass whenever d^2 is at
    least 0.001 (the direct evaluator's threshold for its jitter).  The tree
    has no jitter: a node with d < 0.001 adds nothing. *)
Theorem point_mass_treatment (st : Store) (theta : R) (body : BodyRef)
  (com : Vector3.t) (tm : R) (b : option BodyRef) (ch : list (option BHNode.t))
  (bd : Bounds) (G : R) (force : Vector3.t) :
  let node := BHNode.mk com tm b ch bd false in
  let direction := Vector3.subVectors com (CelestialBody.position (st body)) in
  BarnesHutTree.body_is node body = false ->
  (Vector3.length direction < 0.001 ->
   BarnesHutTree.calculateForceRecursive st theta body node G force = force)
  /\
  (0.001 <= Vector3.length direction ->
   Rltb (BHNode.getSize node / Vector3.length direction) theta
     || BarnesHutTree.has_body node = true ->
   BarnesHutTree.calculateForceRecursive st theta body node G force
     = Vector3.add force (point_mass_force G (CelestialBody.mass (st body)) tm direction)
   /\ (forall ch',
         BarnesHutTree.calculateForceRecursive st theta body
           (BHNode.mk com tm b ch' bd false) G force
         = BarnesHutTree.calculateForceRecursive st theta body node G force)
   /\ (0.001 <= Vector3.lengthSq direction ->
       forall this v s g,
         PhysicsEngine.G this = G ->
         PhysicsEngine.calculateGravityForce this (st body) (CelestialBody.mk tm com v s) g
         = (point_mass_force G (CelestialBody.mass (st body)) tm direction, g))).
Proof.
  intros node direction Hself.
  split; [intros Hd; apply force_near_node; exact Hd |].
  intros Hd Hpoint.
  split; [| split].
  - apply force_point_mass; assumption.
  - intros ch'. unfold node.
    rewrite !force_point_mass; try assumption. reflexivity.
  - intros Hsq this v s g HG.
    rewrite gravity_far by exact Hsq.
    cbn [CelestialBody.position CelestialBody.mass]. fold direction.
    unfold point_mass_force. rewrite length_sq. rewrite HG.
    f_equal. f_equal. unfold Rdiv. ring.
Qed.

Lemma single_body_tree_built :
  BarnesHutTree.new 1 store_pair_origin [1%nat] single_body_bounds 0.5
  = Some single_body_tree.
Proof.
  unfold BarnesHutTree.new, BarnesHutTree.buildTree. cbn [BarnesHutTree.insert_all].
  rewrite insert_empty.
  - reflexivity.
  - apply (calculateBounds_within store_pair_origin [1%nat] 10 1%nat);
      [lra | left; reflexivity].
  - reflexivity.
Qed.

Lemma point_mass_treatment_witness :
  BarnesHutTree.calculateForceRecursive store_star_planet 0.5 1%nat
    (BHNode.mk (Vector3.mk 0 0 0) 100 (Some 0%nat) [] unit_box false) 1 Vector3.zero
  = Vector3.add Vector3.zero
      (point_mass_force 1 1 100
         (Vector3.subVectors (Vector3.mk 0 0 0) (Vector3.mk 10 0 0)))
  /\ BarnesHutTree.calculateForceRecursive store_pair_origin 0.5 0%nat
       (BHNode.mk (Vector3.mk 0 0 0) 5 (Some 1%nat) [] unit_box false) 1 Vector3.zero
     = Vector3.zero.
Proof.
  split.
  - apply (point_mass_treatment store_star_planet 0.5 1%nat (Vector3.mk 0 0 0) 100
             (Some 0%nat) [] unit_box 1 Vector3.zero).
    + reflexivity.
    + change (CelestialBody.position (store_star_planet 1%nat)) with (Vector3.mk 10 0 0).
      unfold Vector3.length.
      replace (Vector3.lengthSq _) with (10 * 10)
        by (unfold Vector3.lengthSq; simpl; ring).
      rewrite sqrt_square; lra.
    + apply orb_true_r.
  - apply (point_mass_treatment store_pair_origin 0.5 0%nat (Vector3.mk 0 0 0) 5
             (Some 1%nat) [] unit_box 1 Vector3.zero).
    + reflexivity.
    + replace (Vector3.subVectors _ _) with Vector3.zero
        by (apply vector_eq; simpl; ring).
      rewrite length_zero. lra.
Defined.

(** C6 (as stated) fails: body 0 and body 1 of [store_pair_origin] are both at
    the origin.  The tree over body 1 is one leaf; queried for body 0 it
    gives the zero vector, where the direct evaluator gives the jitter
    direction scaled by G m1 m2 / 0.1^2. *)
Lemma point_mass_not_direct_when_coincident :
  BarnesHutTree.new 1 store_pair_origin [1%nat] single_body_bounds 0.5
    = Some single_body_tree
  /\ BarnesHutTree.calculateForce single_body_tree store_pair_origin 0%nat 1 = Vector3.zero
  /\ BarnesHutTree.calculateForce single_body_tree store_pair_origin 0%nat 1
     <> fst (PhysicsEngine.calculateGravityForce (engine_G1 [0%nat; 1%nat])
               (store_pair_origin 0%nat) (store_pair_origin 1%nat) rng_zero).
Proof.
  assert (Htree :
    BarnesHutTree.calculateForce single_body_tree store_pair_origin 0%nat 1 = Vector3.zero).
  { unfold BarnesHutTree.calculateForce. apply force_near_node.
    replace (Vector3.subVectors _ _) with Vector3.zero
      by (apply vector_eq; simpl; ring).
    rewrite length_zero. lra. }
  split; [exact single_body_tree_built | split; [exact Htree |]].
  rewrite Htree.
  rewrite gravity_near
    by (unfold Vector3.lengthSq, Vector3.subVectors; simpl; lra).
  cbn [fst]. intros Heq.
  apply (f_equal Vector3.x) in Heq. revert Heq.
  unfold Vector3.normalize, Vector3.divideScalar, Vector3.multiplyScalar, jitter, rng_zero.
  cbn [Vector3.x Vector3.zero draws cursor engine_G1 PhysicsEngine.G store_pair_origin
       body_at CelestialBody.mass Nat.eqb].
  pose proof (orOne_nonzero
                (Vector3.length
                   (Vector3.mk ((0 - 0.5) * 0.1) ((0 - 0.5) * 0.1) ((0 - 0.5) * 0.1))))
    as Hnz.
  set (l := Vector3.orOne _) in *.
  intros Heq. apply Hnz.
  assert (Hinv : 1 / l <> 0).
  { unfold Rdiv. rewrite Rmult_1_l. apply Rinv_neq_0_compat. exact Hnz. }
  exfalso. apply Hinv.
  assert (H : (0 - 0.5) * 0.1 * (1 * (10 * 5) / (0.1 * 0.1)) * (1 / l) = 0) by lra.
  apply Rmult_integral in H. destruct H as [H | H]; [lra | exact H].
Qed.

(** ** The shape of a built octree *)

Lemma bodies_of_unfold (com : Vector3.t) (tm : R) (b : option BodyRef)
  (ch : list (option BHNode.t)) (bd : Bounds) (ie : bool) :
  bodies_of (BHNode.mk com tm b ch bd ie)
  = (match b with Some r => [r] | None => [] end) ++ flat_map slot_bodies ch.
Proof. reflexivity. Qed.

Lemma flat_map_repeat_None (n : nat) : flat_map slot_bodies (repeat None n) = [].
Proof. induction n as [| n IH]; simpl; [reflexivity | exact IH]. Qed.

Lemma all_slots_from_nth (P : nat -> BHNode.t -> Prop) (l : list (option BHNode.t))
  (k0 : nat) :
  all_slots_from P k0 l <->
  (forall i c, nth i l None = Some c -> P (k0 + i)%nat c).
Proof.
  revert k0. induction l as [| slot l IH]; intros k0; simpl.
  - split; [intros _ [| i] c H; discriminate | trivial].
  - rewrite IH. split.
    + intros [Hslot Hrest] [| i] c Hnth.
      * subst slot. rewrite Nat.add_0_r. exact Hslot.
      * replace (k0 + S i)%nat with (S k0 + i)%nat by lia. apply Hrest. exact Hnth.
    + intros H. split.
      * destruct slot as [c |]; [| trivial].
        specialize (H 0%nat c eq_refl). rewrite Nat.add_0_r in H. exact H.
      * intros i c Hnth. replace (S k0 + i)%nat with (k0 + S i)%nat by lia.
        apply H. exact Hnth.
Qed.

Lemma well_formed_internal (st : Store) (com : Vector3.t) (tm : R)
  (ch : list (option BHNode.t)) (bd : Bounds) :
  well_formed st (BHNode.mk com tm None ch bd false) <->
  slots_ok st (BHNode.mk com tm None ch bd false) /\
  (exists r, In r (flat_map slot_bodies ch)).
Proof.
  unfold slots_ok. cbn [well_formed BHNode.children].
  rewrite all_slots_from_nth. cbn [Nat.add]. tauto.
Qed.

Lemma createChild_bounds_only (n1 n2 : BHNode.t) (k : nat) :
  BHNode.bounds n1 = BHNode.bounds n2 -> BHNode.createChild n1 k = BHNode.createChild n2 k.
Proof.
  intros H. unfold BHNode.createChild, BHNode.getCenter. rewrite H. reflexivity.
Qed.

Lemma getOctant_bounds_only (n1 n2 : BHNode.t) (p : Vector3.t) :
  BHNode.bounds n1 = BHNode.bounds n2 -> BHNode.getOctant n1 p = BHNode.getOctant n2 p.
Proof.
  intros H. unfold BHNode.getOctant, BHNode.getCenter. rewrite H. reflexivity.
Qed.

(** A point of an octant of a box is a point of the box. *)
Lemma createChild_subbox (node : BHNode.t) (k : nat) (p : Vector3.t) :
  within (BHNode.bounds (BHNode.createChild node k)) p -> within (BHNode.bounds node) p.
Proof.
  unfold within, BHNode.createChild, BHNode.getCenter.
  cbn [BHNode.new BHNode.bounds min max Vector3.x Vector3.y Vector3.z].
  destruct (Nat.testbit k 0), (Nat.testbit k 1), (Nat.testbit k 2); lra.
Qed.

Lemma createChild_well_formed (st : Store) (node : BHNode.t) (k : nat) :
  well_formed st (BHNode.createChild node k).
Proof. unfold BHNode.createChild, BHNode.new. simpl. split; reflexivity. Qed.

Lemma createChild_bodies (node : BHNode.t) (k : nat) :
  bodies_of (BHNode.createChild node k) = [].
Proof. reflexivity. Qed.

(** Every body below a well-formed node is inside the box of the node. *)
Lemma well_formed_within (st : Store) (node : BHNode.t) :
  well_formed st node ->
  forall r, In r (bodies_of node) ->
    within (BHNode.bounds node) (CelestialBody.position (st r)).
Proof.
  induction node as [com tm b ch bd ie IH] using BHNode_induction.
  intros Hwf r Hr. rewrite bodies_of_unfold in Hr. cbn [BHNode.bounds].
  destruct ie.
  - destruct Hwf as [-> ->]. rewrite flat_map_repeat_None in Hr. destruct Hr.
  - destruct b as [e |].
    + destruct Hwf as [-> Hin]. rewrite flat_map_repeat_None in Hr.
      destruct Hr as [<- | []]. exact Hin.
    + apply well_formed_internal in Hwf. destruct Hwf as [[_ Hslots] _].
      cbn [app] in Hr. apply in_flat_map in Hr. destruct Hr as (slot & Hslot & Hr).
      destruct slot as [c |]; [| destruct Hr].
      destruct (In_nth ch (Some c) None Hslot) as (i & _ & Hi).
      destruct (Hslots i c Hi) as [Hwfc Hbc].
      rewrite Forall_forall in IH. specialize (IH (Some c) Hslot). simpl in IH.
      specialize (IH Hwfc r Hr). rewrite Hbc in IH.
      apply createChild_subbox in IH. exact IH.
Qed.

Lemma well_formed_empty_bodies (st : Store) (node : BHNode.t) :
  well_formed st node -> BHNode.isEmpty node = true -> bodies_of node = [].
Proof.
  destruct node as [com tm b ch bd ie]. cbn [BHNode.isEmpty]. intros Hwf ->.
  destruct Hwf as [-> ->]. rewrite bodies_of_unfold. apply flat_map_repeat_None.
Qed.

Lemma well_formed_nonempty_bodies (st : Store) (node : BHNode.t) :
  well_formed st node -> BHNode.isEmpty node = false -> exists r, In r (bodies_of node).
Proof.
  destruct node as [com tm b ch bd ie]. cbn [BHNode.isEmpty]. intros Hwf ->.
  rewrite bodies_of_unfold. destruct b as [e |].
  - exists e. left. reflexivity.
  - apply well_formed_internal in Hwf. destruct Hwf as [_ [r Hr]]. exists r. exact Hr.
Qed.

Lemma flat_map_list_set (l : list (option BHNode.t)) (k : nat) (x : option BHNode.t)
  (extra : list BodyRef) :
  (k < length l)%nat ->
  Permutation (slot_bodies x) (extra ++ slot_bodies (nth k l None)) ->
  Permutation (flat_map slot_bodies (BHNode.list_set l k x))
              (extra ++ flat_map slot_bodies l).
Proof.
  revert k. induction l as [| h l IH]; intros k Hk Hx; [simpl in Hk; lia |].
  destruct k as [| k]; simpl.
  - simpl in Hx. rewrite app_assoc. apply Permutation_app_tail. exact Hx.
  - simpl in Hk, Hx. rewrite (IH k) by (try lia; exact Hx).
    apply Permutation_app_swap_app.
Qed.

Lemma child_or_create_spec (st : Store) (node : BHNode.t) (k : nat) :
  slots_ok st node ->
  let c := BarnesHutTree.child_or_create node k in
  well_formed st c /\
  BHNode.bounds c = BHNode.bounds (BHNode.createChild node k) /\
  bodies_of c = slot_bodies (nth k (BHNode.children node) None).
Proof.
  intros [_ Hslots]. unfold BarnesHutTree.child_or_create, BHNode.child.
  destruct (nth k (BHNode.children node) None) as [c |] eqn:Hk.
  - destruct (Hslots k c Hk) as [Hwf Hb]. repeat split; assumption.
  - split; [apply createChild_well_formed | split; reflexivity].
Qed.

(** The recursion of [insert] into the octant of the body. *)
Lemma insert_child_step (st : Store) (fuel : nat) (body : BodyRef) (node : BHNode.t)
  (c' : BHNode.t) :
  insert_ok st fuel ->
  slots_ok st node ->
  within (BHNode.bounds node) (CelestialBody.position (st body)) ->
  let k := BHNode.getOctant node (CelestialBody.position (st body)) in
  BarnesHutTree.insert fuel st body (BarnesHutTree.child_or_create node k) = Some c' ->
  slots_ok st (BHNode.set_child node k c') /\
  Permutation (flat_map slot_bodies (BHNode.children (BHNode.set_child node k c')))
              (body :: flat_map slot_bodies (BHNode.children node)).
Proof.
  intros IH Hok Hin k Hins.
  destruct (child_or_create_spec st node k Hok) as (Hwfc & Hbc & Hbodies).
  destruct (IH body _ c' Hwfc Hins) as (Hwf' & Hb' & Hperm).
  assert (Hcontains :
    BHNode.contains (BarnesHutTree.child_or_create node k)
      (CelestialBody.position (st body)) = true).
  { apply contains_within. rewrite Hbc. apply createChild_within. exact Hin. }
  unfold inserted in Hperm. rewrite Hcontains, Hbodies in Hperm.
  destruct Hok as [Hlen Hslots].
  assert (Hk : (k < 8)%nat) by apply getOctant_lt_8.
  split.
  - split.
    + cbn [BHNode.set_child BHNode.children]. rewrite length_list_set. exact Hlen.
    + intros i c Hi. cbn [BHNode.set_child BHNode.children] in Hi.
      rewrite (createChild_bounds_only (BHNode.set_child node k c') node i)
        by reflexivity.
      destruct (Nat.eq_dec k i) as [<- | Hne].
      * rewrite nth_list_set in Hi by lia. injection Hi as <-.
        split; [exact Hwf' | congruence].
      * rewrite nth_list_set_other in Hi by exact Hne. apply Hslots. exact Hi.
  - cbn [BHNode.set_child BHNode.children].
    apply (flat_map_list_set (BHNode.children node) k (Some c') [body]); [lia |].
    exact Hperm.
Qed.

Lemma insert_ok_all (st : Store) (fuel : nat) : insert_ok st fuel.
Proof.
  induction fuel as [| fuel IH]; intros body node node' Hwf Hins; [discriminate |].
  cbn [BarnesHutTree.insert] in Hins. unfold inserted.
  destruct (BHNode.contains node (CelestialBody.position (st body))) eqn:Hc;
    cbn [negb] in Hins.
  2:{ injection Hins as <-. split; [exact Hwf | split; reflexivity]. }
  apply contains_within in Hc.
  destruct node as [com tm b ch bd ie]. cbn [BHNode.isEmpty BHNode.body] in Hins.
  cbn [BHNode.bounds] in Hc.
  destruct ie.
  { (* an empty node *)
    injection Hins as <-. destruct Hwf as [-> ->].
    unfold BarnesHutTree.store_body. cbn [BHNode.children BHNode.bounds].
    split; [split; [reflexivity | exact Hc] |].
    split; [reflexivity |]. rewrite !bodies_of_unfold, flat_map_repeat_None.
    reflexivity. }
  destruct b as [existingBody |].
  - (* a leaf: subdivide *)
    destruct Hwf as [-> Hexisting].
    set (node1 := BarnesHutTree.clear_body _) in Hins.
    assert (Hok1 : slots_ok st node1).
    { split; [reflexivity |]. intros i c Hi.
      unfold node1 in Hi. cbn [BarnesHutTree.clear_body BHNode.children] in Hi.
      rewrite (nth_repeat_None i 8) in Hi. discriminate. }
    destruct (BarnesHutTree.insert fuel st existingBody _) as [c |] eqn:Hins1;
      [| discriminate].
    destruct (insert_child_step st fuel existingBody node1 c IH Hok1 Hexisting Hins1)
      as [Hok2 Hperm2].
    set (node2 := BHNode.set_child node1 _ c) in *.
    destruct (BarnesHutTree.insert fuel st body _) as [c' |] eqn:Hins2; [| discriminate].
    injection Hins as <-.
    destruct (insert_child_step st fuel body node2 c' IH Hok2 Hc Hins2) as [Hok3 Hperm3].
    set (node3 := BHNode.set_child node2 _ c') in *.
    split; [| split].
    + apply (well_formed_internal st com tm (BHNode.children node3) bd).
      split; [exact Hok3 |]. exists body.
      apply (Permutation_in _ (Permutation_sym Hperm3)). left. reflexivity.
    + reflexivity.
    + change (bodies_of node3) with (flat_map slot_bodies (BHNode.children node3)).
      rewrite Hperm3, Hperm2. rewrite bodies_of_unfold.
      cbn [BHNode.children node1 BarnesHutTree.clear_body app]. reflexivity.
  - (* an internal node *)
    apply well_formed_internal in Hwf. destruct Hwf as [Hok _].
    destruct (BarnesHutTree.insert fuel st body _) as [c' |] eqn:Hins1; [| discriminate].
    injection Hins as <-.
    destruct (insert_child_step st fuel body _ c' IH Hok Hc Hins1) as [Hok' Hperm'].
    set (node' := BHNode.set_child _ _ c') in *.
    split; [| split].
    + apply (well_formed_internal st com tm (BHNode.children node') bd).
      split; [exact Hok' |]. exists body.
      apply (Permutation_in _ (Permutation_sym Hperm')). left. reflexivity.
    + reflexivity.
    + change (bodies_of node') with (flat_map slot_bodies (BHNode.children node')).
      rewrite Hperm'. reflexivity.
Qed.

Lemma contains_bounds_only (n1 n2 : BHNode.t) (p : Vector3.t) :
  BHNode.bounds n1 = BHNode.bounds n2 -> BHNode.contains n1 p = BHNode.contains n2 p.
Proof. intros H. unfold BHNode.contains. rewrite H. reflexivity. Qed.

Lemma insert_all_spec (st : Store) (fuel : nat) (bodies : list BodyRef)
  (root root' : BHNode.t) :
  well_formed st root ->
  BarnesHutTree.insert_all fuel st bodies root = Some root' ->
  well_formed st root' /\
  BHNode.bounds root' = BHNode.bounds root /\
  Permutation (bodies_of root')
    (filter (in_box st (BHNode.bounds root)) bodies ++ bodies_of root).
Proof.
  revert root. induction bodies as [| body rest IH]; intros root Hwf Hall.
  - injection Hall as <-. split; [exact Hwf | split; reflexivity].
  - cbn [BarnesHutTree.insert_all] in Hall.
    destruct (BarnesHutTree.insert fuel st body root) as [root1 |] eqn:Hins;
      [| discriminate].
    destruct (insert_ok_all st fuel body root root1 Hwf Hins) as (Hwf1 & Hb1 & Hperm1).
    destruct (IH root1 Hwf1 Hall) as (Hwf' & Hb' & Hperm').
    split; [exact Hwf' | split; [congruence |]].
    rewrite Hperm', Hperm1, Hb1. cbn [filter]. unfold inserted, in_box at 2.
    rewrite (contains_bounds_only (BHNode.new (BHNode.bounds root)) root) by reflexivity.
    destruct (BHNode.contains root _); cbn [app].
    + symmetry. apply Permutation_middle.
    + reflexivity.
Qed.

(** ** The aggregate pass *)

Lemma add_assoc (a b c : Vector3.t) :
  Vector3.add (Vector3.add a b) c = Vector3.add a (Vector3.add b c).
Proof. apply vector_eq; simpl; ring. Qed.

Lemma add_comm (a b : Vector3.t) : Vector3.add a b = Vector3.add b a.
Proof. apply vector_eq; simpl; ring. Qed.

Lemma add_zero_r (v : Vector3.t) : Vector3.add v Vector3.zero = v.
Proof. apply vector_eq; simpl; ring. Qed.

Lemma sum_over_app {A : Type} (l l' : list A) (f : A -> R) :
  sum_over (l ++ l') f = sum_over l f + sum_over l' f.
Proof.
  induction l as [| a l IH]; simpl; [ring |]. rewrite IH. ring.
Qed.

Lemma sum_vectors_app {A : Type} (l l' : list A) (f : A -> Vector3.t) :
  sum_vectors (l ++ l') f = Vector3.add (sum_vectors l f) (sum_vectors l' f).
Proof.
  induction l as [| a l IH]; simpl.
  - rewrite add_zero_l. reflexivity.
  - rewrite IH, add_assoc. reflexivity.
Qed.

Lemma sum_over_positive {A : Type} (l : list A) (f : A -> R) :
  l <> [] -> (forall a, In a l -> 0 < f a) -> 0 < sum_over l f.
Proof.
  intros Hne Hpos. destruct l as [| a l]; [contradiction |]. clear Hne.
  revert a Hpos. induction l as [| b l IH]; intros a Hpos; simpl.
  - specialize (Hpos a (or_introl eq_refl)). lra.
  - pose proof (Hpos a (or_introl eq_refl)).
    assert (0 < sum_over (b :: l) f) by (apply IH; intros c Hc; apply Hpos; right; exact Hc).
    simpl in *. lra.
Qed.

Lemma updateCenterOfMass_internal (st : Store) (com : Vector3.t) (tm : R)
  (ch : list (option BHNode.t)) (bd : Bounds) :
  BarnesHutTree.updateCenterOfMass st (BHNode.mk com tm None ch bd false) =
  let agg := fold_left (aggregate_step st) ch (BarnesHutTree.mkAggregate 0 Vector3.zero []) in
  if Rgtb (BarnesHutTree.agg_mass agg) 0
  then BHNode.mk
         (Vector3.divideScalar (BarnesHutTree.agg_weighted agg) (BarnesHutTree.agg_mass agg))
         (BarnesHutTree.agg_mass agg) None (BarnesHutTree.agg_children agg) bd false
  else BHNode.mk com tm None (BarnesHutTree.agg_children agg) bd false.
Proof. reflexivity. Qed.

Lemma updateCenterOfMass_empty (st : Store) (node : BHNode.t) :
  BHNode.isEmpty node = true -> BarnesHutTree.updateCenterOfMass st node = node.
Proof.
  destruct node as [com tm b ch bd ie]. cbn [BHNode.isEmpty]. intros ->. reflexivity.
Qed.

Lemma aggregate_fold (st : Store) (l : list (option BHNode.t))
  (acc : BarnesHutTree.Aggregate) :
  fold_left (aggregate_step st) l acc =
  BarnesHutTree.mkAggregate
    (BarnesHutTree.agg_mass acc + sum_over l (slot_mass st))
    (Vector3.add (BarnesHutTree.agg_weighted acc) (sum_vectors l (slot_weighted st)))
    (BarnesHutTree.agg_children acc ++ map (slot_update st) l).
Proof.
  revert acc. induction l as [| slot l IH]; intros acc.
  - destruct acc as [m w c]. simpl. rewrite Rplus_0_r, add_zero_r, app_nil_r. reflexivity.
  - cbn [fold_left]. rewrite IH. cbn [sum_over sum_vectors fold_right map].
    fold (sum_over l (slot_mass st)). fold (sum_vectors l (slot_weighted st)).
    destruct slot as [c |]; cbn [aggregate_step slot_mass slot_weighted slot_update].
    + destruct (BHNode.isEmpty c) eqn:He.
      * cbn [BarnesHutTree.agg_mass BarnesHutTree.agg_weighted BarnesHutTree.agg_children].
        rewrite updateCenterOfMass_empty by exact He.
        rewrite add_zero_l, Rplus_0_l, <- app_assoc. reflexivity.
      * cbn [BarnesHutTree.agg_mass BarnesHutTree.agg_weighted BarnesHutTree.agg_children].
        rewrite add_assoc, Rplus_assoc, <- app_assoc. reflexivity.
    + cbn [BarnesHutTree.agg_mass BarnesHutTree.agg_weighted BarnesHutTree.agg_children].
      rewrite add_zero_l, Rplus_0_l, <- app_assoc. reflexivity.
Qed.

Lemma aggregated_unfold (st : Store) (node : BHNode.t) :
  aggregated st node <->
  (BHNode.isEmpty node = false -> node_aggregate st node) /\
  (forall i c, nth i (BHNode.children node) None = Some c -> aggregated st c).
Proof.
  destruct node as [com tm b ch bd ie]. cbn [aggregated BHNode.isEmpty BHNode.children].
  rewrite all_slots_from_nth. tauto.
Qed.

Lemma well_formed_leaf_bodies (st : Store) (n : BHNode.t) (r : BodyRef) :
  well_formed st n -> BHNode.isEmpty n = false -> BHNode.body n = Some r ->
  bodies_of n = [r].
Proof.
  destruct n as [com tm b ch bd ie]. cbn [BHNode.isEmpty BHNode.body].
  intros Hwf -> ->. destruct Hwf as [-> _].
  rewrite bodies_of_unfold, flat_map_repeat_None. reflexivity.
Qed.

(** The product form of [node_aggregate], used in the sums. *)
Lemma node_aggregate_weighted (st : Store) (n : BHNode.t) :
  well_formed st n -> BHNode.isEmpty n = false ->
  (forall r, In r (bodies_of n) -> 0 < CelestialBody.mass (st r)) ->
  node_aggregate st n ->
  BHNode.totalMass n = mass_of st (bodies_of n) /\
  Vector3.multiplyScalar (BHNode.centerOfMass n) (BHNode.totalMass n)
  = weighted_positions st (bodies_of n).
Proof.
  intros Hwf He Hpos Hagg. unfold node_aggregate in Hagg.
  destruct (BHNode.body n) as [r |] eqn:Hb.
  - rewrite (well_formed_leaf_bodies st n r Hwf He Hb).
    destruct Hagg as [-> ->]. unfold mass_of, weighted_positions. simpl.
    split; [ring | rewrite add_zero_r; reflexivity].
  - destruct Hagg as [Hm Hc]. split; [exact Hm |].
    rewrite Hc, Hm.
    assert (Hpos' : 0 < mass_of st (bodies_of n)).
    { apply sum_over_positive; [| exact Hpos].
      destruct (well_formed_nonempty_bodies st n Hwf He) as [r Hr].
      intros Hnil. rewrite Hnil in Hr. destruct Hr. }
    apply vector_eq; simpl; field; lra.
Qed.

Lemma slots_updated (st : Store) (ch : list (option BHNode.t)) :
  Forall (slot_all (update_ok st)) ch ->
  (forall c, In (Some c) ch -> well_formed st c) ->
  (forall r, In r (flat_map slot_bodies ch) -> 0 < CelestialBody.mass (st r)) ->
  flat_map slot_bodies (map (slot_update st) ch) = flat_map slot_bodies ch /\
  sum_over ch (slot_mass st) = mass_of st (flat_map slot_bodies ch) /\
  sum_vectors ch (slot_weighted st) = weighted_positions st (flat_map slot_bodies ch).
Proof.
  induction 1 as [| slot ch Hslot _ IH]; intros Hwf Hpos.
  - repeat split.
  - destruct IH as (IHb & IHm & IHw).
    { intros c Hc. apply Hwf. right. exact Hc. }
    { intros r Hr. apply Hpos. simpl. apply in_or_app. right. exact Hr. }
    cbn [map flat_map sum_over sum_vectors fold_right].
    fold (sum_over ch (slot_mass st)). fold (sum_vectors ch (slot_weighted st)).
    unfold mass_of, weighted_positions in *.
    rewrite sum_over_app, sum_vectors_app, IHb, IHm, IHw.
    destruct slot as [c |]; cbn [slot_update slot_bodies slot_mass slot_weighted].
    + assert (Hwfc : well_formed st c) by (apply Hwf; left; reflexivity).
      assert (Hposc : forall r, In r (bodies_of c) -> 0 < CelestialBody.mass (st r)).
      { intros r Hr. apply Hpos. simpl. apply in_or_app. left. exact Hr. }
      destruct (Hslot Hwfc Hposc) as (_ & He' & _ & Hb' & Hwf' & Hagg').
      rewrite Hb'. split; [reflexivity |].
      destruct (BHNode.isEmpty c) eqn:He.
      * rewrite (well_formed_empty_bodies st c Hwfc He). simpl. split; reflexivity.
      * rewrite <- Hb' in Hposc.
        apply aggregated_unfold in Hagg'. destruct Hagg' as [Hnode _].
        rewrite ?He in He'.
        destruct (node_aggregate_weighted st _ Hwf' He' Hposc (Hnode He')) as [Hm Hw].
        rewrite Hw, Hm. unfold mass_of, weighted_positions. rewrite Hb'.
        split; reflexivity.
    + simpl. split; [reflexivity | split; reflexivity].
Qed.

Lemma nth_map_slot_update (st : Store) (ch : list (option BHNode.t)) (i : nat)
  (c' : BHNode.t) :
  nth i (map (slot_update st) ch) None = Some c' ->
  exists c, nth i ch None = Some c /\ c' = BarnesHutTree.updateCenterOfMass st c.
Proof.
  revert i. induction ch as [| slot ch IH]; intros [| i] H; simpl in H; try discriminate.
  - destruct slot as [c |]; [| discriminate]. injection H as <-.
    exists c. split; reflexivity.
  - apply IH. exact H.
Qed.

Lemma updateCenterOfMass_ok (st : Store) (node : BHNode.t) : update_ok st node.
Proof.
  induction node as [com tm b ch bd ie IH] using BHNode_induction.
  intros Hwf Hpos. cbv zeta.
  destruct ie.
  { (* empty *)
    rewrite updateCenterOfMass_empty by reflexivity.
    split; [reflexivity | split; [reflexivity | split; [reflexivity |]]].
    split; [reflexivity | split; [exact Hwf |]].
    apply aggregated_unfold. split; [intros H; discriminate |].
    intros i c Hi. destruct Hwf as [_ ->]. cbn [BHNode.children] in Hi.
    rewrite (nth_repeat_None i 8) in Hi. discriminate. }
  destruct b as [r |].
  { (* leaf *)
    cbn [BarnesHutTree.updateCenterOfMass].
    destruct Hwf as [-> Hin].
    split; [reflexivity | split; [reflexivity | split; [reflexivity |]]].
    split; [reflexivity |].
    split; [split; [reflexivity | exact Hin] |].
    apply aggregated_unfold. split.
    - intros _. split; reflexivity.
    - intros i c Hi. cbn [BHNode.children] in Hi.
      rewrite (nth_repeat_None i 8) in Hi. discriminate. }
  (* internal *)
  pose proof Hwf as Hwf0.
  apply well_formed_internal in Hwf. destruct Hwf as [[Hlen Hslots] [r0 Hr0]].
  cbn [BHNode.children] in Hlen, Hslots.
  rewrite bodies_of_unfold in Hpos. cbn [app] in Hpos.
  assert (Hwfc : forall c, In (Some c) ch -> well_formed st c).
  { intros c Hc. destruct (In_nth ch (Some c) None Hc) as (i & _ & Hi).
    apply (Hslots i c Hi). }
  destruct (slots_updated st ch IH Hwfc Hpos) as (Hbodies & Hmass & Hweighted).
  assert (Hpositive : 0 < mass_of st (flat_map slot_bodies ch)).
  { apply sum_over_positive; [| exact Hpos].
    intros Hnil. rewrite Hnil in Hr0. destruct Hr0. }
  rewrite updateCenterOfMass_internal. cbv zeta.
  rewrite aggregate_fold.
  cbn [BarnesHutTree.agg_mass BarnesHutTree.agg_weighted BarnesHutTree.agg_children app].
  rewrite Rplus_0_l, add_zero_l, Hmass, Hweighted.
  rewrite Rgtb_true by exact Hpositive.
  set (node' := BHNode.mk _ _ None (map (slot_update st) ch) bd false).
  assert (Hb' : bodies_of node' = flat_map slot_bodies ch).
  { unfold node'. rewrite bodies_of_unfold. exact Hbodies. }
  assert (Hchild : forall i c', nth i (map (slot_update st) ch) None = Some c' ->
            exists c, nth i ch None = Some c /\ In (Some c) ch /\
                      c' = BarnesHutTree.updateCenterOfMass st c /\
                      (forall r, In r (bodies_of c) -> 0 < CelestialBody.mass (st r))).
  { intros i c' Hi. destruct (nth_map_slot_update st ch i c' Hi) as (c & Hc & ->).
    assert (HIn : In (Some c) ch).
    { rewrite <- Hc. apply nth_In.
      destruct (Nat.lt_ge_cases i (length ch)) as [Hlt | Hge]; [exact Hlt |].
      rewrite nth_overflow in Hc by exact Hge. discriminate. }
    exists c. repeat split; try assumption.
    intros r Hr. apply Hpos. apply in_flat_map. exists (Some c). split; assumption. }
  rewrite Forall_forall in IH.
  split; [reflexivity | split; [reflexivity | split; [reflexivity |]]].
  split; [rewrite Hb', bodies_of_unfold; reflexivity |].
  split.
  - apply (well_formed_internal st _ _ (map (slot_update st) ch) bd). split.
    + split; [cbn [BHNode.children]; rewrite length_map; exact Hlen |].
      intros i c' Hi. cbn [BHNode.children] in Hi.
      destruct (Hchild i c' Hi) as (c & Hc & HIn & -> & Hposc).
      destruct (Hslots i c Hc) as [Hwf1 Hb1].
      destruct (IH (Some c) HIn Hwf1 Hposc) as (Hbd & _ & _ & _ & Hwf2 & _).
      split; [exact Hwf2 |]. rewrite Hbd, Hb1. reflexivity.
    + exists r0. rewrite Hbodies. exact Hr0.
  - apply aggregated_unfold. split.
    + intros _. unfold node_aggregate. cbn [BHNode.body node' BHNode.totalMass
                                            BHNode.centerOfMass].
      fold node'. rewrite Hb'. split; reflexivity.
    + intros i c' Hi. cbn [BHNode.children node'] in Hi.
      destruct (Hchild i c' Hi) as (c & Hc & HIn & -> & Hposc).
      destruct (Hslots i c Hc) as [Hwf1 _].
      apply (IH (Some c) HIn Hwf1 Hposc).
Qed.

Lemma well_formed_child (st : Store) (parent c : BHNode.t) :
  well_formed st parent -> In (Some c) (BHNode.children parent) -> well_formed st c.
Proof.
  destruct parent as [com tm b ch bd ie]. cbn [BHNode.children]. intros Hwf Hc.
  assert (Hno : ch = repeat None 8 -> False).
  { intros ->. apply repeat_spec in Hc. discriminate. }
  destruct ie; [destruct Hwf as [_ H]; destruct (Hno H) |].
  destruct b as [r |]; [destruct Hwf as [H _]; destruct (Hno H) |].
  apply well_formed_internal in Hwf. destruct Hwf as [[_ Hslots] _].
  destruct (In_nth ch (Some c) None Hc) as (i & _ & Hi).
  apply (Hslots i c Hi).
Qed.

Lemma aggregated_child (st : Store) (parent c : BHNode.t) :
  aggregated st parent -> In (Some c) (BHNode.children parent) -> aggregated st c.
Proof.
  intros Hagg Hc. apply aggregated_unfold in Hagg. destruct Hagg as [_ Hslots].
  destruct (In_nth _ (Some c) None Hc) as (i & _ & Hi).
  apply (Hslots i c Hi).
Qed.

Lemma subnode_invariants (st : Store) (n root : BHNode.t) :
  subnode n root -> well_formed st root -> aggregated st root ->
  well_formed st n /\ aggregated st n.
Proof.
  induction 1 as [| c parent Hc _ IH]; intros Hwf Hagg; [split; assumption |].
  apply IH.
  - apply (well_formed_child st parent c Hwf Hc).
  - apply (aggregated_child st parent c Hagg Hc).
Qed.

Lemma buildTree_spec (fuel : nat) (st : Store) (bodies : list BodyRef) (bounds : Bounds)
  (root : BHNode.t) :
  (forall r, In r bodies -> 0 < CelestialBody.mass (st r)) ->
  BarnesHutTree.buildTree fuel st bodies (BHNode.new bounds) = Some root ->
  well_formed st root /\ aggregated st root /\
  BHNode.bounds root = bounds /\
  Permutation (bodies_of root) (filter (in_box st bounds) bodies).
Proof.
  intros Hpos Hbuild. unfold BarnesHutTree.buildTree in Hbuild.
  destruct (BarnesHutTree.insert_all fuel st bodies (BHNode.new bounds)) as [root1 |] eqn:Hall;
    [| discriminate].
  injection Hbuild as <-.
  destruct (insert_all_spec st fuel bodies (BHNode.new bounds) root1) as (Hwf & Hb & Hperm);
    [split; reflexivity | exact Hall |].
  cbn [BHNode.new BHNode.bounds] in Hb, Hperm.
  change (bodies_of (BHNode.mk Vector3.zero 0 None (repeat None 8) bounds true))
    with (@nil BodyRef) in Hperm.
  rewrite app_nil_r in Hperm.
  destruct (updateCenterOfMass_ok st root1 Hwf) as (Hb' & _ & _ & Hbodies & Hwf' & Hagg').
  { intros r Hr. apply Hpos.
    apply (Permutation_in _ Hperm) in Hr. apply filter_In in Hr. apply Hr. }
  split; [exact Hwf' | split; [exact Hagg' | split; [congruence |]]].
  rewrite Hbodies. exact Hperm.
Qed.

(** C4: when the tree is built over bodies of positive mass, at every node
    that is not empty every body held below the node is inside the box of the
    node; a leaf has the mass and the position of its body; an internal node
    has the sum of the masses of the bodies below it and their mass-weighted
    average position.  The tree holds the bodies of the list that are in the
    box of the root. *)
Theorem built_tree_invariant (fuel : nat) (st : Store) (bodies : list BodyRef)
  (bounds : Bounds) (root : BHNode.t) :
  (forall r, In r bodies -> 0 < CelestialBody.mass (st r)) ->
  BarnesHutTree.buildTree fuel st bodies (BHNode.new bounds) = Some root ->
  Permutation (bodies_of root) (filter (in_box st bounds) bodies) /\
  forall n, subnode n root -> BHNode.isEmpty n = false ->
    (forall r, In r (bodies_of n) ->
       within (BHNode.bounds n) (CelestialBody.position (st r))) /\
    match BHNode.body n with
    | Some r =>
      bodies_of n = [r] /\
      BHNode.totalMass n = CelestialBody.mass (st r) /\
      BHNode.centerOfMass n = CelestialBody.position (st r)
    | None =>
      BHNode.totalMass n = mass_of st (bodies_of n) /\
      BHNode.centerOfMass n =
        Vector3.divideScalar (weighted_positions st (bodies_of n)) (BHNode.totalMass n)
    end.
Proof.
  intros Hpos Hbuild.
  destruct (buildTree_spec fuel st bodies bounds root Hpos Hbuild)
    as (Hwf & Hagg & _ & Hperm).
  split; [exact Hperm |].
  intros n Hsub He.
  destruct (subnode_invariants st n root Hsub Hwf Hagg) as [Hwfn Haggn].
  split; [apply well_formed_within; exact Hwfn |].
  apply aggregated_unfold in Haggn. destruct Haggn as [Hnode _].
  specialize (Hnode He). unfold node_aggregate in Hnode.
  destruct (BHNode.body n) as [r |] eqn:Hb.
  - split; [apply (well_formed_leaf_bodies st n r Hwfn He Hb) | exact Hnode].
  - destruct Hnode as [Hm Hc]. split; [exact Hm |]. rewrite Hc, Hm. reflexivity.
Qed.
(** ** A tree of three bodies *)

Lemma insert_leaf (fuel : nat) (st : Store) (body existingBody : BodyRef)
  (node : BHNode.t) :
  within (BHNode.bounds node) (CelestialBody.position (st body)) ->
  BHNode.isEmpty node = false ->
  BHNode.body node = Some existingBody ->
  BarnesHutTree.insert (S fuel) st body node =
  let node1 := BarnesHutTree.clear_body node in
  let existingOctant :=
    BHNode.getOctant node1 (CelestialBody.position (st existingBody)) in
  match BarnesHutTree.insert fuel st existingBody
          (BarnesHutTree.child_or_create node1 existingOctant) with
  | None => None
  | Some c =>
    let node2 := BHNode.set_child node1 existingOctant c in
    let newOctant := BHNode.getOctant node2 (CelestialBody.position (st body)) in
    match BarnesHutTree.insert fuel st body (BarnesHutTree.child_or_create node2 newOctant) with
    | None => None
    | Some c' => Some (BHNode.set_child node2 newOctant c')
    end
  end.
Proof.
  intros Hin Hempty Hbody. cbn [BarnesHutTree.insert].
  rewrite (proj2 (contains_within _ _) Hin). cbn [negb]. rewrite Hempty, Hbody.
  reflexivity.
Qed.

Lemma insert_internal (fuel : nat) (st : Store) (body : BodyRef) (node : BHNode.t) :
  within (BHNode.bounds node) (CelestialBody.position (st body)) ->
  BHNode.isEmpty node = false ->
  BHNode.body node = None ->
  BarnesHutTree.insert (S fuel) st body node =
  let octant := BHNode.getOctant node (CelestialBody.position (st body)) in
  match BarnesHutTree.insert fuel st body (BarnesHutTree.child_or_create node octant) with
  | None => None
  | Some c => Some (BHNode.set_child node octant c)
  end.
Proof.
  intros Hin Hempty Hbody. cbn [BarnesHutTree.insert].
  rewrite (proj2 (contains_within _ _) Hin). cbn [negb]. rewrite Hempty, Hbody.
  reflexivity.
Qed.

Lemma calculateBounds_three :
  BarnesHutTree.calculateBounds store_three three 10 = bounds_three.
Proof.
  unfold BarnesHutTree.calculateBounds, three, bounds_three.
  cbn [fold_left BarnesHutTree.extend store_three body_at CelestialBody.position
       Vector3.x Vector3.y Vector3.z BarnesHutTree.minX BarnesHutTree.minY
       BarnesHutTree.minZ BarnesHutTree.maxX BarnesHutTree.maxY BarnesHutTree.maxZ].
  repeat match goal with
         | |- context [Rmin ?a ?b] =>
           first [ rewrite (Rmin_left a b) by lra | rewrite (Rmin_right a b) by lra ]
         | |- context [Rmax ?a ?b] =>
           first [ rewrite (Rmax_left a b) by lra | rewrite (Rmax_right a b) by lra ]
         end.
  f_equal; f_equal; lra.
Qed.

Ltac eval_cmp :=
  first [ rewrite Rgeb_true by lra | rewrite Rgeb_false by lra
        | rewrite Rleb_true by lra | rewrite Rleb_false by lra ].

Ltac eval_octant :=
  unfold BHNode.getOctant, BHNode.getCenter;
  cbn [root_three_1 root_three_2 left_three root_three_3
       BarnesHutTree.clear_body BHNode.set_child BHNode.bounds BHNode.createChild
       BHNode.getCenter BHNode.new leaf_of BarnesHutTree.store_body octant_box bounds_three min max
       Vector3.x Vector3.y Vector3.z store_three body_at CelestialBody.position
       Nat.testbit Nat.odd Nat.even negb Nat.div2];
  repeat eval_cmp; reflexivity.

Ltac eval_within :=
  unfold within;
  cbn [root_three_1 root_three_2 left_three root_three_3
       BarnesHutTree.clear_body BHNode.set_child BHNode.bounds BHNode.createChild
       BHNode.getCenter
       BHNode.new leaf_of BarnesHutTree.store_body octant_box bounds_three min max
       Vector3.x Vector3.y Vector3.z store_three body_at CelestialBody.position
       Nat.testbit Nat.odd Nat.even negb Nat.div2];
  lra.

Lemma insert_three_1 :
  BarnesHutTree.insert 3 store_three 0%nat (BHNode.new bounds_three) = Some root_three_1.
Proof. apply insert_empty; [eval_within | reflexivity]. Qed.

Lemma insert_three_2 :
  BarnesHutTree.insert 3 store_three 1%nat root_three_1 = Some root_three_2.
Proof.
  rewrite (insert_leaf 2 store_three 1%nat 0%nat root_three_1);
    [| eval_within | reflexivity | reflexivity].
  cbv zeta.
  replace (BHNode.getOctant (BarnesHutTree.clear_body root_three_1)
             (CelestialBody.position (store_three 0%nat))) with 6%nat
    by (symmetry; eval_octant).
  change (BarnesHutTree.child_or_create (BarnesHutTree.clear_body root_three_1) 6)
    with (BHNode.new (octant_box bounds_three 6)).
  rewrite insert_empty; [| eval_within | reflexivity].
  replace (BHNode.getOctant _ (CelestialBody.position (store_three 1%nat))) with 7%nat
    by (symmetry; eval_octant).
  match goal with
  | |- context [BarnesHutTree.child_or_create ?n 7] =>
    change (BarnesHutTree.child_or_create n 7) with (BHNode.new (octant_box bounds_three 7))
  end.
  rewrite insert_empty; [| eval_within | reflexivity].
  reflexivity.
Qed.

Lemma insert_three_left :
  BarnesHutTree.insert 2 store_three 2%nat
    (leaf_of store_three 0%nat (octant_box bounds_three 6)) = Some left_three.
Proof.
  rewrite (insert_leaf 1 store_three 2%nat 0%nat);
    [| eval_within | reflexivity | reflexivity].
  cbv zeta.
  replace (BHNode.getOctant _ (CelestialBody.position (store_three 0%nat))) with 1%nat
    by (symmetry; eval_octant).
  match goal with
  | |- context [BarnesHutTree.child_or_create ?n 1] =>
    change (BarnesHutTree.child_or_create n 1)
      with (BHNode.new (octant_box (octant_box bounds_three 6) 1))
  end.
  rewrite insert_empty; [| eval_within | reflexivity].
  replace (BHNode.getOctant _ (CelestialBody.position (store_three 2%nat))) with 0%nat
    by (symmetry; eval_octant).
  match goal with
  | |- context [BarnesHutTree.child_or_create ?n 0] =>
    change (BarnesHutTree.child_or_create n 0)
      with (BHNode.new (octant_box (octant_box bounds_three 6) 0))
  end.
  rewrite insert_empty; [| eval_within | reflexivity].
  reflexivity.
Qed.

Lemma insert_three_3 :
  BarnesHutTree.insert 3 store_three 2%nat root_three_2 = Some root_three_3.
Proof.
  rewrite (insert_internal 2 store_three 2%nat root_three_2);
    [| eval_within | reflexivity | reflexivity].
  cbv zeta.
  replace (BHNode.getOctant _ (CelestialBody.position (store_three 2%nat))) with 6%nat
    by (symmetry; eval_octant).
  change (BarnesHutTree.child_or_create root_three_2 6)
    with (leaf_of store_three 0%nat (octant_box bounds_three 6)).
  rewrite insert_three_left. reflexivity.
Qed.

Lemma insert_all_three :
  BarnesHutTree.insert_all 3 store_three three (BHNode.new bounds_three) = Some root_three_3.
Proof.
  unfold three. cbn [BarnesHutTree.insert_all].
  rewrite insert_three_1, insert_three_2, insert_three_3. reflexivity.
Qed.

(** ** The tree against the direct sum *)

Lemma sum_vectors_perm {A : Type} (l l' : list A) (f : A -> Vector3.t) :
  Permutation l l' -> sum_vectors l f = sum_vectors l' f.
Proof.
  induction 1 as [| a l l' _ IH | a b l | l l' l'' _ IH1 _ IH2]; simpl.
  - reflexivity.
  - rewrite IH. reflexivity.
  - rewrite <- !add_assoc. rewrite (add_comm (f b) (f a)). reflexivity.
  - rewrite IH1. exact IH2.
Qed.

Lemma others_perm (body : BodyRef) (l l' : list BodyRef) :
  Permutation l l' -> Permutation (others body l) (others body l').
Proof.
  unfold others. induction 1 as [| a l l' _ IH | a b l | l l' l'' _ IH1 _ IH2]; simpl.
  - constructor.
  - destruct (negb (Nat.eqb a body)); [constructor |]; exact IH.
  - destruct (negb (Nat.eqb a body)), (negb (Nat.eqb b body));
      try reflexivity. constructor.
  - rewrite IH1. exact IH2.
Qed.

Lemma length_far (v : Vector3.t) : 0.001 <= Vector3.lengthSq v -> 0.001 <= Vector3.length v.
Proof.
  intros H. pose proof (length_nonneg v) as Hn. pose proof (length_sq v) as Hs.
  destruct (Rle_dec 0.001 (Vector3.length v)) as [Hle | Hgt]; [exact Hle |].
  exfalso. assert (Hlt : Vector3.length v < 0.001) by lra. nra.
Qed.

(** The direct evaluator, when no other body is within the jitter
    threshold: the sum of the pairwise forces, and no draw. *)
Lemma calculateTotalForce_far (this : PhysicsEngine.t) (st : Store) (body : BodyRef)
  (g : Rng) :
  (forall r, In r (PhysicsEngine.bodies this) -> r <> body ->
     0.001 <= Vector3.lengthSq
                (Vector3.subVectors (CelestialBody.position (st r))
                   (CelestialBody.position (st body)))) ->
  PhysicsEngine.calculateTotalForce this st body g =
  (sum_vectors (others body (PhysicsEngine.bodies this))
     (pair_force (PhysicsEngine.G this) st body), g).
Proof.
  unfold PhysicsEngine.calculateTotalForce.
  rewrite <- (add_zero_l (sum_vectors _ _)).
  generalize Vector3.zero.
  induction (PhysicsEngine.bodies this) as [| r l IH]; intros acc Hfar.
  - simpl. rewrite add_zero_r. reflexivity.
  - cbn [fold_left others filter].
    destruct (Nat.eqb r body) eqn:Hr; cbn [negb].
    + apply IH. intros r' Hr'. apply Hfar. right. exact Hr'.
    + apply Nat.eqb_neq in Hr.
      rewrite gravity_far by (apply Hfar; [left; reflexivity | exact Hr]).
      rewrite IH by (intros r' Hr'; apply Hfar; right; exact Hr').
      cbn [sum_vectors fold_right]. fold (others body l).
      fold (sum_vectors (others body l) (pair_force (PhysicsEngine.G this) st body)).
      rewrite add_assoc. f_equal. f_equal. f_equal.
      unfold pair_force, point_mass_force. rewrite length_sq.
      f_equal. f_equal. ring.
Qed.

Lemma getSize_nonneg (node : BHNode.t) (p : Vector3.t) :
  within (BHNode.bounds node) p -> 0 <= BHNode.getSize node.
Proof.
  unfold within, BHNode.getSize, Rmax3. intros H.
  match goal with
  | |- 0 <= Rmax ?a ?b => pose proof (Rmax_r a b)
  end.
  lra.
Qed.

Lemma fold_slots_sum (step : Vector3.t -> option BHNode.t -> Vector3.t)
  (body : BodyRef) (f : BodyRef -> Vector3.t) (l : list (option BHNode.t)) :
  Forall (fun slot => forall force,
            step force slot
            = Vector3.add force (sum_vectors (others body (slot_bodies slot)) f)) l ->
  forall force,
    fold_left step l force
    = Vector3.add force (sum_vectors (others body (flat_map slot_bodies l)) f).
Proof.
  induction 1 as [| slot l Hslot _ IH]; intros force.
  - simpl. rewrite add_zero_r. reflexivity.
  - cbn [fold_left flat_map]. rewrite IH, Hslot. unfold others.
    rewrite filter_app, sum_vectors_app, add_assoc. reflexivity.
Qed.

(** With theta = 0 every internal node is opened, and the traversal adds one
    pairwise force for every body below the node other than the query body,
    as long as no node is cut short by the 0.001 test. *)
Lemma traversal_sum (st : Store) (body : BodyRef) (G : R) (node : BHNode.t) :
  well_formed st node -> aggregated st node ->
  (forall r, In r (bodies_of node) -> r <> body ->
     0.001 <= Vector3.lengthSq
                (Vector3.subVectors (CelestialBody.position (st r))
                   (CelestialBody.position (st body)))) ->
  (forall n, subnode n node -> BHNode.isEmpty n = false -> BHNode.body n = None ->
     0.001 <= Vector3.length
                (Vector3.subVectors (BHNode.centerOfMass n)
                   (CelestialBody.position (st body)))) ->
  forall force,
    BarnesHutTree.calculateForceRecursive st 0 body node G force
    = Vector3.add force (sum_vectors (others body (bodies_of node)) (pair_force G st body)).
Proof.
  induction node as [com tm b ch bd ie IH] using BHNode_induction.
  intros Hwf Hagg Hfar Hnear force.
  destruct ie.
  { rewrite (well_formed_empty_bodies st _ Hwf eq_refl). simpl.
    rewrite add_zero_r. reflexivity. }
  destruct b as [r |].
  - (* a leaf *)
    rewrite (well_formed_leaf_bodies st _ r Hwf eq_refl eq_refl) in *.
    apply aggregated_unfold in Hagg. destruct Hagg as [Hnode _].
    destruct (Hnode eq_refl) as [Htm Hcom].
    cbn [BHNode.totalMass BHNode.centerOfMass] in Htm, Hcom. subst tm com.
    cbn [BarnesHutTree.calculateForceRecursive].
    unfold BarnesHutTree.body_is, BarnesHutTree.has_body, others.
    cbn [BHNode.body filter].
    destruct (Nat.eqb r body) eqn:Hr; cbn [negb].
    + simpl. rewrite add_zero_r. reflexivity.
    + apply Nat.eqb_neq in Hr.
      rewrite Rltb_false
        by (apply length_far; apply Hfar; [left; reflexivity | exact Hr]).
      rewrite orb_true_r. cbn [sum_vectors fold_right]. rewrite add_zero_r.
      reflexivity.
  - (* an internal node *)
    pose proof (Hnear _ (subnode_here _) eq_refl eq_refl) as Hd.
    cbn [BHNode.centerOfMass] in Hd.
    destruct (well_formed_nonempty_bodies st _ Hwf eq_refl) as [r0 Hr0].
    pose proof (getSize_nonneg _ _ (well_formed_within st _ Hwf r0 Hr0)) as Hs.
    cbn [BarnesHutTree.calculateForceRecursive].
    unfold BarnesHutTree.body_is, BarnesHutTree.has_body. cbn [BHNode.body].
    rewrite Rltb_false by exact Hd.
    rewrite Rltb_false.
    2:{ apply Rmult_le_pos; [exact Hs |].
        apply Rlt_le, Rinv_0_lt_compat. lra. }
    cbn [orb]. rewrite bodies_of_unfold. cbn [app].
    apply fold_slots_sum.
    rewrite Forall_forall in IH |- *. intros slot Hslot force'.
    destruct slot as [c |]; [| simpl; rewrite add_zero_r; reflexivity].
    assert (Hwfc : well_formed st c) by (apply (well_formed_child st _ c Hwf); exact Hslot).
    destruct (BHNode.isEmpty c) eqn:He.
    + cbn [slot_bodies]. rewrite (well_formed_empty_bodies st c Hwfc He). simpl.
      rewrite add_zero_r. reflexivity.
    + apply (IH (Some c) Hslot Hwfc).
      * apply (aggregated_child st _ c Hagg). exact Hslot.
      * intros r Hr. apply Hfar. rewrite bodies_of_unfold. cbn [app].
        apply in_flat_map. exists (Some c). split; assumption.
      * intros n Hn. apply Hnear. apply (subnode_below n c); assumption.
Qed.

(** Where the tree and the direct evaluator agree.  On the tree built over
    the registry, with the box of [calculateBounds] and theta = 0, the force
    the tree gives for a body is the force of the direct evaluator (and the
    direct evaluator draws no random number) when the masses are positive,
    every other body is at a squared distance of at least 0.001, and the
    traversal never meets, at an internal node, the guard [distance < 0.001]
    of [calculateForceRecursive]. *)
Theorem tree_matches_direct_at_theta_zero
  (fuel : nat) (this : PhysicsEngine.t) (st : Store) (padding : R)
  (tree : BarnesHutTree.t) (body : BodyRef) (g : Rng) :
  0 <= padding ->
  (forall r, In r (PhysicsEngine.bodies this) -> 0 < CelestialBody.mass (st r)) ->
  BarnesHutTree.new fuel st (PhysicsEngine.bodies this)
    (BarnesHutTree.calculateBounds st (PhysicsEngine.bodies this) padding) 0 = Some tree ->
  (forall r, In r (PhysicsEngine.bodies this) -> r <> body ->
     0.001 <= Vector3.lengthSq
                (Vector3.subVectors (CelestialBody.position (st r))
                   (CelestialBody.position (st body)))) ->
  (forall n, subnode n (BarnesHutTree.root tree) ->
     BHNode.isEmpty n = false -> BHNode.body n = None ->
     0.001 <= Vector3.length
                (Vector3.subVectors (BHNode.centerOfMass n)
                   (CelestialBody.position (st body)))) ->
  PhysicsEngine.calculateTotalForce this st body g
  = (BarnesHutTree.calculateForce tree st body (PhysicsEngine.G this), g).
Proof.
  intros Hpad Hpos Hnew Hfar Hnear.
  unfold BarnesHutTree.new in Hnew.
  destruct (BarnesHutTree.buildTree fuel st _ _) as [root |] eqn:Hbuild; [| discriminate].
  injection Hnew as <-.
  destruct (buildTree_spec fuel st _ _ root Hpos Hbuild) as (Hwf & Hagg & _ & Hperm).
  assert (Hall : filter (in_box st (BarnesHutTree.calculateBounds st
                                      (PhysicsEngine.bodies this) padding))
                   (PhysicsEngine.bodies this) = PhysicsEngine.bodies this).
  { apply forallb_filter_id. apply forallb_forall. intros r Hr.
    unfold in_box. apply contains_within. cbn [BHNode.new BHNode.bounds].
    apply calculateBounds_within; assumption. }
  rewrite Hall in Hperm.
  rewrite calculateTotalForce_far by exact Hfar.
  unfold BarnesHutTree.calculateForce. cbn [BarnesHutTree.root BarnesHutTree.theta] in *.
  rewrite (traversal_sum st body (PhysicsEngine.G this) root Hwf Hagg); [| | exact Hnear].
  - rewrite add_zero_l.
    rewrite (sum_vectors_perm _ _ _ (others_perm body _ _ Hperm)). reflexivity.
  - intros r Hr. apply Hfar. apply (Permutation_in _ Hperm). exact Hr.
Qed.

Lemma masses_three (r : BodyRef) : 0 < CelestialBody.mass (store_three r).
Proof. destruct r as [| [| r]]; simpl; lra. Qed.

Lemma tree_three_built :
  BarnesHutTree.new 3 store_three three
    (BarnesHutTree.calculateBounds store_three three 10) 0 = Some tree_three.
Proof.
  rewrite calculateBounds_three.
  unfold BarnesHutTree.new, BarnesHutTree.buildTree.
  rewrite insert_all_three. reflexivity.
Qed.

Lemma tree_three_centre :
  BHNode.centerOfMass (BarnesHutTree.root tree_three) = Vector3.mk 0 0 0.
Proof.
  destruct (buildTree_spec 3 store_three three bounds_three (BarnesHutTree.root tree_three))
    as (Hwf & Hagg & _ & _).
  { intros r _. apply masses_three. }
  { unfold BarnesHutTree.buildTree. rewrite insert_all_three. reflexivity. }
  destruct (insert_all_spec store_three 3 three (BHNode.new bounds_three) root_three_3)
    as (Hwf3 & _ & _); [split; reflexivity | exact insert_all_three |].
  destruct (updateCenterOfMass_ok store_three root_three_3 Hwf3)
    as (_ & He & Hb & Hbodies & _ & _).
  { intros r _. apply masses_three. }
  apply aggregated_unfold in Hagg. destruct Hagg as [Hnode _].
  cbn [tree_three BarnesHutTree.root] in *.
  specialize (Hnode He). unfold node_aggregate in Hnode.
  rewrite Hb, Hbodies in Hnode. cbn [root_three_3 BHNode.body] in Hnode.
  destruct Hnode as [_ ->].
  change (bodies_of root_three_3) with [2%nat; 0%nat; 1%nat].
  apply vector_eq; simpl; field.
Qed.

Lemma distinct_three : distinct_positions store_three three.
Proof.
  unfold distinct_positions, three.
  repeat constructor; intros H; apply (f_equal Vector3.x) in H; simpl in H; lra.
Qed.

(** C2 (failing input): the three bodies of [store_three] are at pairwise
    distinct positions, 10 units apart or more, and their centre of mass is the
    position of body 0.  The root of the tree is an internal node whose centre
    of mass is at distance 0 of body 0: the guard [distance < 0.001] of
    [calculateForceRecursive], written against a division by zero, returns the
    zero vector there, before the opening test, and the two bodies below the
    root are never visited.  With theta = 0 the tree gives the zero vector for
    body 0, where the direct evaluator gives (1/400 - 2/100, 0, 0). *)
Theorem tree_differs_from_direct_at_centre :
  distinct_positions store_three three
  /\ (forall r, In r three -> r <> 0%nat ->
        100 <= Vector3.lengthSq
                 (Vector3.subVectors (CelestialBody.position (store_three r))
                    (CelestialBody.position (store_three 0%nat))))
  /\ BarnesHutTree.new 3 store_three three
    (BarnesHutTree.calculateBounds store_three three 10) 0 = Some tree_three
  /\ BarnesHutTree.calculateForce tree_three store_three 0%nat 1 = Vector3.zero
  /\ fst (PhysicsEngine.calculateTotalForce (PhysicsEngine.mk 1 three true 0)
            store_three 0%nat rng_zero) = Vector3.mk (-0.0175) 0 0
  /\ BarnesHutTree.calculateForce tree_three store_three 0%nat 1
     <> fst (PhysicsEngine.calculateTotalForce (PhysicsEngine.mk 1 three true 0)
               store_three 0%nat rng_zero).
Proof.
  assert (Htree :
    BarnesHutTree.calculateForce tree_three store_three 0%nat 1 = Vector3.zero).
  { unfold BarnesHutTree.calculateForce. apply force_near_node.
    rewrite tree_three_centre.
    replace (Vector3.subVectors _ _) with Vector3.zero
      by (apply vector_eq; simpl; ring).
    rewrite length_zero. lra. }
  assert (Hdirect :
    fst (PhysicsEngine.calculateTotalForce (PhysicsEngine.mk 1 three true 0)
           store_three 0%nat rng_zero) = Vector3.mk (-0.0175) 0 0).
  { unfold PhysicsEngine.calculateTotalForce, three.
    cbn [PhysicsEngine.bodies fold_left Nat.eqb].
    rewrite gravity_far by (unfold Vector3.lengthSq; simpl; lra).
    rewrite gravity_far by (unfold Vector3.lengthSq; simpl; lra).
    cbn [fst store_three body_at CelestialBody.position CelestialBody.mass
         PhysicsEngine.G].
    replace (Vector3.subVectors (Vector3.mk 20 0 0) (Vector3.mk 0 0 0))
      with (Vector3.mk 20 0 0) by (apply vector_eq; simpl; ring).
    replace (Vector3.subVectors (Vector3.mk (-10) 0 0) (Vector3.mk 0 0 0))
      with (Vector3.mk (- (10)) 0 0) by (apply vector_eq; simpl; ring).
    unfold Vector3.normalize, Vector3.divideScalar.
    rewrite length_axis_x by lra.
    replace (Vector3.length (Vector3.mk (- (10)) 0 0)) with 10.
    2:{ unfold Vector3.length, Vector3.lengthSq. simpl.
        replace (- (10) * - (10) + 0 * 0 + 0 * 0) with (10 * 10) by ring.
        rewrite sqrt_square; lra. }
    rewrite !orOne_id by lra.
    unfold Vector3.lengthSq. cbn [Vector3.x Vector3.y Vector3.z].
    rewrite !Rmax_left' by lra.
    replace (20 * 20 + 0 * 0 + 0 * 0) with 400 by ring.
    replace (- (10) * - (10) + 0 * 0 + 0 * 0) with 100 by ring.
    apply vector_eq; simpl; lra. }
  split; [exact distinct_three |]. split.
  { intros r Hr Hne. unfold Vector3.lengthSq.
    destruct Hr as [<- | [<- | [<- | []]]]; [contradiction | |]; simpl; lra. }
  split; [exact tree_three_built | split; [exact Htree | split; [exact Hdirect |]]].
  rewrite Htree, Hdirect. intros H. apply (f_equal Vector3.x) in H. simpl in H. lra.
Qed.

Lemma built_tree_invariant_witness :
  Permutation (bodies_of (BarnesHutTree.root tree_three))
    (filter (in_box store_three bounds_three) three) /\
  forall n, subnode n (BarnesHutTree.root tree_three) -> BHNode.isEmpty n = false ->
    (forall r, In r (bodies_of n) ->
       within (BHNode.bounds n) (CelestialBody.position (store_three r))) /\
    match BHNode.body n with
    | Some r =>
      bodies_of n = [r] /\
      BHNode.totalMass n = CelestialBody.mass (store_three r) /\
      BHNode.centerOfMass n = CelestialBody.position (store_three r)
    | None =>
      BHNode.totalMass n = mass_of store_three (bodies_of n) /\
      BHNode.centerOfMass n =
        Vector3.divideScalar (weighted_positions store_three (bodies_of n))
          (BHNode.totalMass n)
    end.
Proof.
  apply (built_tree_invariant 3 store_three three bounds_three
           (BarnesHutTree.root tree_three)).
  - intros r _. destruct r as [| [| r]]; simpl; lra.
  - unfold BarnesHutTree.buildTree. rewrite insert_all_three. reflexivity.
Defined.

Ltac eval_aggregate :=
  rewrite updateCenterOfMass_internal; cbv zeta; rewrite aggregate_fold;
  cbn [map slot_update sum_over sum_vectors fold_right slot_mass slot_weighted
       leaf_of BarnesHutTree.store_body BarnesHutTree.updateCenterOfMass BHNode.new
       BHNode.isEmpty BHNode.totalMass BHNode.centerOfMass
       BarnesHutTree.agg_mass BarnesHutTree.agg_weighted BarnesHutTree.agg_children app
       store_three body_at CelestialBody.mass CelestialBody.position].

Lemma update_left_three :
  BarnesHutTree.updateCenterOfMass store_three left_three = left_three_aggregated.
Proof.
  unfold left_three. eval_aggregate.
  rewrite Rgtb_true by lra.
  unfold left_three_aggregated, leaf_of, BarnesHutTree.store_body. cbn [BHNode.new
    BHNode.children BHNode.bounds store_three body_at CelestialBody.mass
    CelestialBody.position].
  f_equal; [apply vector_eq; simpl; lra | lra].
Qed.

Lemma update_root_three :
  BarnesHutTree.updateCenterOfMass store_three root_three_3 = root_three_aggregated.
Proof.
  unfold root_three_3.
  rewrite updateCenterOfMass_internal. cbv zeta. rewrite aggregate_fold.
  cbn [map slot_update sum_over sum_vectors fold_right slot_mass slot_weighted
       left_three BHNode.isEmpty].
  rewrite update_left_three.
  cbn [leaf_of BarnesHutTree.store_body BarnesHutTree.updateCenterOfMass BHNode.new
       BHNode.isEmpty BHNode.totalMass BHNode.centerOfMass left_three_aggregated
       BarnesHutTree.agg_mass BarnesHutTree.agg_weighted BarnesHutTree.agg_children app
       store_three body_at CelestialBody.mass CelestialBody.position].
  rewrite Rgtb_true by lra.
  unfold root_three_aggregated, leaf_of, BarnesHutTree.store_body. cbn [BHNode.new
    BHNode.children BHNode.bounds store_three body_at CelestialBody.mass
    CelestialBody.position].
  f_equal; [apply vector_eq; simpl; lra | lra].
Qed.

Lemma length_axis (a : R) : Vector3.length (Vector3.mk a 0 0) = Rabs a.
Proof.
  unfold Vector3.length, Vector3.lengthSq. simpl.
  replace (a * a + 0 * 0 + 0 * 0) with (Rsqr a) by (unfold Rsqr; ring).
  apply sqrt_Rsqr_abs.
Qed.

Lemma subnode_leaf_of (st : Store) (r : BodyRef) (bd : Bounds) (n : BHNode.t) :
  subnode n (leaf_of st r bd) -> n = leaf_of st r bd.
Proof.
  intros H. inversion H as [| c parent Hin _]; [reflexivity |].
  exfalso. simpl in Hin.
  repeat (destruct Hin as [Hin | Hin]; [discriminate |]). exact Hin.
Qed.

(** The internal nodes of the tree of the three bodies. *)
Lemma internal_nodes_three (n : BHNode.t) :
  subnode n root_three_aggregated -> BHNode.body n = None ->
  n = root_three_aggregated \/ n = left_three_aggregated.
Proof.
  intros Hsub Hbody.
  inversion Hsub as [| c parent Hin Hsub']; subst; [left; reflexivity |].
  simpl in Hin.
  repeat (destruct Hin as [Hin | Hin]; [try discriminate |]); try contradiction.
  - injection Hin as <-.
    inversion Hsub' as [| c' parent' Hin' Hsub'']; subst; [right; reflexivity |].
    simpl in Hin'.
    repeat (destruct Hin' as [Hin' | Hin']; [try discriminate |]); try contradiction.
    + injection Hin' as <-. apply subnode_leaf_of in Hsub''. subst n. discriminate.
    + injection Hin' as <-. apply subnode_leaf_of in Hsub''. subst n. discriminate.
  - injection Hin as <-. apply subnode_leaf_of in Hsub'. subst n. discriminate.
Qed.

Lemma tree_matches_direct_at_theta_zero_witness :
  PhysicsEngine.calculateTotalForce (PhysicsEngine.mk 1 three true 0) store_three 1%nat
    rng_zero
  = (BarnesHutTree.calculateForce tree_three store_three 1%nat 1, rng_zero).
Proof.
  apply (tree_matches_direct_at_theta_zero 3 (PhysicsEngine.mk 1 three true 0)
           store_three 10 tree_three 1%nat rng_zero).
  - lra.
  - intros r _. destruct r as [| [| r]]; simpl; lra.
  - exact tree_three_built.
  - intros r Hr Hne. unfold Vector3.lengthSq.
    destruct Hr as [<- | [<- | [<- | []]]]; [| contradiction |]; simpl; lra.
  - intros n Hsub _ Hbody. unfold tree_three in Hsub. cbn [BarnesHutTree.root] in Hsub.
    rewrite update_root_three in Hsub.
    destruct (internal_nodes_three n Hsub Hbody) as [-> | ->];
      cbn [root_three_aggregated left_three_aggregated BHNode.centerOfMass
           store_three body_at CelestialBody.position].
    + replace (Vector3.subVectors _ _) with (Vector3.mk (-20) 0 0)
        by (apply vector_eq; simpl; lra).
      rewrite length_axis. unfold Rabs. destruct (Rcase_abs (-20)); lra.
    + replace (Vector3.subVectors _ _) with (Vector3.mk (-80 / 3) 0 0)
        by (apply vector_eq; simpl; lra).
      rewrite length_axis. unfold Rabs. destruct (Rcase_abs (-80 / 3)); lra.
Defined.


(** ** Insertion returns when the positions are distinct *)

Lemma separated_within (delta : R) (node : BHNode.t) (p q : Vector3.t) :
  separated delta p q ->
  within (BHNode.bounds node) p -> within (BHNode.bounds node) q ->
  delta <= BHNode.getSize node.
Proof.
  unfold separated, within, BHNode.getSize, Rmax3. intros Hsep Hp Hq.
  match goal with
  | |- _ <= Rmax (Rmax ?a ?b) ?c =>
    pose proof (Rmax_l (Rmax a b) c); pose proof (Rmax_r (Rmax a b) c);
    pose proof (Rmax_l a b); pose proof (Rmax_r a b)
  end.
  destruct Hsep as [Hs | [Hs | Hs]]; revert Hs; unfold Rabs;
    destruct (Rcase_abs _); intros; lra.
Qed.

Lemma Rmax_half (a b : R) : Rmax (a / 2) (b / 2) = Rmax a b / 2.
Proof. unfold Rmax. destruct (Rle_dec a b), (Rle_dec (a / 2) (b / 2)); lra. Qed.

(** The box of an octant is half the size of the box. *)
Lemma getSize_createChild (node : BHNode.t) (k : nat) :
  BHNode.getSize (BHNode.createChild node k) = BHNode.getSize node / 2.
Proof.
  unfold BHNode.getSize, Rmax3, BHNode.createChild, BHNode.getCenter.
  cbn [BHNode.new BHNode.bounds min max Vector3.x Vector3.y Vector3.z].
  rewrite <- !Rmax_half.
  destruct (Nat.testbit k 0), (Nat.testbit k 1), (Nat.testbit k 2);
    match goal with
    | |- Rmax (Rmax ?a ?b) ?c = Rmax (Rmax ?a' ?b') ?c' =>
      replace a with a' by lra; replace b with b' by lra; replace c with c' by lra;
      reflexivity
    end.
Qed.

Lemma getSize_bounds_only (n1 n2 : BHNode.t) :
  BHNode.bounds n1 = BHNode.bounds n2 -> BHNode.getSize n1 = BHNode.getSize n2.
Proof. intros H. unfold BHNode.getSize. rewrite H. reflexivity. Qed.

(** In a box of size below [delta * 2^d], a body that is [delta] away from
    every body of the tree is inserted within depth [d + 1]. *)
Lemma insert_returns (st : Store) (delta : R) (d : nat) :
  forall (fuel : nat) (body : BodyRef) (node : BHNode.t),
    (d + 1 <= fuel)%nat ->
    well_formed st node ->
    (forall r, In r (bodies_of node) ->
       separated delta (CelestialBody.position (st r)) (CelestialBody.position (st body))) ->
    BHNode.getSize node < delta * 2 ^ d ->
    BarnesHutTree.insert fuel st body node <> None.
Proof.
  induction d as [| d IH]; intros fuel body node Hfuel Hwf Hsep Hsize.
  - (* the box is too small to hold two bodies *)
    destruct fuel as [| fuel]; [lia |].
    destruct (BHNode.contains node (CelestialBody.position (st body))) eqn:Hc.
    2:{ rewrite insert_outside by exact Hc. discriminate. }
    apply contains_within in Hc.
    destruct (BHNode.isEmpty node) eqn:He.
    { rewrite insert_empty by assumption. discriminate. }
    exfalso.
    destruct (well_formed_nonempty_bodies st node Hwf He) as [r Hr].
    pose proof (separated_within delta node _ _ (Hsep r Hr)
                  (well_formed_within st node Hwf r Hr) Hc).
    simpl in Hsize. lra.
  - destruct fuel as [| fuel]; [lia |].
    destruct (BHNode.contains node (CelestialBody.position (st body))) eqn:Hc.
    2:{ rewrite insert_outside by exact Hc. discriminate. }
    apply contains_within in Hc.
    destruct (BHNode.isEmpty node) eqn:He.
    { rewrite insert_empty by assumption. discriminate. }
    assert (Hhalf : forall c k,
              BHNode.bounds c = BHNode.bounds (BHNode.createChild node k) ->
              BHNode.getSize c < delta * 2 ^ d).
    { intros c k Hb.
      rewrite (getSize_bounds_only c (BHNode.createChild node k) Hb).
      rewrite getSize_createChild. simpl in Hsize. lra. }
    destruct (BHNode.body node) as [existingBody |] eqn:Hb.
    + (* a leaf *)
      rewrite (insert_leaf fuel st body existingBody node Hc He Hb). cbv zeta.
      destruct node as [com tm b ch bd ie]. cbn [BHNode.isEmpty BHNode.body] in He, Hb.
      subst ie b. destruct Hwf as [-> Hexisting].
      set (node1 := BarnesHutTree.clear_body _).
      set (k := BHNode.getOctant node1 (CelestialBody.position (st existingBody))).
      assert (Hcreate : BarnesHutTree.child_or_create node1 k = BHNode.createChild node1 k).
      { unfold BarnesHutTree.child_or_create, BHNode.child, node1.
        cbn [BarnesHutTree.clear_body BHNode.children].
        rewrite nth_repeat_None. reflexivity. }
      rewrite Hcreate.
      destruct fuel as [| fuel]; [lia |].
      rewrite insert_empty;
        [| apply (createChild_within node1); exact Hexisting | reflexivity].
      set (leaf := BarnesHutTree.store_body st existingBody (BHNode.createChild node1 k)).
      set (node2 := BHNode.set_child node1 k leaf).
      set (k' := BHNode.getOctant node2 (CelestialBody.position (st body))).
      assert (Hok2 : slots_ok st node2).
      { split.
        { unfold node2, node1.
          cbn [BHNode.set_child BarnesHutTree.clear_body BHNode.children].
          rewrite length_list_set. reflexivity. }
        intros i c Hi.
        unfold node2, node1 in Hi.
        cbn [BHNode.set_child BarnesHutTree.clear_body BHNode.children] in Hi.
        destruct (Nat.eq_dec k i) as [<- | Hne].
        - rewrite nth_list_set in Hi
            by (rewrite repeat_length; apply getOctant_lt_8).
          injection Hi as <-. split; [| reflexivity].
          split; [reflexivity |]. apply (createChild_within node1). exact Hexisting.
        - rewrite nth_list_set_other in Hi by exact Hne.
          rewrite (nth_repeat_None i 8) in Hi. discriminate. }
      destruct (child_or_create_spec st node2 k' Hok2) as (Hwfc & Hbc & Hbodies).
      assert (Hret : BarnesHutTree.insert (S fuel) st body
                       (BarnesHutTree.child_or_create node2 k') <> None).
      { apply IH; [lia | exact Hwfc | | apply (Hhalf _ k'); exact Hbc].
        intros r Hr. rewrite Hbodies in Hr. apply Hsep.
        rewrite bodies_of_unfold, flat_map_repeat_None.
        unfold node2, node1 in Hr.
        cbn [BHNode.set_child BarnesHutTree.clear_body BHNode.children] in Hr.
        destruct (Nat.eq_dec k k') as [<- | Hne].
        - rewrite nth_list_set in Hr
            by (rewrite repeat_length; apply getOctant_lt_8).
          unfold leaf, BarnesHutTree.store_body in Hr. cbn [slot_bodies] in Hr.
          rewrite bodies_of_unfold in Hr.
          cbn [BHNode.createChild BHNode.new BHNode.children] in Hr.
          rewrite flat_map_repeat_None in Hr. exact Hr.
        - rewrite nth_list_set_other in Hr by exact Hne.
          rewrite (nth_repeat_None k' 8) in Hr. destruct Hr. }
      destruct (BarnesHutTree.insert (S fuel) st body _); [discriminate | contradiction].
    + (* an internal node *)
      rewrite (insert_internal fuel st body node Hc He Hb). cbv zeta.
      assert (Hok : slots_ok st node).
      { destruct node as [com tm b ch bd ie]. cbn [BHNode.isEmpty BHNode.body] in He, Hb.
        subst ie b. apply well_formed_internal in Hwf. apply Hwf. }
      set (k := BHNode.getOctant node (CelestialBody.position (st body))).
      destruct (child_or_create_spec st node k Hok) as (Hwfc & Hbc & Hbodies).
      assert (Hret : BarnesHutTree.insert fuel st body
                       (BarnesHutTree.child_or_create node k) <> None).
      { apply IH; [lia | exact Hwfc | | apply (Hhalf _ k); exact Hbc].
        intros r Hr. rewrite Hbodies in Hr. apply Hsep.
        destruct node as [com tm b ch bd ie]. rewrite bodies_of_unfold.
        apply in_or_app. right. apply in_flat_map.
        exists (nth k ch None). split; [| exact Hr].
        apply nth_In. destruct Hok as [Hlen _]. cbn [BHNode.children] in Hlen.
        rewrite Hlen. apply getOctant_lt_8. }
      destruct (BarnesHutTree.insert fuel st body _); [discriminate | contradiction].
Qed.

Lemma separated_sym (delta : R) (p q : Vector3.t) :
  separated delta p q -> separated delta q p.
Proof.
  unfold separated.
  rewrite (Rabs_minus_sym (Vector3.x p)), (Rabs_minus_sym (Vector3.y p)),
          (Rabs_minus_sym (Vector3.z p)).
  trivial.
Qed.

Lemma separated_le (delta delta' : R) (p q : Vector3.t) :
  delta' <= delta -> separated delta p q -> separated delta' p q.
Proof. unfold separated. intros Hle [H | [H | H]]; [left | right; left | right; right]; lra. Qed.

Lemma distinct_separated (p q : Vector3.t) :
  p <> q -> exists delta, 0 < delta /\ separated delta p q.
Proof.
  intros Hne. unfold separated.
  destruct (Req_dec_T (Vector3.x p) (Vector3.x q)) as [Hx | Hx].
  - destruct (Req_dec_T (Vector3.y p) (Vector3.y q)) as [Hy | Hy].
    + destruct (Req_dec_T (Vector3.z p) (Vector3.z q)) as [Hz | Hz].
      * exfalso. apply Hne. apply vector_eq; assumption.
      * exists (Rabs (Vector3.z p - Vector3.z q)). split.
        -- apply Rabs_pos_lt. lra.
        -- right. right. lra.
    + exists (Rabs (Vector3.y p - Vector3.y q)). split.
      * apply Rabs_pos_lt. lra.
      * right. left. lra.
  - exists (Rabs (Vector3.x p - Vector3.x q)). split.
    + apply Rabs_pos_lt. lra.
    + left. lra.
Qed.

Lemma apart_all (st : Store) (a : BodyRef) (l : list BodyRef) :
  Forall (fun b => CelestialBody.position (st a) <> CelestialBody.position (st b)) l ->
  exists delta, 0 < delta /\ Forall (apart st delta a) l.
Proof.
  induction 1 as [| b l Hb _ [delta [Hpos Hall]]].
  - exists 1. split; [lra | constructor].
  - destruct (distinct_separated _ _ Hb) as [delta' [Hpos' Hsep]].
    exists (Rmin delta delta'). split; [apply Rmin_pos; assumption |].
    constructor.
    + apply (separated_le delta'); [apply Rmin_r | exact Hsep].
    + eapply Forall_impl; [| exact Hall].
      intros c Hc. apply (separated_le delta); [apply Rmin_l | exact Hc].
Qed.

Lemma apart_pairs (st : Store) (bodies : list BodyRef) :
  distinct_positions st bodies ->
  exists delta, 0 < delta /\ ForallOrdPairs (apart st delta) bodies.
Proof.
  induction 1 as [| a l Ha _ [delta [Hpos Hall]]].
  - exists 1. split; [lra | constructor].
  - destruct (apart_all st a l Ha) as [delta' [Hpos' Hall']].
    exists (Rmin delta delta'). split; [apply Rmin_pos; assumption |].
    constructor.
    + eapply Forall_impl; [| exact Hall'].
      intros c Hc. apply (separated_le delta'); [apply Rmin_r | exact Hc].
    + clear Ha Hall'. induction Hall as [| b l' Hb _ IH]; constructor.
      * eapply Forall_impl; [| exact Hb].
        intros c Hc. apply (separated_le delta); [apply Rmin_l | exact Hc].
      * exact IH.
Qed.

Lemma pow2_unbounded (x : R) : exists d : nat, x < 2 ^ d.
Proof.
  destruct (Pow_x_infinity 2) with (b := x + 1) as [N HN].
  { rewrite Rabs_right; lra. }
  exists N. specialize (HN N (Nat.le_refl N)).
  rewrite Rabs_right in HN; [lra |].
  apply Rle_ge, pow_le. lra.
Qed.

Lemma insert_all_returns (st : Store) (delta : R) (d fuel : nat) (bodies : list BodyRef) :
  (d + 1 <= fuel)%nat ->
  ForallOrdPairs (apart st delta) bodies ->
  forall root,
    well_formed st root ->
    BHNode.getSize root < delta * 2 ^ d ->
    (forall r b, In r (bodies_of root) -> In b bodies -> apart st delta r b) ->
    BarnesHutTree.insert_all fuel st bodies root <> None.
Proof.
  intros Hfuel. induction 1 as [| body rest Hbody _ IH]; intros root Hwf Hsize Hsep.
  - discriminate.
  - cbn [BarnesHutTree.insert_all].
    destruct (BarnesHutTree.insert fuel st body root) as [root1 |] eqn:Hins.
    2:{ exfalso. revert Hins. apply (insert_returns st delta d); try assumption.
        intros r Hr. apply Hsep; [exact Hr | left; reflexivity]. }
    destruct (insert_ok_all st fuel body root root1 Hwf Hins) as (Hwf1 & Hb1 & Hperm1).
    apply IH; [exact Hwf1 | |].
    + rewrite (getSize_bounds_only root1 root Hb1). exact Hsize.
    + intros r b Hr Hb. apply (Permutation_in _ Hperm1) in Hr.
      apply in_app_or in Hr. destruct Hr as [Hr | Hr].
      * unfold inserted in Hr.
        destruct (BHNode.contains root _); [| destruct Hr].
        destruct Hr as [<- | []]. rewrite Forall_forall in Hbody. apply Hbody. exact Hb.
      * apply Hsep; [exact Hr | right; exact Hb].
Qed.

(** The tree of bodies at pairwise distinct positions is built, with a
    recursion budget that depends on the box and on how close the bodies are. *)
Lemma buildTree_returns (st : Store) (bodies : list BodyRef) (bounds : Bounds) :
  distinct_positions st bodies ->
  exists fuel0 : nat, forall fuel, (fuel0 <= fuel)%nat ->
    BarnesHutTree.buildTree fuel st bodies (BHNode.new bounds) <> None.
Proof.
  intros Hdistinct.
  destruct (apart_pairs st bodies Hdistinct) as [delta [Hpos Hpairs]].
  destruct (pow2_unbounded (BHNode.getSize (BHNode.new bounds) / delta)) as [d Hd].
  exists (d + 1)%nat. intros fuel Hfuel. unfold BarnesHutTree.buildTree.
  destruct (BarnesHutTree.insert_all fuel st bodies (BHNode.new bounds)) eqn:Hall;
    [discriminate |].
  exfalso. revert Hall.
  apply (insert_all_returns st delta d fuel bodies Hfuel Hpairs).
  - split; reflexivity.
  - apply (Rmult_lt_compat_r delta) in Hd; [| exact Hpos].
    unfold Rdiv in Hd. rewrite Rmult_assoc, Rinv_l, Rmult_1_r in Hd by lra. lra.
  - intros r b Hr. destruct Hr.
Qed.

(** A tick over bodies at pairwise distinct positions returns, with enough
    recursion budget. *)
Lemma update_returns_for_distinct_positions
  (this : PhysicsEngine.t) (deltaTime : R) (w : World) :
  distinct_positions (store w) (PhysicsEngine.bodies this) ->
  exists fuel0 : nat, forall fuel, (fuel0 <= fuel)%nat ->
    PhysicsEngine.update fuel this deltaTime w <> None.
Proof.
  intros Hdistinct.
  destruct (buildTree_returns (store w) (PhysicsEngine.bodies this)
              (BarnesHutTree.calculateBounds (store w) (PhysicsEngine.bodies this) 10)
              Hdistinct) as [fuel0 Hfuel0].
  exists fuel0. intros fuel Hfuel. apply update_returns.
  unfold PhysicsEngine.tick_tree, BarnesHutTree.new.
  destruct (_ && _); [| discriminate].
  specialize (Hfuel0 fuel Hfuel).
  destruct (BarnesHutTree.buildTree fuel (store w) _ _); [discriminate | contradiction].
Qed.


(** ** The tick *)

(** C3: [update] is semi-implicit Euler.  A tick returns when the
    construction of its tree does: always when the direct evaluator is in use,
    and with enough recursion budget when the bodies are at pairwise distinct
    positions.  In a registry of distinct bodies, when the tick returns: every
    force was computed on the store of before the tick; a non-static body ends
    with velocity v + (F / m) dt and with position x + v' dt for that new
    velocity v'; every other field, and every static body, is as before. *)
Theorem update_symplectic_euler
  (fuel : nat) (this : PhysicsEngine.t) (deltaTime : R) (w : World) :
  (PhysicsEngine.tick_tree fuel this (store w) <> None ->
   PhysicsEngine.update fuel this deltaTime w <> None)
  /\
  (PhysicsEngine.useBarnesHut this = false \/
   (length (PhysicsEngine.bodies this) <= 2)%nat ->
   PhysicsEngine.update fuel this deltaTime w <> None)
  /\
  (distinct_positions (store w) (PhysicsEngine.bodies this) ->
   exists fuel0 : nat, forall fuel', (fuel0 <= fuel')%nat ->
     PhysicsEngine.update fuel' this deltaTime w <> None)
  /\
  (forall w',
     NoDup (PhysicsEngine.bodies this) ->
     PhysicsEngine.update fuel this deltaTime w = Some w' ->
     exists tree,
       PhysicsEngine.tick_tree fuel this (store w) = Some tree /\
       forall body, In body (PhysicsEngine.bodies this) ->
         exists g,
           let force := fst (tick_force this tree (store w) body g) in
           let b := store w body in
           let b' := store w' body in
           CelestialBody.mass b' = CelestialBody.mass b /\
           CelestialBody.isStatic b' = CelestialBody.isStatic b /\
           (CelestialBody.isStatic b = false ->
              CelestialBody.velocity b' =
                Vector3.add (CelestialBody.velocity b)
                  (Vector3.multiplyScalar
                     (Vector3.divideScalar force (CelestialBody.mass b)) deltaTime)
              /\ CelestialBody.position b' =
                   Vector3.add (CelestialBody.position b)
                     (Vector3.multiplyScalar (CelestialBody.velocity b') deltaTime)) /\
           (CelestialBody.isStatic b = true -> b' = b)).
Proof.
  split; [apply update_returns | split; [| split]].
  { intros [Hdirect | Hsmall]; apply update_returns.
    - rewrite tick_tree_direct by exact Hdirect. discriminate.
    - rewrite tick_tree_small by exact Hsmall. discriminate. }
  { apply update_returns_for_distinct_positions. }
  intros w' Hnd Hup. unfold PhysicsEngine.update in Hup.
  destruct (PhysicsEngine.tick_tree fuel this (store w)) as [tree |] eqn:Htree;
    [| discriminate].
  exists tree. split; [reflexivity |].
  intros body Hin.
  destruct (force_pass_entries this tree (store w) (PhysicsEngine.bodies this)
              (fun _ => None, rng w) body Hin) as [g Hg].
  rewrite <- force_pass_steps in Hg.
  destruct (PhysicsEngine.force_pass this tree (store w) (rng w)) as [forces g1].
  simpl in Hg. injection Hup as <-. exists g. cbv zeta. simpl store.
  destruct (position_pass_at this deltaTime
              (PhysicsEngine.velocity_pass this forces deltaTime (store w)) body Hnd)
    as [Hp _].
  destruct (velocity_pass_at this forces deltaTime (store w) body Hnd) as [Hv _].
  rewrite (Hp Hin), (Hv Hin).
  unfold drift, kick, PhysicsEngine.Map_get. rewrite Hg.
  destruct (CelestialBody.isStatic (store w body)) eqn:Hs; simpl; rewrite ?Hs; simpl.
  - repeat split; try reflexivity; discriminate.
  - repeat split; try reflexivity; discriminate.
Qed.

Lemma NoDup_two : NoDup [0%nat; 1%nat].
Proof.
  constructor; [simpl; intros [H | []]; discriminate |].
  constructor; [intros [] | constructor].
Qed.

Lemma update_symplectic_euler_witness :
  PhysicsEngine.update 0 (engine_G1 [0%nat; 1%nat]) 0.1 world_star_planet <> None
  /\
  (exists fuel0 : nat, forall fuel', (fuel0 <= fuel')%nat ->
     PhysicsEngine.update fuel' (engine_G1 three) 0.1 (mkWorld store_three rng_zero)
     <> None)
  /\
  exists tree,
    PhysicsEngine.tick_tree 0 (engine_G1 [0%nat; 1%nat]) (store world_star_planet)
      = Some tree /\
    forall body, In body [0%nat; 1%nat] ->
      exists g,
        let force :=
          fst (tick_force (engine_G1 [0%nat; 1%nat]) tree (store world_star_planet) body g) in
        let b := store world_star_planet body in
        let b' :=
          store (world_or world_star_planet
                   (PhysicsEngine.update 0 (engine_G1 [0%nat; 1%nat]) 0.1 world_star_planet))
                body in
        CelestialBody.mass b' = CelestialBody.mass b /\
        CelestialBody.isStatic b' = CelestialBody.isStatic b /\
        (CelestialBody.isStatic b = false ->
           CelestialBody.velocity b' =
             Vector3.add (CelestialBody.velocity b)
               (Vector3.multiplyScalar
                  (Vector3.divideScalar force (CelestialBody.mass b)) 0.1)
           /\ CelestialBody.position b' =
                Vector3.add (CelestialBody.position b)
                  (Vector3.multiplyScalar (CelestialBody.velocity b') 0.1)) /\
        (CelestialBody.isStatic b = true -> b' = b).
Proof.
  destruct (update_symplectic_euler 0 (engine_G1 [0%nat; 1%nat]) 0.1 world_star_planet)
    as (_ & Hreturns & _ & Hstep).
  destruct (update_symplectic_euler 0 (engine_G1 three) 0.1 (mkWorld store_three rng_zero))
    as (_ & _ & Hdistinct & _).
  assert (Hsome :
    PhysicsEngine.update 0 (engine_G1 [0%nat; 1%nat]) 0.1 world_star_planet <> None).
  { apply Hreturns. right. simpl. lia. }
  split; [exact Hsome | split].
  { apply Hdistinct. unfold distinct_positions, three. cbn [store engine_G1 PhysicsEngine.bodies].
    repeat constructor; intros H; apply (f_equal Vector3.x) in H; simpl in H; lra. }
  apply Hstep.
  - exact NoDup_two.
  - destruct (PhysicsEngine.update 0 (engine_G1 [0%nat; 1%nat]) 0.1 world_star_planet)
      as [w' |]; [reflexivity | contradiction].
Defined.

(** * Further properties of the engine *)

(** ** The registry (Physics.ts, [addBody] and [removeBody]) *)

Lemma indexOf_absent (l : list BodyRef) (body : BodyRef) :
  ~ In body l -> PhysicsEngine.indexOf l body = None.
Proof.
  induction l as [| r l IH]; intros Hn; [reflexivity |].
  simpl. destruct (Nat.eqb_spec r body) as [-> | Hne].
  - exfalso. apply Hn. now left.
  - rewrite IH; [reflexivity |]. intros Hin. apply Hn. now right.
Qed.

Lemma indexOf_present (l : list BodyRef) (body : BodyRef) :
  In body l ->
  exists l1 l2, l = l1 ++ body :: l2 /\ ~ In body l1 /\
                PhysicsEngine.indexOf l body = Some (length l1).
Proof.
  induction l as [| r l IH]; intros Hin; [destruct Hin |].
  simpl. destruct (Nat.eqb_spec r body) as [-> | Hne].
  - exists [], l. repeat split. intros [].
  - destruct Hin as [Heq | Hin]; [contradiction |].
    destruct (IH Hin) as (l1 & l2 & -> & Hn & Hi).
    exists (r :: l1), l2. rewrite Hi. repeat split.
    intros [Heq | Hin']; [contradiction |]. now apply Hn.
Qed.

Lemma splice_one (l1 l2 : list BodyRef) (body : BodyRef) :
  PhysicsEngine.splice (l1 ++ body :: l2) (length l1) 1 = l1 ++ l2.
Proof.
  unfold PhysicsEngine.splice.
  rewrite firstn_app, Nat.sub_diag, firstn_all. simpl. rewrite app_nil_r.
  rewrite skipn_app.
  replace (length l1 + 1 - length l1)%nat with 1%nat by lia.
  rewrite skipn_all2 by lia. reflexivity.
Qed.

(** X1: [removeBody] takes the first entry that is the body out of the
    registry and keeps the other entries, later entries of the same body
    included, in their order; the settings are kept.  For a body that is not
    registered it changes nothing. *)
Theorem removeBody_first_occurrence (this : PhysicsEngine.t) (body : BodyRef) :
  (~ In body (PhysicsEngine.bodies this) -> PhysicsEngine.removeBody this body = this)
  /\
  (In body (PhysicsEngine.bodies this) ->
   exists l1 l2,
     PhysicsEngine.bodies this = l1 ++ body :: l2 /\ ~ In body l1 /\
     PhysicsEngine.removeBody this body
     = PhysicsEngine.mk (PhysicsEngine.G this) (l1 ++ l2)
         (PhysicsEngine.useBarnesHut this) (PhysicsEngine.barnesHutTheta this)).
Proof.
  split; intros H.
  - unfold PhysicsEngine.removeBody. now rewrite indexOf_absent.
  - destruct (indexOf_present _ _ H) as (l1 & l2 & Hl & Hn & Hi).
    exists l1, l2. split; [exact Hl |]. split; [exact Hn |].
    unfold PhysicsEngine.removeBody. rewrite Hi, Hl, splice_one. reflexivity.
Qed.

Lemma removeBody_first_occurrence_witness :
  PhysicsEngine.removeBody (engine_G1 [0%nat; 1%nat]) 2%nat = engine_G1 [0%nat; 1%nat]
  /\
  exists l1 l2,
    [1%nat; 0%nat; 1%nat] = l1 ++ 1%nat :: l2 /\ ~ In 1%nat l1 /\
    PhysicsEngine.removeBody (engine_G1 [1%nat; 0%nat; 1%nat]) 1%nat
    = PhysicsEngine.mk 1 (l1 ++ l2) true 0.5.
Proof.
  split.
  - apply (proj1 (removeBody_first_occurrence (engine_G1 [0%nat; 1%nat]) 2%nat)).
    simpl. lia.
  - apply (proj2 (removeBody_first_occurrence (engine_G1 [1%nat; 0%nat; 1%nat]) 1%nat)).
    simpl. lia.
Defined.

Lemma app_one_split (l l1 l2 : list BodyRef) (body : BodyRef) :
  ~ In body l -> ~ In body l1 -> l ++ [body] = l1 ++ body :: l2 -> l1 = l /\ l2 = [].
Proof.
  revert l1. induction l as [| r l IH]; intros l1 Hn Hn1 Hl.
  - destruct l1 as [| a l1]; simpl in Hl.
    + injection Hl as <-. now split.
    + injection Hl as <- Hl. destruct l1; discriminate.
  - destruct l1 as [| a l1]; simpl in Hl.
    + injection Hl as -> _. exfalso. apply Hn. now left.
    + injection Hl as <- Hl.
      destruct (IH l1 (fun H => Hn (or_intror H)) (fun H => Hn1 (or_intror H)) Hl)
        as [-> ->].
      now split.
Qed.

(** X2: removing a body right after adding it gives the engine back as it
    was, provided the body was not registered before.  (For a body that was
    registered already, X1 shows that the earlier entry is the one removed.) *)
Theorem removeBody_addBody (this : PhysicsEngine.t) (body : BodyRef) :
  ~ In body (PhysicsEngine.bodies this) ->
  PhysicsEngine.removeBody (PhysicsEngine.addBody this body) body = this.
Proof.
  intros Hn. destruct this as [G l u th].
  unfold PhysicsEngine.removeBody, PhysicsEngine.addBody.
  cbn [PhysicsEngine.bodies PhysicsEngine.G PhysicsEngine.useBarnesHut
       PhysicsEngine.barnesHutTheta] in *.
  destruct (indexOf_present (l ++ [body]) body) as (l1 & l2 & Hl & Hn1 & Hi).
  { apply in_or_app. right. now left. }
  rewrite Hi, Hl, splice_one.
  destruct (app_one_split l l1 l2 body Hn Hn1 Hl) as [-> ->].
  now rewrite app_nil_r.
Qed.

Lemma removeBody_addBody_witness :
  PhysicsEngine.removeBody (PhysicsEngine.addBody (engine_G1 [0%nat; 1%nat]) 2%nat) 2%nat
  = engine_G1 [0%nat; 1%nat].
Proof.
  apply (removeBody_addBody (engine_G1 [0%nat; 1%nat]) 2%nat). simpl. lia.
Defined.

(** ** The pair force (Physics.ts, [calculateGravityForce]) *)

Lemma lengthSq_opposite (p q : Vector3.t) :
  Vector3.lengthSq (Vector3.subVectors p q) = Vector3.lengthSq (Vector3.subVectors q p).
Proof. unfold Vector3.lengthSq, Vector3.subVectors. simpl. ring. Qed.

Lemma length_opposite (p q : Vector3.t) :
  Vector3.length (Vector3.subVectors p q) = Vector3.length (Vector3.subVectors q p).
Proof. unfold Vector3.length. now rewrite lengthSq_opposite. Qed.

Lemma point_mass_opposite (G m m' : R) (p q : Vector3.t) :
  Vector3.add (point_mass_force G m m' (Vector3.subVectors p q))
    (point_mass_force G m' m (Vector3.subVectors q p)) = Vector3.zero.
Proof.
  unfold point_mass_force, Vector3.normalize. rewrite (length_opposite q p).
  set (s := Rmax _ _). set (o := Vector3.orOne _).
  apply vector_eq; simpl; unfold Rdiv; ring.
Qed.

Lemma gravity_far_point_mass (this : PhysicsEngine.t) (body1 body2 : CelestialBody.t)
  (g : Rng) :
  let direction :=
    Vector3.subVectors (CelestialBody.position body2) (CelestialBody.position body1) in
  0.001 <= Vector3.lengthSq direction ->
  PhysicsEngine.calculateGravityForce this body1 body2 g =
  (point_mass_force (PhysicsEngine.G this) (CelestialBody.mass body1)
     (CelestialBody.mass body2) direction, g).
Proof.
  intros direction H. rewrite gravity_far by exact H. fold direction.
  unfold point_mass_force. rewrite length_sq.
  do 3 f_equal. ring.
Qed.

(** X3: Newton's third law.  For two bodies at squared distance at least
    0.001 the force on the second from the first is the opposite of the force
    on the first from the second (they add up to the zero vector), and neither
    call draws a random number. *)
Theorem calculateGravityForce_third_law
  (this : PhysicsEngine.t) (body1 body2 : CelestialBody.t) (g g' : Rng) :
  0.001 <= Vector3.distanceToSquared (CelestialBody.position body1)
             (CelestialBody.position body2) ->
  Vector3.add (fst (PhysicsEngine.calculateGravityForce this body1 body2 g))
    (fst (PhysicsEngine.calculateGravityForce this body2 body1 g')) = Vector3.zero
  /\ snd (PhysicsEngine.calculateGravityForce this body1 body2 g) = g
  /\ snd (PhysicsEngine.calculateGravityForce this body2 body1 g') = g'.
Proof.
  intros H.
  assert (H21 : 0.001 <= Vector3.lengthSq
                           (Vector3.subVectors (CelestialBody.position body2)
                              (CelestialBody.position body1))).
  { rewrite lengthSq_opposite. exact H. }
  assert (H12 : 0.001 <= Vector3.lengthSq
                           (Vector3.subVectors (CelestialBody.position body1)
                              (CelestialBody.position body2))) by exact H.
  rewrite (gravity_far_point_mass this body1 body2 g H21).
  rewrite (gravity_far_point_mass this body2 body1 g' H12).
  cbn [fst snd]. split; [apply point_mass_opposite |]. now split.
Qed.

Lemma calculateGravityForce_third_law_witness :
  Vector3.add
    (fst (PhysicsEngine.calculateGravityForce (engine_G1 [])
            (body_at 10 0 0 0) (body_at 5 10 0 0) rng_zero))
    (fst (PhysicsEngine.calculateGravityForce (engine_G1 [])
            (body_at 5 10 0 0) (body_at 10 0 0 0) rng_zero)) = Vector3.zero
  /\ snd (PhysicsEngine.calculateGravityForce (engine_G1 [])
            (body_at 10 0 0 0) (body_at 5 10 0 0) rng_zero) = rng_zero
  /\ snd (PhysicsEngine.calculateGravityForce (engine_G1 [])
            (body_at 5 10 0 0) (body_at 10 0 0 0) rng_zero) = rng_zero.
Proof.
  apply (calculateGravityForce_third_law (engine_G1 [])
           (body_at 10 0 0 0) (body_at 5 10 0 0) rng_zero rng_zero).
  unfold Vector3.distanceToSquared. simpl. lra.
Defined.

Lemma normalize_length_le_1 (v : Vector3.t) : Vector3.length (Vector3.normalize v) <= 1.
Proof.
  destruct (Req_dec_T (Vector3.lengthSq v) 0) as [Hz | Hnz].
  - assert (Hl : Vector3.length v = 0).
    { unfold Vector3.length. rewrite Hz. apply sqrt_0. }
    unfold Vector3.normalize, Vector3.divideScalar.
    rewrite length_multiplyScalar, Hl. lra.
  - rewrite normalize_unit by exact Hnz. lra.
Qed.

Lemma gravity_shape (this : PhysicsEngine.t) (body1 body2 : CelestialBody.t) (g : Rng) :
  exists v,
    fst (PhysicsEngine.calculateGravityForce this body1 body2 g)
    = Vector3.multiplyScalar (Vector3.normalize v)
        (PhysicsEngine.G this * (CelestialBody.mass body1 * CelestialBody.mass body2)
         / Rmax (Vector3.lengthSq
                   (Vector3.subVectors (CelestialBody.position body2)
                      (CelestialBody.position body1))) (0.1 * 0.1)).
Proof.
  set (direction := Vector3.subVectors (CelestialBody.position body2)
                      (CelestialBody.position body1)).
  destruct (Rlt_dec (Vector3.lengthSq direction) 0.001) as [Hn | Hf].
  - exists (jitter g). rewrite gravity_near by exact Hn. fold direction.
    rewrite Rmax_right' by lra. reflexivity.
  - exists direction. rewrite gravity_far by (fold direction; lra). reflexivity.
Qed.

(** X4: the clamp of the distance bounds every force.  Whatever the
    positions of the two bodies and whatever the random draws, the length of
    the vector [calculateGravityForce] returns is at most
    [|G m1 m2| / 0.1^2]. *)
Theorem calculateGravityForce_bounded
  (this : PhysicsEngine.t) (body1 body2 : CelestialBody.t) (g : Rng) :
  Vector3.length (fst (PhysicsEngine.calculateGravityForce this body1 body2 g))
  <= Rabs (PhysicsEngine.G this * (CelestialBody.mass body1 * CelestialBody.mass body2))
     / (0.1 * 0.1).
Proof.
  destruct (gravity_shape this body1 body2 g) as [v ->].
  rewrite length_multiplyScalar.
  set (K := PhysicsEngine.G this * _).
  set (d := Vector3.lengthSq _).
  assert (Hm : 0.1 * 0.1 <= Rmax d (0.1 * 0.1)) by apply Rmax_r.
  assert (Hpos : 0 < Rmax d (0.1 * 0.1)) by lra.
  unfold Rdiv at 1. rewrite Rabs_mult, (Rabs_inv (Rmax d (0.1 * 0.1))).
  rewrite (Rabs_right (Rmax d (0.1 * 0.1))) by lra.
  pose proof (normalize_length_le_1 v) as H1.
  pose proof (length_nonneg (Vector3.normalize v)) as H0.
  pose proof (Rabs_pos K) as HK.
  assert (Hinv : / Rmax d (0.1 * 0.1) <= / (0.1 * 0.1)).
  { apply Rinv_le_contravar; lra. }
  assert (Hinv0 : 0 < / Rmax d (0.1 * 0.1)) by (apply Rinv_0_lt_compat; lra).
  unfold Rdiv.
  apply Rle_trans with (1 * (Rabs K * / Rmax d (0.1 * 0.1))).
  - apply Rmult_le_compat_r; [| exact H1]. apply Rmult_le_pos; lra.
  - rewrite Rmult_1_l. apply Rmult_le_compat_l; [exact HK | exact Hinv].
Qed.

(** X5: the inverse-square law.  For a non-negative constant and
    non-negative masses, and two bodies at distance at least 0.1 (where the
    clamp does not apply), the force on [body1] has length
    [G m1 m2 / distance^2] and is a non-negative multiple of the vector from
    [body1] to [body2]: the force attracts. *)
Theorem calculateGravityForce_inverse_square
  (this : PhysicsEngine.t) (body1 body2 : CelestialBody.t) (g : Rng) :
  let direction :=
    Vector3.subVectors (CelestialBody.position body2) (CelestialBody.position body1) in
  let distance :=
    Vector3.distanceTo (CelestialBody.position body1) (CelestialBody.position body2) in
  let force := fst (PhysicsEngine.calculateGravityForce this body1 body2 g) in
  0 <= PhysicsEngine.G this ->
  0 <= CelestialBody.mass body1 -> 0 <= CelestialBody.mass body2 ->
  0.1 <= distance ->
  Vector3.length force
  = PhysicsEngine.G this * CelestialBody.mass body1 * CelestialBody.mass body2
    / (distance * distance)
  /\ exists k, 0 <= k /\ force = Vector3.multiplyScalar direction k.
Proof.
  intros direction distance force HG Hm1 Hm2 Hd.
  assert (Hdist : distance = Vector3.length direction).
  { unfold distance, direction, Vector3.distanceTo, Vector3.length. f_equal.
    unfold Vector3.distanceToSquared, Vector3.lengthSq, Vector3.subVectors. simpl. ring. }
  assert (Hsq : Vector3.lengthSq direction = distance * distance).
  { rewrite Hdist. symmetry. apply length_sq. }
  assert (Hfar : 0.001 <= Vector3.lengthSq direction) by (rewrite Hsq; nra).
  assert (Hnz : Vector3.lengthSq direction <> 0) by lra.
  unfold force. rewrite gravity_far by exact Hfar. fold direction. cbn [fst].
  rewrite Rmax_left' by (rewrite Hsq; nra).
  set (K := PhysicsEngine.G this * (CelestialBody.mass body1 * CelestialBody.mass body2)).
  assert (HK : 0 <= K).
  { unfold K. apply Rmult_le_pos; [exact HG |]. now apply Rmult_le_pos. }
  assert (Hq : 0 <= K / Vector3.lengthSq direction).
  { apply Rmult_le_pos; [exact HK |]. apply Rlt_le, Rinv_0_lt_compat. lra. }
  split.
  - rewrite length_multiplyScalar, normalize_unit by exact Hnz.
    rewrite Rabs_right by lra. rewrite Hsq. unfold K. field. nra.
  - exists (1 / Vector3.orOne (Vector3.length direction) * (K / Vector3.lengthSq direction)).
    split.
    + apply Rmult_le_pos; [| exact Hq].
      rewrite orOne_id by (rewrite <- Hdist; lra).
      apply Rlt_le. apply Rdiv_lt_0_compat; [lra |]. rewrite <- Hdist. lra.
    + apply vector_eq; simpl; ring.
Qed.

Lemma distance_3_4 : Vector3.distanceTo (Vector3.mk 0 0 0) (Vector3.mk 3 4 0) = 5.
Proof.
  unfold Vector3.distanceTo, Vector3.distanceToSquared. simpl.
  match goal with
  | |- sqrt ?a = _ => replace a with (5 * 5) by ring
  end.
  apply sqrt_square. lra.
Qed.

Lemma calculateGravityForce_inverse_square_witness :
  Vector3.length
    (fst (PhysicsEngine.calculateGravityForce (engine_G1 [])
            (body_at 100 0 0 0) (body_at 1 3 4 0) rng_zero))
  = 1 * 100 * 1
    / (Vector3.distanceTo (Vector3.mk 0 0 0) (Vector3.mk 3 4 0)
       * Vector3.distanceTo (Vector3.mk 0 0 0) (Vector3.mk 3 4 0))
  /\ exists k, 0 <= k /\
       fst (PhysicsEngine.calculateGravityForce (engine_G1 [])
              (body_at 100 0 0 0) (body_at 1 3 4 0) rng_zero)
       = Vector3.multiplyScalar
           (Vector3.subVectors (Vector3.mk 3 4 0) (Vector3.mk 0 0 0)) k.
Proof.
  apply (calculateGravityForce_inverse_square (engine_G1 [])
           (body_at 100 0 0 0) (body_at 1 3 4 0) rng_zero).
  - simpl. lra.
  - simpl. lra.
  - simpl. lra.
  - cbn [body_at CelestialBody.position]. rewrite distance_3_4. lra.
Defined.

(** ** The total force (Physics.ts, [calculateTotalForce]) *)

Lemma sum_vectors_add {A : Type} (l : list A) (f h : A -> Vector3.t) :
  sum_vectors l (fun a => Vector3.add (f a) (h a))
  = Vector3.add (sum_vectors l f) (sum_vectors l h).
Proof.
  induction l as [| a l IH]; simpl.
  - apply vector_eq; simpl; ring.
  - rewrite IH. apply vector_eq; simpl; ring.
Qed.

Lemma sum_vectors_scale {A : Type} (l : list A) (f : A -> Vector3.t) (s : R) :
  sum_vectors l (fun a => Vector3.multiplyScalar (f a) s)
  = Vector3.multiplyScalar (sum_vectors l f) s.
Proof.
  induction l as [| a l IH]; simpl.
  - apply vector_eq; simpl; ring.
  - rewrite IH. apply vector_eq; simpl; ring.
Qed.

Lemma sum_vectors_ext_in {A : Type} (l : list A) (f h : A -> Vector3.t) :
  (forall a, In a l -> f a = h a) -> sum_vectors l f = sum_vectors l h.
Proof.
  induction l as [| a l IH]; intros H; simpl; [reflexivity |].
  rewrite (H a) by now left. rewrite IH; [reflexivity |].
  intros b Hb. apply H. now right.
Qed.

Lemma sum_vectors_zero {A : Type} (l : list A) (f : A -> Vector3.t) :
  (forall a, In a l -> f a = Vector3.zero) -> sum_vectors l f = Vector3.zero.
Proof.
  induction l as [| a l IH]; intros H; simpl; [reflexivity |].
  rewrite (H a) by now left. rewrite IH; [apply add_zero_l |].
  intros b Hb. apply H. now right.
Qed.

Lemma others_absent (body : BodyRef) (l : list BodyRef) :
  ~ In body l -> others body l = l.
Proof.
  unfold others. induction l as [| r l IH]; intros Hn; simpl; [reflexivity |].
  destruct (Nat.eqb_spec r body) as [-> | Hne]; simpl.
  - exfalso. apply Hn. now left.
  - rewrite IH; [reflexivity |]. intros H. apply Hn. now right.
Qed.

(** The sum, over the ordered pairs of distinct entries of a list without
    repetition, of a term that changes sign when the pair is swapped. *)
Lemma antisymmetric_sum (l : list BodyRef) (f : BodyRef -> BodyRef -> Vector3.t) :
  NoDup l ->
  (forall a b, Vector3.add (f a b) (f b a) = Vector3.zero) ->
  sum_vectors l (fun a => sum_vectors (others a l) (f a)) = Vector3.zero.
Proof.
  induction l as [| a l IH]; intros Hnd Hanti; [reflexivity |].
  inversion Hnd as [| ? ? Ha Hnd']; subst.
  cbn [sum_vectors fold_right].
  fold (sum_vectors l (fun a0 => sum_vectors (others a0 (a :: l)) (f a0))).
  unfold others at 1. cbn [filter]. rewrite Nat.eqb_refl. cbn [negb].
  fold (others a l). rewrite (others_absent a l Ha).
  rewrite (sum_vectors_ext_in l
             (fun a0 => sum_vectors (others a0 (a :: l)) (f a0))
             (fun a0 => Vector3.add (f a0 a) (sum_vectors (others a0 l) (f a0)))).
  - rewrite sum_vectors_add. rewrite (IH Hnd' Hanti).
    rewrite add_zero_r. rewrite <- sum_vectors_add.
    apply sum_vectors_zero. intros b _. apply Hanti.
  - intros b Hb. unfold others. cbn [filter].
    destruct (Nat.eqb_spec a b) as [-> | Hne]; [contradiction |]. reflexivity.
Qed.

Lemma no_jitter_far (st : Store) (bodies : list BodyRef) (body : BodyRef) :
  no_jitter st bodies -> In body bodies ->
  forall r, In r bodies -> r <> body ->
    0.001 <= Vector3.lengthSq
               (Vector3.subVectors (CelestialBody.position (st r))
                  (CelestialBody.position (st body))).
Proof. intros H Hb r Hr Hne. exact (H r body Hr Hb Hne). Qed.

Lemma pair_force_opposite (G : R) (st : Store) (a b : BodyRef) :
  Vector3.add (pair_force G st a b) (pair_force G st b a) = Vector3.zero.
Proof. unfold pair_force. apply point_mass_opposite. Qed.

Lemma NoDup_three : NoDup three.
Proof. unfold three. repeat constructor; simpl; lia. Qed.

Lemma no_jitter_three : no_jitter store_three three.
Proof.
  intros a b Ha Hb Hne. unfold Vector3.distanceToSquared.
  destruct Ha as [<- | [<- | [<- | []]]]; destruct Hb as [<- | [<- | [<- | []]]];
    try contradiction; simpl; lra.
Qed.

(** X6: the forces of a registry cancel.  When no body is registered
    twice and every two registered bodies are at squared distance at least
    0.001, the total forces [calculateTotalForce] gives for the registered
    bodies add up to the zero vector. *)
Theorem total_forces_cancel (this : PhysicsEngine.t) (st : Store) (g : Rng) :
  NoDup (PhysicsEngine.bodies this) ->
  no_jitter st (PhysicsEngine.bodies this) ->
  sum_vectors (PhysicsEngine.bodies this)
    (fun body => fst (PhysicsEngine.calculateTotalForce this st body g)) = Vector3.zero.
Proof.
  intros Hnd Hfar.
  rewrite (sum_vectors_ext_in _ _
             (fun body => sum_vectors (others body (PhysicsEngine.bodies this))
                            (pair_force (PhysicsEngine.G this) st body))).
  - apply antisymmetric_sum; [exact Hnd |]. intros a b. apply pair_force_opposite.
  - intros body Hb. rewrite calculateTotalForce_far; [reflexivity |].
    now apply no_jitter_far.
Qed.

Lemma total_forces_cancel_witness :
  sum_vectors three
    (fun body => fst (PhysicsEngine.calculateTotalForce (engine_G1 three) store_three
                        body rng_zero)) = Vector3.zero.
Proof.
  apply (total_forces_cancel (engine_G1 three) store_three rng_zero).
  - exact NoDup_three.
  - exact no_jitter_three.
Defined.

(** X7: the total force on a body does not depend on the order of the
    registry (nor on the Barnes-Hut settings) when every other registered body
    is at squared distance at least 0.001 from it; the random source is left as
    it was. *)
Theorem calculateTotalForce_order (G : R) (l l' : list BodyRef) (u u' : bool) (th th' : R)
  (st : Store) (body : BodyRef) (g : Rng) :
  Permutation l l' ->
  (forall r, In r l -> r <> body ->
     0.001 <= Vector3.distanceToSquared (CelestialBody.position (st body))
                (CelestialBody.position (st r))) ->
  PhysicsEngine.calculateTotalForce (PhysicsEngine.mk G l u th) st body g
  = PhysicsEngine.calculateTotalForce (PhysicsEngine.mk G l' u' th') st body g
  /\ snd (PhysicsEngine.calculateTotalForce (PhysicsEngine.mk G l u th) st body g) = g.
Proof.
  intros Hp Hfar.
  rewrite !calculateTotalForce_far.
  - cbn [PhysicsEngine.bodies PhysicsEngine.G snd]. split; [| reflexivity]. f_equal.
    apply sum_vectors_perm. now apply others_perm.
  - cbn [PhysicsEngine.bodies]. intros r Hr Hne. rewrite lengthSq_opposite.
    apply Hfar; [| exact Hne]. eapply Permutation_in; [symmetry; exact Hp | exact Hr].
  - cbn [PhysicsEngine.bodies]. intros r Hr Hne. rewrite lengthSq_opposite.
    now apply Hfar.
Qed.

Lemma calculateTotalForce_order_witness :
  PhysicsEngine.calculateTotalForce (PhysicsEngine.mk 1 three true 0.5) store_three
    0%nat rng_zero
  = PhysicsEngine.calculateTotalForce (PhysicsEngine.mk 1 (rev three) false 0.5)
      store_three 0%nat rng_zero
  /\ snd (PhysicsEngine.calculateTotalForce (PhysicsEngine.mk 1 three true 0.5)
            store_three 0%nat rng_zero) = rng_zero.
Proof.
  apply (calculateTotalForce_order 1 three (rev three) true false 0.5 0.5 store_three
           0%nat rng_zero).
  - apply Permutation_rev.
  - intros r Hr Hne. apply no_jitter_three; [now left | exact Hr |].
    intros H. apply Hne. now symmetry.
Defined.

(** ** What a tick leaves alone (Physics.ts, [update]) *)

Lemma velocity_pass_frame (this : PhysicsEngine.t) (forces : PhysicsEngine.ForceMap)
  (deltaTime : R) (st : Store) (r : BodyRef) :
  let st' := PhysicsEngine.velocity_pass this forces deltaTime st in
  CelestialBody.mass (st' r) = CelestialBody.mass (st r) /\
  CelestialBody.isStatic (st' r) = CelestialBody.isStatic (st r) /\
  CelestialBody.position (st' r) = CelestialBody.position (st r) /\
  (~ In r (PhysicsEngine.bodies this) -> st' r = st r).
Proof.
  unfold PhysicsEngine.velocity_pass.
  revert st. induction (PhysicsEngine.bodies this) as [| a l IH]; intros st.
  - simpl. repeat split.
  - cbn [fold_left].
    set (st1 := if CelestialBody.isStatic (st a) then st else _).
    destruct (IH st1) as (Hm & Hs & Hp & Hf).
    assert (H1 : CelestialBody.mass (st1 r) = CelestialBody.mass (st r) /\
                 CelestialBody.isStatic (st1 r) = CelestialBody.isStatic (st r) /\
                 CelestialBody.position (st1 r) = CelestialBody.position (st r) /\
                 (r <> a -> st1 r = st r)).
    { unfold st1. destruct (CelestialBody.isStatic (st a)); [repeat split |].
      unfold velocity_add. destruct (Nat.eqb_spec r a) as [-> | Hne].
      - repeat split. intros H. contradiction.
      - repeat split. }
    destruct H1 as (Hm1 & Hs1 & Hp1 & Hf1).
    cbv zeta in *. rewrite Hm, Hs, Hp. repeat split; try assumption.
    intros Hn. rewrite Hf by (intros H; apply Hn; now right).
    apply Hf1. intros ->. apply Hn. now left.
Qed.

Lemma position_pass_frame (this : PhysicsEngine.t) (deltaTime : R) (st : Store)
  (r : BodyRef) :
  let st' := PhysicsEngine.position_pass this deltaTime st in
  CelestialBody.mass (st' r) = CelestialBody.mass (st r) /\
  CelestialBody.isStatic (st' r) = CelestialBody.isStatic (st r) /\
  CelestialBody.velocity (st' r) = CelestialBody.velocity (st r) /\
  (~ In r (PhysicsEngine.bodies this) -> st' r = st r).
Proof.
  unfold PhysicsEngine.position_pass.
  revert st. induction (PhysicsEngine.bodies this) as [| a l IH]; intros st.
  - simpl. repeat split.
  - cbn [fold_left].
    set (st1 := if CelestialBody.isStatic (st a) then st else _).
    destruct (IH st1) as (Hm & Hs & Hp & Hf).
    assert (H1 : CelestialBody.mass (st1 r) = CelestialBody.mass (st r) /\
                 CelestialBody.isStatic (st1 r) = CelestialBody.isStatic (st r) /\
                 CelestialBody.velocity (st1 r) = CelestialBody.velocity (st r) /\
                 (r <> a -> st1 r = st r)).
    { unfold st1. destruct (CelestialBody.isStatic (st a)); [repeat split |].
      unfold position_add. destruct (Nat.eqb_spec r a) as [-> | Hne].
      - repeat split. intros H. contradiction.
      - repeat split. }
    destruct H1 as (Hm1 & Hs1 & Hp1 & Hf1).
    cbv zeta in *. rewrite Hm, Hs, Hp. repeat split; try assumption.
    intros Hn. rewrite Hf by (intros H; apply Hn; now right).
    apply Hf1. intros ->. apply Hn. now left.
Qed.

Lemma update_frame_step (fuel : nat) (this : PhysicsEngine.t) (deltaTime : R)
  (w w' : World) (r : BodyRef) :
  PhysicsEngine.update fuel this deltaTime w = Some w' ->
  CelestialBody.mass (store w' r) = CelestialBody.mass (store w r) /\
  CelestialBody.isStatic (store w' r) = CelestialBody.isStatic (store w r) /\
  (~ In r (PhysicsEngine.bodies this) -> store w' r = store w r).
Proof.
  unfold PhysicsEngine.update.
  destruct (PhysicsEngine.tick_tree fuel this (store w)) as [tree |]; [| discriminate].
  destruct (PhysicsEngine.force_pass this tree (store w) (rng w)) as [forces g].
  intros [= <-]. cbn [store].
  destruct (position_pass_frame this deltaTime
              (PhysicsEngine.velocity_pass this forces deltaTime (store w)) r)
    as (Hm & Hs & _ & Hf).
  destruct (velocity_pass_frame this forces deltaTime (store w) r)
    as (Hm' & Hs' & _ & Hf').
  cbv zeta in *. rewrite Hm, Hs, Hm', Hs'. repeat split.
  intros Hn. now rewrite Hf, Hf'.
Qed.

(** X8: ticks never change the mass or the static flag of any body, and
    they leave a body exactly as it was as long as it is not registered.  This
    holds over any sequence of ticks that return, whatever the registry and the
    settings of each tick, in both force modes and also for a registry with
    repeated entries. *)
Theorem update_frame (fuel : nat) (ticks : list (PhysicsEngine.t * R)) (w w' : World)
  (r : BodyRef) :
  updates fuel ticks w = Some w' ->
  CelestialBody.mass (store w' r) = CelestialBody.mass (store w r) /\
  CelestialBody.isStatic (store w' r) = CelestialBody.isStatic (store w r) /\
  ((forall tick, In tick ticks -> ~ In r (PhysicsEngine.bodies (fst tick))) ->
   store w' r = store w r).
Proof.
  revert w. induction ticks as [| [this deltaTime] rest IH]; intros w Hup.
  - injection Hup as <-. repeat split.
  - cbn [updates] in Hup.
    destruct (PhysicsEngine.update fuel this deltaTime w) as [w1 |] eqn:E; [| discriminate].
    destruct (update_frame_step fuel this deltaTime w w1 r E) as (Hm1 & Hs1 & Hf1).
    destruct (IH w1 Hup) as (Hm & Hs & Hf).
    rewrite Hm, Hs, Hm1, Hs1. repeat split.
    intros Hn. rewrite Hf by (intros tick Ht; apply Hn; now right).
    apply Hf1. apply (Hn (this, deltaTime)). now left.
Qed.

Lemma update_frame_witness :
  CelestialBody.mass
    (store (world_or world_star_planet (updates 0 two_ticks world_star_planet)) 1%nat)
  = CelestialBody.mass (store world_star_planet 1%nat)
  /\
  store (world_or world_star_planet (updates 0 two_ticks world_star_planet)) 2%nat
  = store world_star_planet 2%nat.
Proof.
  destruct (updates 0 two_ticks world_star_planet) as [w' |] eqn:E.
  - split.
    + apply (update_frame 0 two_ticks world_star_planet w' 1%nat E).
    + apply (update_frame 0 two_ticks world_star_planet w' 2%nat E).
      intros tick Ht. destruct Ht as [<- | [<- | []]]; simpl; lia.
  - exfalso. revert E. apply updates_small.
    repeat constructor; simpl; lia.
Defined.

(** ** A tick of no duration *)

Lemma fold_left_identity (step : Store -> BodyRef -> Store) (l : list BodyRef) :
  (forall st body r, step st body r = st r) ->
  forall st r, fold_left step l st r = st r.
Proof.
  intros H. induction l as [| a l IH]; intros st r; [reflexivity |].
  cbn [fold_left]. rewrite IH. apply H.
Qed.

(** X9: a tick of duration 0 leaves every body as it was, position and
    velocity included.  (The masses of the bodies that move are taken to be
    non-zero: the source divides the force by the mass, and a float division
    by zero would not give the product with 0 that the real numbers give.) *)
Theorem update_zero_duration (fuel : nat) (this : PhysicsEngine.t) (w w' : World)
  (r : BodyRef) :
  (forall b, In b (PhysicsEngine.bodies this) ->
     CelestialBody.isStatic (store w b) = false -> CelestialBody.mass (store w b) <> 0) ->
  PhysicsEngine.update fuel this 0 w = Some w' ->
  store w' r = store w r.
Proof.
  intros _. unfold PhysicsEngine.update.
  destruct (PhysicsEngine.tick_tree fuel this (store w)) as [tree |]; [| discriminate].
  destruct (PhysicsEngine.force_pass this tree (store w) (rng w)) as [forces g].
  intros [= <-]. cbn [store].
  unfold PhysicsEngine.position_pass, PhysicsEngine.velocity_pass.
  rewrite fold_left_identity.
  - rewrite fold_left_identity; [reflexivity |].
    intros st body r0. destruct (CelestialBody.isStatic (st body)); [reflexivity |].
    unfold velocity_add. destruct (Nat.eqb_spec r0 body) as [-> |]; [| reflexivity].
    destruct (st body) as [m p v s]. cbn. f_equal. apply vector_eq; simpl; ring.
  - intros st body r0. destruct (CelestialBody.isStatic (st body)); [reflexivity |].
    unfold position_add. destruct (Nat.eqb_spec r0 body) as [-> |]; [| reflexivity].
    destruct (st body) as [m p v s]. cbn. f_equal. apply vector_eq; simpl; ring.
Qed.

Lemma update_zero_duration_witness :
  store (world_or world_star_planet
           (PhysicsEngine.update 0 (engine_G1 [0%nat; 1%nat]) 0 world_star_planet))
    1%nat
  = store world_star_planet 1%nat.
Proof.
  destruct (PhysicsEngine.update 0 (engine_G1 [0%nat; 1%nat]) 0 world_star_planet)
    as [w' |] eqn:E.
  - apply (update_zero_duration 0 (engine_G1 [0%nat; 1%nat]) world_star_planet w' 1%nat);
      [| exact E].
    intros b Hb Hs. destruct Hb as [<- | [<- | []]]; [discriminate | simpl; lra].
  - exfalso. revert E. apply update_small. simpl. lia.
Defined.

(** ** The momentum *)

Lemma force_steps_far (this : PhysicsEngine.t) (st : Store) (l : list BodyRef)
  (acc : PhysicsEngine.ForceMap * Rng) :
  no_jitter st (PhysicsEngine.bodies this) ->
  incl l (PhysicsEngine.bodies this) ->
  snd (fold_left (force_step this None st) l acc) = snd acc.
Proof.
  intros Hfar. revert acc. induction l as [| a l IH]; intros acc Hincl; [reflexivity |].
  cbn [fold_left]. rewrite IH by (intros x Hx; apply Hincl; now right).
  unfold force_step, tick_force. cbn [snd].
  rewrite calculateTotalForce_far; [reflexivity |].
  apply no_jitter_far; [exact Hfar |]. apply Hincl. now left.
Qed.

Lemma force_pass_far (this : PhysicsEngine.t) (st : Store) (g : Rng) :
  no_jitter st (PhysicsEngine.bodies this) ->
  snd (PhysicsEngine.force_pass this None st g) = g /\
  forall body, In body (PhysicsEngine.bodies this) ->
    PhysicsEngine.Map_get (fst (PhysicsEngine.force_pass this None st g)) body
    = sum_vectors (others body (PhysicsEngine.bodies this))
        (pair_force (PhysicsEngine.G this) st body).
Proof.
  intros Hfar. rewrite force_pass_steps. split.
  - rewrite force_steps_far; [reflexivity | exact Hfar | apply incl_refl].
  - intros body Hb.
    destruct (force_pass_entries this None st (PhysicsEngine.bodies this)
                (fun _ => None, g) body Hb) as [g0 Hg0].
    unfold PhysicsEngine.Map_get. rewrite Hg0. unfold tick_force.
    rewrite calculateTotalForce_far; [reflexivity |].
    now apply no_jitter_far.
Qed.

(** X10: the direct evaluator conserves momentum.  With the direct
    evaluator (Barnes-Hut off, or at most two bodies), no body registered
    twice, no static body, non-zero masses and every two bodies at squared
    distance at least 0.001, a tick returns, leaves the sum of
    [velocity * mass] over the registry unchanged, and draws no random
    number. *)
Theorem update_conserves_momentum
  (fuel : nat) (this : PhysicsEngine.t) (deltaTime : R) (w : World) :
  PhysicsEngine.useBarnesHut this = false \/
  (length (PhysicsEngine.bodies this) <= 2)%nat ->
  NoDup (PhysicsEngine.bodies this) ->
  no_jitter (store w) (PhysicsEngine.bodies this) ->
  (forall r, In r (PhysicsEngine.bodies this) ->
     CelestialBody.isStatic (store w r) = false /\ CelestialBody.mass (store w r) <> 0) ->
  exists w',
    PhysicsEngine.update fuel this deltaTime w = Some w' /\
    momentum (store w') (PhysicsEngine.bodies this)
    = momentum (store w) (PhysicsEngine.bodies this) /\
    rng w' = rng w.
Proof.
  intros Hdirect Hnd Hfar Hfree.
  unfold PhysicsEngine.update.
  assert (Htree : PhysicsEngine.tick_tree fuel this (store w) = Some None).
  { destruct Hdirect as [H | H]; [now apply tick_tree_direct | now apply tick_tree_small]. }
  rewrite Htree.
  destruct (force_pass_far this (store w) (rng w) Hfar) as [Hg Hforces].
  destruct (PhysicsEngine.force_pass this None (store w) (rng w)) as [forces g].
  cbn [fst snd] in Hg, Hforces. subst g.
  eexists. split; [reflexivity |]. cbn [store rng]. split; [| reflexivity].
  unfold momentum.
  rewrite (sum_vectors_ext_in _ _
             (fun r =>
                Vector3.add
                  (Vector3.multiplyScalar (CelestialBody.velocity (store w r))
                     (CelestialBody.mass (store w r)))
                  (Vector3.multiplyScalar
                     (sum_vectors (others r (PhysicsEngine.bodies this))
                        (pair_force (PhysicsEngine.G this) (store w) r))
                     deltaTime))).
  - rewrite sum_vectors_add, sum_vectors_scale.
    rewrite antisymmetric_sum.
    + apply vector_eq; simpl; ring.
    + exact Hnd.
    + intros a b. apply pair_force_opposite.
  - intros r Hr.
    destruct (Hfree r Hr) as [Hs Hm].
    destruct (position_pass_at this deltaTime
                (PhysicsEngine.velocity_pass this forces deltaTime (store w)) r Hnd)
      as [Hp _].
    destruct (velocity_pass_at this forces deltaTime (store w) r Hnd) as [Hv _].
    rewrite (Hp Hr), (Hv Hr). unfold drift, kick. rewrite Hs.
    cbn [CelestialBody.isStatic CelestialBody.mass CelestialBody.velocity].
    rewrite (Hforces r Hr).
    apply vector_eq; simpl; field; exact Hm.
Qed.

Lemma update_conserves_momentum_witness :
  exists w',
    PhysicsEngine.update 0 (engine_G1 [0%nat; 1%nat]) 0.1
      (mkWorld store_star_planet_free rng_zero) = Some w' /\
    momentum (store w') [0%nat; 1%nat] = momentum store_star_planet_free [0%nat; 1%nat] /\
    rng w' = rng_zero.
Proof.
  apply (update_conserves_momentum 0 (engine_G1 [0%nat; 1%nat]) 0.1
           (mkWorld store_star_planet_free rng_zero)).
  - right. simpl. lia.
  - exact NoDup_two.
  - intros a b Ha Hb Hne. unfold Vector3.distanceToSquared.
    destruct Ha as [<- | [<- | []]]; destruct Hb as [<- | [<- | []]];
      try contradiction; simpl; lra.
  - intros r Hr. destruct Hr as [<- | [<- | []]]; simpl; split; try reflexivity; lra.
Defined.

(** ** The energy and the order of the registry (Physics.ts, [getTotalEnergy]) *)

Lemma sum_over_perm {A : Type} (l l' : list A) (f : A -> R) :
  Permutation l l' -> sum_over l f = sum_over l' f.
Proof.
  induction 1 as [| a l l' _ IH | a b l | l l' l'' _ IH1 _ IH2]; simpl.
  - reflexivity.
  - now rewrite IH.
  - ring.
  - now rewrite IH1.
Qed.

Lemma pair_sum_perm (l l' : list BodyRef) (term : BodyRef -> BodyRef -> R) :
  (forall a b, term a b = term b a) ->
  Permutation l l' -> pair_sum l term = pair_sum l' term.
Proof.
  intros Hsym. induction 1 as [| a l l' Hp IH | a b l | l l' l'' _ IH1 _ IH2].
  - reflexivity.
  - rewrite !pair_sum_cons, IH. f_equal. now apply sum_over_perm.
  - rewrite !pair_sum_cons. simpl. rewrite (Hsym a b). ring.
  - now rewrite IH1.
Qed.

Lemma distanceTo_sym (p q : Vector3.t) : Vector3.distanceTo p q = Vector3.distanceTo q p.
Proof.
  unfold Vector3.distanceTo. f_equal. unfold Vector3.distanceToSquared. ring.
Qed.

(** X11: the total energy does not depend on the order in which the bodies
    are registered (nor on the Barnes-Hut settings). *)
Theorem getTotalEnergy_order (G : R) (l l' : list BodyRef) (u u' : bool) (th th' : R)
  (w : World) :
  Permutation l l' ->
  fst (PhysicsEngine.getTotalEnergy (PhysicsEngine.mk G l u th) w)
  = fst (PhysicsEngine.getTotalEnergy (PhysicsEngine.mk G l' u' th') w).
Proof.
  intros Hp. unfold PhysicsEngine.getTotalEnergy. cbn [fst PhysicsEngine.bodies].
  f_equal.
  - unfold PhysicsEngine.kineticEnergy. cbn [PhysicsEngine.bodies].
    rewrite !(fold_left_plus
                (fun body => 0.5 * CelestialBody.mass (store w body)
                             * Vector3.lengthSq (CelestialBody.velocity (store w body)))).
    f_equal. now apply sum_over_perm.
  - rewrite !potential_rows_sum. f_equal.
    unfold pair_potential. cbn [PhysicsEngine.G].
    apply pair_sum_perm; [| exact Hp].
    intros a b. rewrite (distanceTo_sym (CelestialBody.position (store w a))).
    unfold Rdiv. ring.
Qed.

Lemma getTotalEnergy_order_witness :
  fst (PhysicsEngine.getTotalEnergy (PhysicsEngine.mk 1 three true 0.5)
         (mkWorld store_three rng_zero))
  = fst (PhysicsEngine.getTotalEnergy (PhysicsEngine.mk 1 (rev three) true 0.5)
           (mkWorld store_three rng_zero)).
Proof.
  apply (getTotalEnergy_order 1 three (rev three) true true 0.5 0.5
           (mkWorld store_three rng_zero)).
  apply Permutation_rev.
Defined.

(** ** The bounding box (BarnesHut.ts, [calculateBounds]) *)

Lemma extend_attained (st : Store) (l : list BodyRef) (e : BarnesHutTree.Extent)
  (c : BarnesHutTree.Extent -> R) (x : Vector3.t -> R) :
  (forall e r, c (BarnesHutTree.extend st e r) = c e \/
               c (BarnesHutTree.extend st e r) = x (CelestialBody.position (st r))) ->
  c (fold_left (BarnesHutTree.extend st) l e) = c e \/
  exists r, In r l /\ x (CelestialBody.position (st r))
                      = c (fold_left (BarnesHutTree.extend st) l e).
Proof.
  intros Hstep. revert e. induction l as [| a l IH]; intros e; [now left |].
  cbn [fold_left].
  destruct (IH (BarnesHutTree.extend st e a)) as [Heq | (r & Hr & Heq)].
  - rewrite Heq. destruct (Hstep e a) as [H | H].
    + now left.
    + right. exists a. split; [now left | now symmetry].
  - right. exists r. split; [now right | exact Heq].
Qed.

Lemma calculateBounds_extent (st : Store) (first : BodyRef) (rest : list BodyRef)
  (padding : R) :
  exists e, extent_of st (first :: rest) e /\
            BarnesHutTree.calculateBounds st (first :: rest) padding = padded e padding.
Proof.
  unfold BarnesHutTree.calculateBounds.
  set (p := CelestialBody.position (st first)).
  set (e0 := BarnesHutTree.mkExtent _ _ _ _ _ _).
  exists (fold_left (BarnesHutTree.extend st) (first :: rest) e0).
  split; [| reflexivity].
  destruct (extend_fold st (first :: rest) e0) as [_ Hall]. cbn zeta in Hall.
  split; [exact Hall |].
  assert (Hatt : forall (c : BarnesHutTree.Extent -> R) (x : Vector3.t -> R),
            c e0 = x p ->
            (forall e r, c (BarnesHutTree.extend st e r) = c e \/
                         c (BarnesHutTree.extend st e r)
                         = x (CelestialBody.position (st r))) ->
            exists r, In r (first :: rest) /\
                      x (CelestialBody.position (st r))
                      = c (fold_left (BarnesHutTree.extend st) (first :: rest) e0)).
  { intros c x H0 Hstep.
    destruct (extend_attained st (first :: rest) e0 c x Hstep) as [Heq | Hex].
    - exists first. split; [now left |]. rewrite Heq, H0. reflexivity.
    - exact Hex. }
  repeat split.
  - apply (Hatt BarnesHutTree.minX Vector3.x); [reflexivity |].
    intros e r. unfold BarnesHutTree.extend. cbn [BarnesHutTree.minX].
    unfold Rmin. destruct (Rle_dec _ _); [now left | now right].
  - apply (Hatt BarnesHutTree.minY Vector3.y); [reflexivity |].
    intros e r. unfold BarnesHutTree.extend. cbn [BarnesHutTree.minY].
    unfold Rmin. destruct (Rle_dec _ _); [now left | now right].
  - apply (Hatt BarnesHutTree.minZ Vector3.z); [reflexivity |].
    intros e r. unfold BarnesHutTree.extend. cbn [BarnesHutTree.minZ].
    unfold Rmin. destruct (Rle_dec _ _); [now left | now right].
  - apply (Hatt BarnesHutTree.maxX Vector3.x); [reflexivity |].
    intros e r. unfold BarnesHutTree.extend. cbn [BarnesHutTree.maxX].
    unfold Rmax. destruct (Rle_dec _ _); [now right | now left].
  - apply (Hatt BarnesHutTree.maxY Vector3.y); [reflexivity |].
    intros e r. unfold BarnesHutTree.extend. cbn [BarnesHutTree.maxY].
    unfold Rmax. destruct (Rle_dec _ _); [now right | now left].
  - apply (Hatt BarnesHutTree.maxZ Vector3.z); [reflexivity |].
    intros e r. unfold BarnesHutTree.extend. cbn [BarnesHutTree.maxZ].
    unfold Rmax. destruct (Rle_dec _ _); [now right | now left].
Qed.

Lemma extent_unique (st : Store) (l l' : list BodyRef) (e e' : BarnesHutTree.Extent) :
  (forall r, In r l <-> In r l') ->
  extent_of st l e -> extent_of st l' e' -> e = e'.
Proof.
  intros Hsame (Hb & (a1 & Ha1 & E1) & (a2 & Ha2 & E2) & (a3 & Ha3 & E3)
                & (a4 & Ha4 & E4) & (a5 & Ha5 & E5) & (a6 & Ha6 & E6))
               (Hb' & (b1 & Hb1 & F1) & (b2 & Hb2 & F2) & (b3 & Hb3 & F3)
                & (b4 & Hb4 & F4) & (b5 & Hb5 & F5) & (b6 & Hb6 & F6)).
  pose proof (Hb' a1 (proj1 (Hsame a1) Ha1)). pose proof (Hb b1 (proj2 (Hsame b1) Hb1)).
  pose proof (Hb' a2 (proj1 (Hsame a2) Ha2)). pose proof (Hb b2 (proj2 (Hsame b2) Hb2)).
  pose proof (Hb' a3 (proj1 (Hsame a3) Ha3)). pose proof (Hb b3 (proj2 (Hsame b3) Hb3)).
  pose proof (Hb' a4 (proj1 (Hsame a4) Ha4)). pose proof (Hb b4 (proj2 (Hsame b4) Hb4)).
  pose proof (Hb' a5 (proj1 (Hsame a5) Ha5)). pose proof (Hb b5 (proj2 (Hsame b5) Hb5)).
  pose proof (Hb' a6 (proj1 (Hsame a6) Ha6)). pose proof (Hb b6 (proj2 (Hsame b6) Hb6)).
  destruct e, e'. cbn in *. f_equal; lra.
Qed.

(** X12: for a list that is not empty, [calculateBounds] returns the
    smallest box that holds every position, widened by [padding] on each of its
    six sides: every body is at least [padding] inside the box along each axis,
    and on each side some body is exactly [padding] away from it. *)
Theorem calculateBounds_tight (st : Store) (bodies : list BodyRef) (padding : R) :
  bodies <> [] ->
  exists e, extent_of st bodies e /\
            BarnesHutTree.calculateBounds st bodies padding = padded e padding.
Proof.
  destruct bodies as [| first rest]; [congruence |]. intros _.
  apply calculateBounds_extent.
Qed.

Lemma calculateBounds_tight_witness :
  exists e, extent_of store_three three e /\
            BarnesHutTree.calculateBounds store_three three 10 = padded e 10.
Proof.
  apply (calculateBounds_tight store_three three 10). discriminate.
Defined.

(** X13: the box of [calculateBounds] depends only on which bodies are in
    the list: two lists with the same members, in any order and with any
    repetitions, give the same box. *)
Theorem calculateBounds_same_bodies (st : Store) (bodies bodies' : list BodyRef)
  (padding : R) :
  (forall r, In r bodies <-> In r bodies') ->
  BarnesHutTree.calculateBounds st bodies padding
  = BarnesHutTree.calculateBounds st bodies' padding.
Proof.
  intros Hsame.
  destruct bodies as [| a l], bodies' as [| a' l'].
  - reflexivity.
  - exfalso. apply (proj2 (Hsame a')). now left.
  - exfalso. apply (proj1 (Hsame a)). now left.
  - destruct (calculateBounds_extent st a l padding) as (e & He & ->).
    destruct (calculateBounds_extent st a' l' padding) as (e' & He' & ->).
    now rewrite (extent_unique st _ _ e e' Hsame He He').
Qed.

Lemma calculateBounds_same_bodies_witness :
  BarnesHutTree.calculateBounds store_three three 10
  = BarnesHutTree.calculateBounds store_three [2%nat; 1%nat; 0%nat; 0%nat] 10.
Proof.
  apply (calculateBounds_same_bodies store_three three [2%nat; 1%nat; 0%nat; 0%nat] 10).
  intros r. unfold three. simpl. tauto.
Defined.

(** ** The octants (BarnesHut.ts, [getOctant] and [createChild]) *)

(** X14: the subdivision of a cell.  For a position inside the box of a
    node, [getOctant] returns an index below 8 and the box [createChild] makes
    for that index holds the position; whatever the index, the child box lies
    inside the box of the node and its size is half the size of the node. *)
Theorem octants_subdivide (node : BHNode.t) (p : Vector3.t) :
  within (BHNode.bounds node) p ->
  (BHNode.getOctant node p < 8)%nat /\
  within (BHNode.bounds (BHNode.createChild node (BHNode.getOctant node p))) p /\
  forall k : nat,
    BHNode.getSize (BHNode.createChild node k) = BHNode.getSize node / 2 /\
    forall q, within (BHNode.bounds (BHNode.createChild node k)) q ->
              within (BHNode.bounds node) q.
Proof.
  intros H. split; [apply getOctant_lt_8 |]. split; [now apply createChild_within |].
  intros k. split; [apply getSize_createChild |]. intros q. apply createChild_subbox.
Qed.

Lemma octants_subdivide_witness :
  (BHNode.getOctant (BHNode.new unit_box) (Vector3.mk 0.5 0.5 0.5) < 8)%nat /\
  within
    (BHNode.bounds
       (BHNode.createChild (BHNode.new unit_box)
          (BHNode.getOctant (BHNode.new unit_box) (Vector3.mk 0.5 0.5 0.5))))
    (Vector3.mk 0.5 0.5 0.5) /\
  forall k : nat,
    BHNode.getSize (BHNode.createChild (BHNode.new unit_box) k)
    = BHNode.getSize (BHNode.new unit_box) / 2 /\
    forall q, within (BHNode.bounds (BHNode.createChild (BHNode.new unit_box) k)) q ->
              within (BHNode.bounds (BHNode.new unit_box)) q.
Proof.
  apply (octants_subdivide (BHNode.new unit_box) (Vector3.mk 0.5 0.5 0.5)).
  unfold within. simpl. lra.
Defined.

Lemma bits_below_8 (k k' : nat) :
  (k < 8)%nat -> (k' < 8)%nat ->
  Nat.testbit k 0 = Nat.testbit k' 0 ->
  Nat.testbit k 1 = Nat.testbit k' 1 ->
  Nat.testbit k 2 = Nat.testbit k' 2 ->
  k = k'.
Proof.
  intros Hk Hk'.
  do 8 (destruct k as [| k];
        [do 8 (destruct k' as [| k']; [vm_compute; try reflexivity; discriminate |]); lia |]).
  lia.
Qed.

(** X15: the octant of a position is the only child box that holds it.  If
    a position lies in the child box of index [k] (below 8) of a node and on
    none of the three planes through the centre of the node, then [getOctant]
    returns [k]. *)
Theorem getOctant_unique (node : BHNode.t) (p : Vector3.t) (k : nat) :
  (k < 8)%nat ->
  within (BHNode.bounds (BHNode.createChild node k)) p ->
  Vector3.x p <> Vector3.x (BHNode.getCenter node) ->
  Vector3.y p <> Vector3.y (BHNode.getCenter node) ->
  Vector3.z p <> Vector3.z (BHNode.getCenter node) ->
  BHNode.getOctant node p = k.
Proof.
  intros Hk Hin Hx Hy Hz.
  destruct (getOctant_bits node p) as (Bx & By & Bz).
  apply bits_below_8; [apply getOctant_lt_8 | exact Hk | | |].
  - rewrite Bx. revert Hin. unfold within, BHNode.createChild.
    cbn [BHNode.new BHNode.bounds min max Vector3.x Vector3.y Vector3.z].
    destruct (Nat.testbit k 0); intros (H & _ & _).
    + apply Rgeb_true. lra.
    + apply Rgeb_false. lra.
  - rewrite By. revert Hin. unfold within, BHNode.createChild.
    cbn [BHNode.new BHNode.bounds min max Vector3.x Vector3.y Vector3.z].
    destruct (Nat.testbit k 1); intros (_ & H & _).
    + apply Rgeb_true. lra.
    + apply Rgeb_false. lra.
  - rewrite Bz. revert Hin. unfold within, BHNode.createChild.
    cbn [BHNode.new BHNode.bounds min max Vector3.x Vector3.y Vector3.z].
    destruct (Nat.testbit k 2); intros (_ & _ & H).
    + apply Rgeb_true. lra.
    + apply Rgeb_false. lra.
Qed.

Lemma getOctant_unique_witness :
  BHNode.getOctant (BHNode.new unit_box) (Vector3.mk 0.5 (-0.5) 0.5) = 5%nat.
Proof.
  apply (getOctant_unique (BHNode.new unit_box) (Vector3.mk 0.5 (-0.5) 0.5) 5).
  - lia.
  - unfold within. simpl. lra.
  - simpl. lra.
  - simpl. lra.
  - simpl. lra.
Defined.

(** ** One insertion (BarnesHut.ts, [insert]) *)

(** X16: what one call of [insert] that returns does to a well-formed
    tree.  The tree stays well-formed and keeps its box; a body whose position
    is in the box is added to the bodies the tree holds, once, and no body is
    lost; a body whose position is outside the box is dropped and the tree is
    returned unchanged. *)
Theorem insert_one_body (st : Store) (fuel : nat) (body : BodyRef) (node node' : BHNode.t) :
  well_formed st node ->
  BarnesHutTree.insert fuel st body node = Some node' ->
  well_formed st node' /\
  BHNode.bounds node' = BHNode.bounds node /\
  (within (BHNode.bounds node) (CelestialBody.position (st body)) ->
   Permutation (bodies_of node') (body :: bodies_of node)) /\
  (~ within (BHNode.bounds node) (CelestialBody.position (st body)) -> node' = node).
Proof.
  intros Hwf Hins.
  destruct (insert_ok_all st fuel body node node' Hwf Hins) as (Hwf' & Hb & Hperm).
  split; [exact Hwf' |]. split; [exact Hb |]. split.
  - intros Hin. apply contains_within in Hin. unfold inserted in Hperm.
    rewrite Hin in Hperm. exact Hperm.
  - intros Hout. destruct fuel as [| fuel]; [discriminate |].
    assert (Hc : BHNode.contains node (CelestialBody.position (st body)) = false).
    { destruct (BHNode.contains node _) eqn:E; [| reflexivity].
      exfalso. apply Hout. now apply contains_within. }
    rewrite insert_outside in Hins by exact Hc. now injection Hins.
Qed.

Lemma within_bounds_three (r : BodyRef) :
  within bounds_three (CelestialBody.position (store_three r)).
Proof. unfold within. destruct r as [| [| r]]; simpl; lra. Qed.

Lemma insert_one_body_witness :
  well_formed store_three root_three_2 /\
  BHNode.bounds root_three_2 = BHNode.bounds root_three_1 /\
  Permutation (bodies_of root_three_2) (1%nat :: bodies_of root_three_1).
Proof.
  destruct (insert_one_body store_three 3 1%nat root_three_1 root_three_2)
    as (Hwf & Hb & Hin & _).
  - split; [reflexivity | apply within_bounds_three].
  - exact insert_three_2.
  - split; [exact Hwf |]. split; [exact Hb |]. apply Hin. apply within_bounds_three.
Defined.

(** X17: a bound on the depth of an insertion.  If every body of a
    well-formed tree is at least [delta] away from the new body along some
    axis, and the size of the root is below [delta * 2^d], then [insert]
    returns within [d + 1] levels of recursion. *)
Theorem insert_depth_bound (st : Store) (delta : R) (d fuel : nat) (body : BodyRef)
  (node : BHNode.t) :
  (d + 1 <= fuel)%nat ->
  well_formed st node ->
  (forall r, In r (bodies_of node) ->
     separated delta (CelestialBody.position (st r)) (CelestialBody.position (st body))) ->
  BHNode.getSize node < delta * 2 ^ d ->
  exists node', BarnesHutTree.insert fuel st body node = Some node'.
Proof.
  intros Hfuel Hwf Hsep Hsize.
  destruct (BarnesHutTree.insert fuel st body node) as [node' |] eqn:E.
  - now exists node'.
  - exfalso. revert E. now apply (insert_returns st delta d).
Qed.

Lemma insert_depth_bound_witness :
  exists node', BarnesHutTree.insert 3 store_three 1%nat root_three_1 = Some node'.
Proof.
  apply (insert_depth_bound store_three 20 2 3 1%nat root_three_1).
  - lia.
  - split; [reflexivity | apply within_bounds_three].
  - intros r Hr. destruct Hr as [<- | []]. left. simpl.
    unfold Rabs. destruct (Rcase_abs (0 - 20)); lra.
  - unfold BHNode.getSize, Rmax3, Rmax. simpl.
    repeat match goal with
           | |- context [Rle_dec ?a ?b] => destruct (Rle_dec a b)
           end; lra.
Defined.

(** ** The whole tree (BarnesHut.ts, the constructor) *)

Lemma filter_in_bounds (st : Store) (bodies : list BodyRef) (padding : R) :
  0 <= padding ->
  filter (in_box st (BarnesHutTree.calculateBounds st bodies padding)) bodies = bodies.
Proof.
  intros Hpad. apply forallb_filter_id. apply forallb_forall. intros r Hr.
  unfold in_box. apply contains_within. cbn [BHNode.new BHNode.bounds].
  now apply calculateBounds_within.
Qed.

Lemma root_not_empty (st : Store) (root : BHNode.t) (bodies : list BodyRef) :
  well_formed st root -> Permutation (bodies_of root) bodies -> bodies <> [] ->
  BHNode.isEmpty root = false.
Proof.
  intros Hwf Hperm Hne. destruct (BHNode.isEmpty root) eqn:E; [| reflexivity].
  exfalso. apply Hne. rewrite (well_formed_empty_bodies st root Hwf E) in Hperm.
  now apply Permutation_nil.
Qed.

Lemma root_aggregate (st : Store) (root : BHNode.t) (bodies : list BodyRef) :
  well_formed st root -> aggregated st root ->
  Permutation (bodies_of root) bodies -> bodies <> [] ->
  (forall r, In r bodies -> 0 < CelestialBody.mass (st r)) ->
  BHNode.totalMass root = mass_of st bodies /\
  BHNode.centerOfMass root
  = Vector3.divideScalar (weighted_positions st bodies) (mass_of st bodies).
Proof.
  intros Hwf Hagg Hperm Hne Hpos.
  pose proof (root_not_empty st root bodies Hwf Hperm Hne) as He.
  assert (Hpos' : forall r, In r (bodies_of root) -> 0 < CelestialBody.mass (st r)).
  { intros r Hr. apply Hpos. now apply (Permutation_in _ Hperm). }
  destruct (node_aggregate_weighted st root Hwf He Hpos') as [Hm Hc].
  { apply aggregated_unfold in Hagg. now apply Hagg. }
  assert (HM : mass_of st (bodies_of root) = mass_of st bodies).
  { unfold mass_of. now apply sum_over_perm. }
  assert (HW : weighted_positions st (bodies_of root) = weighted_positions st bodies).
  { unfold weighted_positions. now apply sum_vectors_perm. }
  rewrite HM in Hm. rewrite HW in Hc. split; [exact Hm |].
  assert (Hp : 0 < mass_of st bodies).
  { unfold mass_of. apply sum_over_positive; assumption. }
  rewrite <- Hc, Hm. apply vector_eq; simpl; field; lra.
Qed.

(** X18: the tree of a tick holds every body.  For bodies of positive mass
    at pairwise distinct positions, the constructor called with the box of
    [calculateBounds] (any padding that is not negative) returns, for every
    large enough recursion budget, a tree that holds each body of the list
    exactly as often as the list does and none else; for a list that is not
    empty the root carries the total mass and the centre of mass of the whole
    list. *)
Theorem tree_holds_every_body (st : Store) (bodies : list BodyRef) (padding theta : R) :
  0 <= padding ->
  (forall r, In r bodies -> 0 < CelestialBody.mass (st r)) ->
  distinct_positions st bodies ->
  exists fuel0 : nat, forall fuel, (fuel0 <= fuel)%nat ->
    exists tree,
      BarnesHutTree.new fuel st bodies (BarnesHutTree.calculateBounds st bodies padding) theta
      = Some tree /\
      BarnesHutTree.theta tree = theta /\
      Permutation (bodies_of (BarnesHutTree.root tree)) bodies /\
      (bodies <> [] ->
       BHNode.totalMass (BarnesHutTree.root tree) = mass_of st bodies /\
       BHNode.centerOfMass (BarnesHutTree.root tree)
       = Vector3.divideScalar (weighted_positions st bodies) (mass_of st bodies)).
Proof.
  intros Hpad Hpos Hdist.
  destruct (buildTree_returns st bodies (BarnesHutTree.calculateBounds st bodies padding) Hdist)
    as [fuel0 Hret].
  exists fuel0. intros fuel Hfuel. specialize (Hret fuel Hfuel).
  unfold BarnesHutTree.new.
  destruct (BarnesHutTree.buildTree fuel st bodies _) as [root |] eqn:Hbuild;
    [| contradiction].
  exists (BarnesHutTree.mk root theta). split; [reflexivity |]. split; [reflexivity |].
  destruct (buildTree_spec fuel st _ _ root Hpos Hbuild) as (Hwf & Hagg & _ & Hperm).
  rewrite filter_in_bounds in Hperm by exact Hpad.
  cbn [BarnesHutTree.root]. split; [exact Hperm |].
  intros Hne. now apply (root_aggregate st root bodies).
Qed.

Lemma tree_holds_every_body_witness :
  exists fuel0 : nat, forall fuel, (fuel0 <= fuel)%nat ->
    exists tree,
      BarnesHutTree.new fuel store_three three
        (BarnesHutTree.calculateBounds store_three three 10) 0.5 = Some tree /\
      BarnesHutTree.theta tree = 0.5 /\
      Permutation (bodies_of (BarnesHutTree.root tree)) three /\
      (three <> [] ->
       BHNode.totalMass (BarnesHutTree.root tree) = mass_of store_three three /\
       BHNode.centerOfMass (BarnesHutTree.root tree)
       = Vector3.divideScalar (weighted_positions store_three three)
           (mass_of store_three three)).
Proof.
  apply (tree_holds_every_body store_three three 10 0.5).
  - lra.
  - intros r _. apply masses_three.
  - exact distinct_three.
Defined.

(** ** The centre of mass of a cell (BarnesHut.ts, [updateCenterOfMass]) *)

Lemma weighted_between (st : Store) (c : Vector3.t -> R) (lo hi : R) (l : list BodyRef) :
  (forall v s, c (Vector3.multiplyScalar v s) = c v * s) ->
  (forall a b, c (Vector3.add a b) = c a + c b) ->
  c Vector3.zero = 0 ->
  (forall r, In r l -> 0 < CelestialBody.mass (st r) /\
                       lo <= c (CelestialBody.position (st r)) <= hi) ->
  lo * mass_of st l <= c (weighted_positions st l) <= hi * mass_of st l.
Proof.
  intros Hs Ha Hz. unfold mass_of, weighted_positions.
  induction l as [| r l IH]; intros H; simpl.
  - rewrite Hz. lra.
  - rewrite Ha, Hs.
    destruct (H r (or_introl eq_refl)) as [Hm Hr].
    specialize (IH (fun r' Hr' => H r' (or_intror Hr'))).
    nra.
Qed.

Lemma centre_within (st : Store) (n : BHNode.t) :
  well_formed st n -> BHNode.isEmpty n = false ->
  (forall r, In r (bodies_of n) -> 0 < CelestialBody.mass (st r)) ->
  node_aggregate st n ->
  within (BHNode.bounds n) (BHNode.centerOfMass n).
Proof.
  intros Hwf He Hpos Hagg.
  destruct (node_aggregate_weighted st n Hwf He Hpos Hagg) as [Hm Hc].
  assert (HM : 0 < BHNode.totalMass n).
  { rewrite Hm. unfold mass_of. apply sum_over_positive; [| exact Hpos].
    destruct (well_formed_nonempty_bodies st n Hwf He) as [r Hr].
    intros Hnil. rewrite Hnil in Hr. destruct Hr. }
  pose proof (well_formed_within st n Hwf) as Hin.
  assert (Hx := weighted_between st Vector3.x (Vector3.x (min (BHNode.bounds n)))
                  (Vector3.x (max (BHNode.bounds n))) (bodies_of n)
                  (fun _ _ => eq_refl) (fun _ _ => eq_refl) eq_refl
                  (fun r Hr => conj (Hpos r Hr) (proj1 (Hin r Hr)))).
  assert (Hy := weighted_between st Vector3.y (Vector3.y (min (BHNode.bounds n)))
                  (Vector3.y (max (BHNode.bounds n))) (bodies_of n)
                  (fun _ _ => eq_refl) (fun _ _ => eq_refl) eq_refl
                  (fun r Hr => conj (Hpos r Hr) (proj1 (proj2 (Hin r Hr))))).
  assert (Hz := weighted_between st Vector3.z (Vector3.z (min (BHNode.bounds n)))
                  (Vector3.z (max (BHNode.bounds n))) (bodies_of n)
                  (fun _ _ => eq_refl) (fun _ _ => eq_refl) eq_refl
                  (fun r Hr => conj (Hpos r Hr) (proj2 (proj2 (Hin r Hr))))).
  rewrite <- Hc, <- Hm in Hx, Hy, Hz. simpl in Hx, Hy, Hz.
  unfold within.
  repeat split; nra.
Qed.

Lemma subnode_bodies (n root : BHNode.t) (r : BodyRef) :
  subnode n root -> In r (bodies_of n) -> In r (bodies_of root).
Proof.
  induction 1 as [| c parent Hc _ IH]; intros Hr; [exact Hr |].
  destruct parent as [com tm b ch bd ie]. rewrite bodies_of_unfold.
  apply in_or_app. right. apply in_flat_map. exists (Some c).
  split; [exact Hc | exact (IH Hr)].
Qed.

Lemma built_subnode (fuel : nat) (st : Store) (bodies : list BodyRef)
  (bounds : Bounds) (root n : BHNode.t) :
  (forall r, In r bodies -> 0 < CelestialBody.mass (st r)) ->
  BarnesHutTree.buildTree fuel st bodies (BHNode.new bounds) = Some root ->
  subnode n root -> BHNode.isEmpty n = false ->
  well_formed st n /\ node_aggregate st n /\
  (forall r, In r (bodies_of n) -> 0 < CelestialBody.mass (st r)).
Proof.
  intros Hpos Hbuild Hsub He.
  destruct (buildTree_spec fuel st bodies bounds root Hpos Hbuild)
    as (Hwf & Hagg & _ & Hperm).
  destruct (subnode_invariants st n root Hsub Hwf Hagg) as [Hwfn Haggn].
  split; [exact Hwfn |]. split.
  - apply aggregated_unfold in Haggn. now apply Haggn.
  - intros r Hr. apply Hpos.
    pose proof (subnode_bodies n root r Hsub Hr) as Hr'.
    apply (Permutation_in _ Hperm) in Hr'. apply filter_In in Hr'. apply Hr'.
Qed.

Lemma buildTree_three :
  BarnesHutTree.buildTree 3 store_three three (BHNode.new bounds_three)
  = Some root_three_aggregated.
Proof.
  unfold BarnesHutTree.buildTree. rewrite insert_all_three, update_root_three. reflexivity.
Qed.

Lemma subnode_left_three : subnode left_three_aggregated root_three_aggregated.
Proof.
  apply (subnode_below _ left_three_aggregated root_three_aggregated);
    [| apply subnode_here].
  simpl. do 6 right. left. reflexivity.
Qed.

(** X20: in a tree built over bodies of positive mass, the centre of mass
    of every node that is not empty lies in the box of the node, and its total
    mass is positive. *)
Theorem centre_of_mass_in_cell (fuel : nat) (st : Store) (bodies : list BodyRef)
  (bounds : Bounds) (root n : BHNode.t) :
  (forall r, In r bodies -> 0 < CelestialBody.mass (st r)) ->
  BarnesHutTree.buildTree fuel st bodies (BHNode.new bounds) = Some root ->
  subnode n root -> BHNode.isEmpty n = false ->
  within (BHNode.bounds n) (BHNode.centerOfMass n) /\ 0 < BHNode.totalMass n.
Proof.
  intros Hpos Hbuild Hsub He.
  destruct (built_subnode fuel st bodies bounds root n Hpos Hbuild Hsub He)
    as (Hwf & Hagg & Hposn).
  split; [now apply (centre_within st) |].
  destruct (node_aggregate_weighted st n Hwf He Hposn Hagg) as [Hm _].
  rewrite Hm. unfold mass_of. apply sum_over_positive; [| exact Hposn].
  destruct (well_formed_nonempty_bodies st n Hwf He) as [r Hr].
  intros Hnil. rewrite Hnil in Hr. destruct Hr.
Qed.

Lemma centre_of_mass_in_cell_witness :
  within (BHNode.bounds left_three_aggregated) (BHNode.centerOfMass left_three_aggregated)
  /\ 0 < BHNode.totalMass left_three_aggregated.
Proof.
  apply (centre_of_mass_in_cell 3 store_three three bounds_three root_three_aggregated
           left_three_aggregated).
  - intros r _. apply masses_three.
  - exact buildTree_three.
  - exact subnode_left_three.
  - reflexivity.
Defined.

(** ** A cell that holds the query body (BarnesHut.ts, [calculateForceRecursive]) *)

Lemma length_in_box (node : BHNode.t) (p q : Vector3.t) :
  within (BHNode.bounds node) p -> within (BHNode.bounds node) q ->
  Vector3.lengthSq (Vector3.subVectors p q) <= 3 * (BHNode.getSize node * BHNode.getSize node).
Proof.
  intros Hp Hq. unfold within in Hp, Hq.
  assert (Hx : Vector3.x (max (BHNode.bounds node)) - Vector3.x (min (BHNode.bounds node))
               <= BHNode.getSize node).
  { unfold BHNode.getSize, Rmax3. eapply Rle_trans; [apply Rmax_l | apply Rmax_l]. }
  assert (Hy : Vector3.y (max (BHNode.bounds node)) - Vector3.y (min (BHNode.bounds node))
               <= BHNode.getSize node).
  { unfold BHNode.getSize, Rmax3. eapply Rle_trans; [apply Rmax_r | apply Rmax_l]. }
  assert (Hz : Vector3.z (max (BHNode.bounds node)) - Vector3.z (min (BHNode.bounds node))
               <= BHNode.getSize node).
  { unfold BHNode.getSize, Rmax3. apply Rmax_r. }
  unfold Vector3.lengthSq, Vector3.subVectors. cbn [Vector3.x Vector3.y Vector3.z].
  set (s := BHNode.getSize node) in *.
  assert (forall a b lo hi, lo <= a <= hi -> lo <= b <= hi -> hi - lo <= s ->
                            (a - b) * (a - b) <= s * s) as Hsq.
  { intros a b lo hi Ha Hb Hs. nra. }
  pose proof (Hsq _ _ _ _ (proj1 Hp) (proj1 Hq) Hx).
  pose proof (Hsq _ _ _ _ (proj1 (proj2 Hp)) (proj1 (proj2 Hq)) Hy).
  pose proof (Hsq _ _ _ _ (proj2 (proj2 Hp)) (proj2 (proj2 Hq)) Hz).
  lra.
Qed.

(** X21: with theta at most 0.5 (the default), a body is never pulled by
    an aggregate that includes itself.  In a tree built over bodies of positive
    mass, an internal node that holds the query body never passes the opening
    test [s / d < theta]: the traversal either returns at once (centre of mass
    within 0.001 of the body) or goes on into the children. *)
Theorem own_cell_is_opened (fuel : nat) (st : Store) (bodies : list BodyRef)
  (bounds : Bounds) (root n : BHNode.t) (theta : R) (body : BodyRef) (G : R)
  (force : Vector3.t) :
  (forall r, In r bodies -> 0 < CelestialBody.mass (st r)) ->
  BarnesHutTree.buildTree fuel st bodies (BHNode.new bounds) = Some root ->
  subnode n root -> BHNode.isEmpty n = false -> BHNode.body n = None ->
  In body (bodies_of n) ->
  theta <= 0.5 ->
  BarnesHutTree.calculateForceRecursive st theta body n G force
  = if Rltb (Vector3.length
               (Vector3.subVectors (BHNode.centerOfMass n)
                  (CelestialBody.position (st body)))) 0.001
    then force
    else force_of_children st theta body G (BHNode.children n) force.
Proof.
  intros Hpos Hbuild Hsub He Hb Hin Htheta.
  destruct (built_subnode fuel st bodies bounds root n Hpos Hbuild Hsub He)
    as (Hwf & Hagg & Hposn).
  pose proof (centre_within st n Hwf He Hposn Hagg) as Hc.
  pose proof (well_formed_within st n Hwf body Hin) as Hp.
  pose proof (length_in_box n _ _ Hc Hp) as Hlen.
  pose proof (getSize_nonneg n _ Hp) as Hs.
  destruct n as [com tm b ch bd ie].
  cbn [BHNode.isEmpty BHNode.body BHNode.centerOfMass BHNode.children] in *. subst ie b.
  cbn [BarnesHutTree.calculateForceRecursive].
  unfold BarnesHutTree.body_is, BarnesHutTree.has_body. cbn [BHNode.body].
  set (direction := Vector3.subVectors com (CelestialBody.position (st body))) in *.
  destruct (Rltb (Vector3.length direction) 0.001) eqn:Hd; [reflexivity |].
  apply Rltb_false_inv in Hd.
  rewrite Rltb_false; [reflexivity |].
  set (s := BHNode.getSize _) in *.
  pose proof (length_sq direction) as Hsq.
  set (d := Vector3.length direction) in *.
  destruct (Rle_dec theta (s / d)) as [Hle | Hgt]; [exact Hle |]. exfalso.
  assert (Hlt : s / d < 0.5) by lra.
  assert (Hsd : s < 0.5 * d).
  { apply (Rmult_lt_compat_r d) in Hlt; [| lra].
    unfold Rdiv in Hlt. rewrite Rmult_assoc, Rinv_l, Rmult_1_r in Hlt by lra. exact Hlt. }
  nra.
Qed.

Lemma own_cell_is_opened_witness :
  BarnesHutTree.calculateForceRecursive store_three 0.5 0%nat left_three_aggregated 1
    Vector3.zero
  = if Rltb (Vector3.length
               (Vector3.subVectors (BHNode.centerOfMass left_three_aggregated)
                  (CelestialBody.position (store_three 0%nat)))) 0.001
    then Vector3.zero
    else force_of_children store_three 0.5 0%nat 1
           (BHNode.children left_three_aggregated) Vector3.zero.
Proof.
  apply (own_cell_is_opened 3 store_three three bounds_three root_three_aggregated
           left_three_aggregated 0.5 0%nat 1 Vector3.zero).
  - intros r _. apply masses_three.
  - exact buildTree_three.
  - exact subnode_left_three.
  - reflexivity.
  - reflexivity.
  - simpl. right. left. reflexivity.
  - lra.
Defined.

(** ** What a tick reads (Physics.ts, [update], and the functions it calls) *)

Lemma list_set_bodies (l : list (option BHNode.t)) (k : nat) (x : option BHNode.t)
  (r : BodyRef) :
  In r (flat_map slot_bodies (BHNode.list_set l k x)) ->
  In r (slot_bodies x) \/ In r (flat_map slot_bodies l).
Proof.
  revert k. induction l as [| a l IH]; intros k H; [destruct H |].
  destruct k as [| k]; simpl in H; apply in_app_or in H.
  - destruct H as [H | H]; [now left |]. right. simpl. apply in_or_app. now right.
  - destruct H as [H | H].
    + right. simpl. apply in_or_app. now left.
    + destruct (IH k H) as [H' | H']; [now left |].
      right. simpl. apply in_or_app. now right.
Qed.

Lemma child_or_create_bodies (node : BHNode.t) (k : nat) (r : BodyRef) :
  In r (bodies_of (BarnesHutTree.child_or_create node k)) ->
  In r (flat_map slot_bodies (BHNode.children node)).
Proof.
  unfold BarnesHutTree.child_or_create, BHNode.child.
  destruct (nth k (BHNode.children node) None) as [c |] eqn:E.
  - intros H. apply in_flat_map. exists (Some c). split; [| exact H].
    rewrite <- E. apply nth_In.
    destruct (Nat.lt_ge_cases k (length (BHNode.children node))) as [Hlt | Hge];
      [exact Hlt |].
    rewrite nth_overflow in E by exact Hge. discriminate.
  - rewrite createChild_bodies. intros [].
Qed.

Lemma children_bodies (node : BHNode.t) (r : BodyRef) :
  In r (flat_map slot_bodies (BHNode.children node)) -> In r (bodies_of node).
Proof.
  destruct node as [com tm b ch bd ie]. rewrite bodies_of_unfold. cbn [BHNode.children].
  intros H. apply in_or_app. now right.
Qed.

Lemma insert_bodies_incl (st : Store) (fuel : nat) :
  forall (body : BodyRef) (node node' : BHNode.t),
    BarnesHutTree.insert fuel st body node = Some node' ->
    forall r, In r (bodies_of node') -> r = body \/ In r (bodies_of node).
Proof.
  induction fuel as [| fuel IH]; intros body node node' Hins r Hr; [discriminate |].
  cbn [BarnesHutTree.insert] in Hins.
  destruct (negb _).
  { injection Hins as <-. now right. }
  destruct (BHNode.isEmpty node).
  { injection Hins as <-. destruct node as [com tm b ch bd ie].
    unfold BarnesHutTree.store_body in Hr. rewrite bodies_of_unfold in Hr.
    cbn [BHNode.children] in Hr. apply in_app_or in Hr.
    destruct Hr as [[<- | []] | Hr]; [now left |].
    right. rewrite bodies_of_unfold. apply in_or_app. now right. }
  destruct (BHNode.body node) as [existingBody |] eqn:Hb.
  - set (node1 := BarnesHutTree.clear_body node) in *.
    set (k := BHNode.getOctant node1 _) in *.
    destruct (BarnesHutTree.insert fuel st existingBody _) as [c |] eqn:H1; [| discriminate].
    set (node2 := BHNode.set_child node1 k c) in *.
    set (k' := BHNode.getOctant node2 _) in *.
    destruct (BarnesHutTree.insert fuel st body _) as [c' |] eqn:H2; [| discriminate].
    injection Hins as <-.
    assert (Hex : In existingBody (bodies_of node)).
    { destruct node as [com tm b ch bd ie]. cbn [BHNode.body] in Hb. subst b.
      rewrite bodies_of_unfold. now left. }
    assert (Hc : forall x, In x (bodies_of c) -> In x (bodies_of node)).
    { intros x Hx. destruct (IH _ _ _ H1 x Hx) as [-> | Hx']; [exact Hex |].
      apply child_or_create_bodies in Hx'. apply children_bodies.
      destruct node; exact Hx'. }
    assert (H2' : forall x, In x (flat_map slot_bodies (BHNode.children node2)) ->
                            In x (bodies_of node)).
    { intros x Hx. unfold node2 in Hx. cbn [BHNode.set_child BHNode.children] in Hx.
      apply list_set_bodies in Hx. destruct Hx as [Hx | Hx]; [now apply Hc |].
      apply children_bodies. destruct node; exact Hx. }
    unfold BHNode.set_child in Hr. rewrite bodies_of_unfold in Hr.
    cbn [BHNode.body node2 node1 BarnesHutTree.clear_body BHNode.set_child] in Hr.
    cbn [app] in Hr. apply list_set_bodies in Hr. destruct Hr as [Hr | Hr].
    + destruct (IH _ _ _ H2 r Hr) as [-> | Hr']; [now left |].
      right. apply H2'. now apply child_or_create_bodies in Hr'.
    + right. now apply H2'.
  - set (k := BHNode.getOctant node _) in *.
    destruct (BarnesHutTree.insert fuel st body _) as [c |] eqn:H1; [| discriminate].
    injection Hins as <-.
    unfold BHNode.set_child in Hr. rewrite bodies_of_unfold in Hr. rewrite Hb in Hr.
    cbn [app] in Hr. apply list_set_bodies in Hr. destruct Hr as [Hr | Hr].
    + destruct (IH _ _ _ H1 r Hr) as [-> | Hr']; [now left |].
      right. apply children_bodies. now apply child_or_create_bodies in Hr'.
    + right. now apply children_bodies.
Qed.

Lemma insert_local (st st' : Store) (fuel : nat) :
  forall (body : BodyRef) (node : BHNode.t),
    st body = st' body -> agree_on (bodies_of node) st st' ->
    BarnesHutTree.insert fuel st body node = BarnesHutTree.insert fuel st' body node.
Proof.
  induction fuel as [| fuel IH]; intros body node Hbody Hnode; [reflexivity |].
  cbn [BarnesHutTree.insert]. rewrite <- Hbody.
  destruct (negb _); [reflexivity |].
  destruct (BHNode.isEmpty node).
  { unfold BarnesHutTree.store_body. rewrite Hbody. reflexivity. }
  assert (Hch : forall k x, In x (bodies_of (BarnesHutTree.child_or_create node k)) ->
                            st x = st' x).
  { intros k x Hx. apply Hnode. apply children_bodies.
    now apply child_or_create_bodies in Hx. }
  destruct (BHNode.body node) as [existingBody |] eqn:Hb.
  - assert (Hex : st existingBody = st' existingBody).
    { apply Hnode. destruct node as [com tm b ch bd ie]. cbn [BHNode.body] in Hb. subst b.
      rewrite bodies_of_unfold. now left. }
    rewrite <- Hex.
    set (node1 := BarnesHutTree.clear_body node).
    set (k := BHNode.getOctant node1 _).
    assert (H1 : forall x, In x (bodies_of (BarnesHutTree.child_or_create node1 k)) ->
                           st x = st' x).
    { intros x Hx. apply Hnode. apply children_bodies.
      apply child_or_create_bodies in Hx. destruct node; exact Hx. }
    rewrite <- (IH existingBody _ Hex H1).
    destruct (BarnesHutTree.insert fuel st existingBody _) as [c |] eqn:E1; [| reflexivity].
    set (node2 := BHNode.set_child node1 k c).
    set (k' := BHNode.getOctant node2 _).
    rewrite <- (IH body _ Hbody); [reflexivity |].
    intros x Hx. apply child_or_create_bodies in Hx.
    unfold node2 in Hx. cbn [BHNode.set_child BHNode.children] in Hx.
    apply list_set_bodies in Hx. destruct Hx as [Hx | Hx].
    + destruct (insert_bodies_incl st fuel _ _ _ E1 x Hx) as [-> | Hx']; [exact Hex |].
      now apply H1.
    + apply Hnode. apply children_bodies. destruct node; exact Hx.
  - rewrite <- (IH body _ Hbody (Hch _)). reflexivity.
Qed.

Lemma insert_all_local (st st' : Store) (fuel : nat) (bodies : list BodyRef) :
  agree_on bodies st st' ->
  forall root, agree_on (bodies_of root) st st' ->
    BarnesHutTree.insert_all fuel st bodies root
    = BarnesHutTree.insert_all fuel st' bodies root
    /\ forall root', BarnesHutTree.insert_all fuel st bodies root = Some root' ->
         agree_on (bodies_of root') st st'.
Proof.
  induction bodies as [| body rest IH]; intros Hl root Hroot.
  - split; [reflexivity |]. intros root' [= <-]. exact Hroot.
  - cbn [BarnesHutTree.insert_all].
    rewrite <- (insert_local st st' fuel body root (Hl body (or_introl eq_refl)) Hroot).
    destruct (BarnesHutTree.insert fuel st body root) as [root1 |] eqn:E.
    + apply IH.
      * intros r Hr. apply Hl. now right.
      * intros r Hr. destruct (insert_bodies_incl st fuel _ _ _ E r Hr) as [-> | Hr'].
        -- apply Hl. now left.
        -- now apply Hroot.
    + split; [reflexivity | discriminate].
Qed.

Lemma updateCenterOfMass_local (st st' : Store) (node : BHNode.t) :
  agree_on (bodies_of node) st st' ->
  BarnesHutTree.updateCenterOfMass st node = BarnesHutTree.updateCenterOfMass st' node.
Proof.
  induction node as [com tm b ch bd ie IH] using BHNode_induction. intros Hag.
  cbn [BarnesHutTree.updateCenterOfMass].
  destruct ie; [reflexivity |].
  destruct b as [body |].
  { rewrite (Hag body) by (rewrite bodies_of_unfold; now left). reflexivity. }
  match goal with
  | |- context [fold_left ?f ch ?a] =>
    match goal with
    | |- context [fold_left ?f' ch a] =>
      assert (Hfold : fold_left f ch a = fold_left f' ch a); [| rewrite Hfold; reflexivity]
    end
  end.
  apply fold_left_ext_Forall.
  rewrite Forall_forall in IH. apply Forall_forall.
  intros [child |] Hin acc; [| reflexivity].
  rewrite (IH (Some child) Hin); [reflexivity |].
  intros r Hr. apply Hag. rewrite bodies_of_unfold. cbn [app].
  apply in_flat_map. exists (Some child). split; [exact Hin | exact Hr].
Qed.

Lemma calculateBounds_local (st st' : Store) (bodies : list BodyRef) (padding : R) :
  agree_on bodies st st' ->
  BarnesHutTree.calculateBounds st bodies padding
  = BarnesHutTree.calculateBounds st' bodies padding.
Proof.
  intros Hag. unfold BarnesHutTree.calculateBounds.
  destruct bodies as [| first rest]; [reflexivity |].
  rewrite (Hag first) by now left.
  assert (Hfold : forall l e, incl l (first :: rest) ->
             fold_left (BarnesHutTree.extend st) l e
             = fold_left (BarnesHutTree.extend st') l e).
  { induction l as [| a l IHl]; intros e Hincl; [reflexivity |].
    simpl. rewrite IHl by (intros x Hx; apply Hincl; now right).
    f_equal. unfold BarnesHutTree.extend.
    rewrite (Hag a) by (apply Hincl; now left). reflexivity. }
  rewrite Hfold by apply incl_refl. reflexivity.
Qed.

Lemma tick_tree_local (fuel : nat) (this : PhysicsEngine.t) (st st' : Store) :
  agree_on (PhysicsEngine.bodies this) st st' ->
  PhysicsEngine.tick_tree fuel this st = PhysicsEngine.tick_tree fuel this st'.
Proof.
  intros Hag. unfold PhysicsEngine.tick_tree, BarnesHutTree.new, BarnesHutTree.buildTree.
  destruct (_ && _); [| reflexivity].
  rewrite (calculateBounds_local st st' _ 10 Hag).
  destruct (insert_all_local st st' fuel (PhysicsEngine.bodies this) Hag
              (BHNode.new (BarnesHutTree.calculateBounds st' (PhysicsEngine.bodies this) 10)))
    as [Heq Hroot].
  { intros r []. }
  rewrite <- Heq.
  destruct (BarnesHutTree.insert_all fuel st _ _) as [root |]; [| reflexivity].
  rewrite (updateCenterOfMass_local st st' root (Hroot root eq_refl)). reflexivity.
Qed.

Lemma calculateForceRecursive_local (st st' : Store) (theta : R) (body : BodyRef)
  (node : BHNode.t) (G : R) (force : Vector3.t) :
  st body = st' body ->
  BarnesHutTree.calculateForceRecursive st theta body node G force
  = BarnesHutTree.calculateForceRecursive st' theta body node G force.
Proof.
  intros Hbody. revert force.
  induction node as [com tm b ch bd ie IH] using BHNode_induction. intros force.
  cbn [BarnesHutTree.calculateForceRecursive].
  rewrite Hbody.
  destruct ie; [reflexivity |].
  destruct (BarnesHutTree.body_is _ body); [reflexivity |].
  destruct (Rltb _ 0.001); [reflexivity |].
  destruct (_ || _); [reflexivity |].
  apply fold_left_ext_Forall.
  eapply Forall_impl; [| exact IH].
  intros [child |] Hc acc; [| reflexivity].
  simpl in Hc. rewrite Hc. reflexivity.
Qed.

Lemma calculateTotalForce_local (this : PhysicsEngine.t) (st st' : Store)
  (body : BodyRef) (g : Rng) :
  st body = st' body -> agree_on (PhysicsEngine.bodies this) st st' ->
  PhysicsEngine.calculateTotalForce this st body g
  = PhysicsEngine.calculateTotalForce this st' body g.
Proof.
  intros Hbody Hag. unfold PhysicsEngine.calculateTotalForce.
  apply fold_left_ext_Forall. apply Forall_forall. intros otherBody Hin [totalForce g0].
  destruct (Nat.eqb otherBody body); [reflexivity |].
  rewrite Hbody, (Hag otherBody Hin). reflexivity.
Qed.

Lemma force_pass_local (this : PhysicsEngine.t) (tree : option BarnesHutTree.t)
  (st st' : Store) (g : Rng) :
  agree_on (PhysicsEngine.bodies this) st st' ->
  PhysicsEngine.force_pass this tree st g = PhysicsEngine.force_pass this tree st' g.
Proof.
  intros Hag. unfold PhysicsEngine.force_pass.
  apply fold_left_ext_Forall. apply Forall_forall. intros body Hin [forces g0].
  destruct tree as [tree |].
  - unfold BarnesHutTree.calculateForce.
    rewrite (calculateForceRecursive_local st st' _ body _ _ _ (Hag body Hin)). reflexivity.
  - rewrite (calculateTotalForce_local this st st' body g0 (Hag body Hin) Hag). reflexivity.
Qed.

Lemma fold_left_agree (step : Store -> BodyRef -> Store) (L : list BodyRef) :
  (forall st st' body, In body L -> agree_on L st st' ->
     agree_on L (step st body) (step st' body)) ->
  forall l st st', incl l L -> agree_on L st st' ->
    agree_on L (fold_left step l st) (fold_left step l st').
Proof.
  intros Hstep. induction l as [| a l IH]; intros st st' Hincl Hag; [exact Hag |].
  cbn [fold_left]. apply IH.
  - intros x Hx. apply Hincl. now right.
  - apply Hstep; [apply Hincl; now left | exact Hag].
Qed.

Lemma velocity_pass_local (this : PhysicsEngine.t) (forces : PhysicsEngine.ForceMap)
  (deltaTime : R) (st st' : Store) :
  agree_on (PhysicsEngine.bodies this) st st' ->
  agree_on (PhysicsEngine.bodies this)
    (PhysicsEngine.velocity_pass this forces deltaTime st)
    (PhysicsEngine.velocity_pass this forces deltaTime st').
Proof.
  intros Hag. unfold PhysicsEngine.velocity_pass.
  apply fold_left_agree; [| apply incl_refl | exact Hag].
  intros s s' body Hb Hs. rewrite <- (Hs body Hb).
  destruct (CelestialBody.isStatic (s body)); [exact Hs |].
  intros r Hr. unfold velocity_add. rewrite <- (Hs body Hb).
  destruct (Nat.eqb r body); [reflexivity | now apply Hs].
Qed.

Lemma position_pass_local (this : PhysicsEngine.t) (deltaTime : R) (st st' : Store) :
  agree_on (PhysicsEngine.bodies this) st st' ->
  agree_on (PhysicsEngine.bodies this)
    (PhysicsEngine.position_pass this deltaTime st)
    (PhysicsEngine.position_pass this deltaTime st').
Proof.
  intros Hag. unfold PhysicsEngine.position_pass.
  apply fold_left_agree; [| apply incl_refl | exact Hag].
  intros s s' body Hb Hs. rewrite <- (Hs body Hb).
  destruct (CelestialBody.isStatic (s body)); [exact Hs |].
  intros r Hr. unfold position_add. rewrite <- (Hs body Hb).
  destruct (Nat.eqb r body); [reflexivity | now apply Hs].
Qed.

(** X22: a tick reads the registered bodies only.  Run from two stores
    that give every registered body the same state, with the same random
    source, [update] either returns in both cases or in neither, and when it
    returns the registered bodies end in the same state and the random source
    is the same: a body that is not registered (one that was removed, say)
    has no influence on the others, in both force modes. *)
Theorem update_reads_registered_bodies
  (fuel : nat) (this : PhysicsEngine.t) (deltaTime : R) (st st' : Store) (g : Rng) :
  agree_on (PhysicsEngine.bodies this) st st' ->
  match PhysicsEngine.update fuel this deltaTime (mkWorld st g),
        PhysicsEngine.update fuel this deltaTime (mkWorld st' g) with
  | Some w, Some w' =>
    agree_on (PhysicsEngine.bodies this) (store w) (store w') /\ rng w = rng w'
  | None, None => True
  | _, _ => False
  end.
Proof.
  intros Hag. unfold PhysicsEngine.update. cbn [store rng].
  rewrite <- (tick_tree_local fuel this st st' Hag).
  destruct (PhysicsEngine.tick_tree fuel this st) as [tree |]; [| exact I].
  rewrite <- (force_pass_local this tree st st' g Hag).
  destruct (PhysicsEngine.force_pass this tree st g) as [forces g1].
  cbn [store rng]. split; [| reflexivity].
  apply position_pass_local. now apply velocity_pass_local.
Qed.

Lemma update_reads_registered_bodies_witness :
  match PhysicsEngine.update 0 (engine_G1 [0%nat; 1%nat]) 0.1
          (mkWorld store_star_planet rng_zero),
        PhysicsEngine.update 0 (engine_G1 [0%nat; 1%nat]) 0.1
          (mkWorld store_with_moon rng_zero) with
  | Some w, Some w' => agree_on [0%nat; 1%nat] (store w) (store w') /\ rng w = rng w'
  | None, None => True
  | _, _ => False
  end.
Proof.
  apply (update_reads_registered_bodies 0 (engine_G1 [0%nat; 1%nat]) 0.1
           store_star_planet store_with_moon rng_zero).
  intros r Hr. destruct Hr as [<- | [<- | []]]; reflexivity.
Defined.

(** ** The registry and the total force (Physics.ts, [removeBody] and [calculateTotalForce]) *)

Lemma others_app (body : BodyRef) (l l' : list BodyRef) :
  others body (l ++ l') = others body l ++ others body l'.
Proof. unfold others. apply filter_app. Qed.

(** X23: the forces superpose.  When a registered body [r] is removed, the
    total force on another body loses exactly the force [r] exerted on it:
    the total force before the removal is the total force after it plus
    [calculateGravityForce(body, r)] (all bodies being at squared distance at
    least 0.001 from [body]). *)
Theorem removeBody_total_force (this : PhysicsEngine.t) (st : Store) (body r : BodyRef)
  (g : Rng) :
  In r (PhysicsEngine.bodies this) -> r <> body ->
  (forall r', In r' (PhysicsEngine.bodies this) -> r' <> body ->
     0.001 <= Vector3.distanceToSquared (CelestialBody.position (st body))
                (CelestialBody.position (st r'))) ->
  fst (PhysicsEngine.calculateTotalForce this st body g)
  = Vector3.add
      (fst (PhysicsEngine.calculateTotalForce (PhysicsEngine.removeBody this r) st body g))
      (fst (PhysicsEngine.calculateGravityForce this (st body) (st r) g)).
Proof.
  intros Hin Hne Hfar.
  assert (Hfar' : forall r', In r' (PhysicsEngine.bodies this) -> r' <> body ->
            0.001 <= Vector3.lengthSq
                       (Vector3.subVectors (CelestialBody.position (st r'))
                          (CelestialBody.position (st body)))).
  { intros r' Hr' Hne'. rewrite lengthSq_opposite. now apply Hfar. }
  destruct (indexOf_present _ _ Hin) as (l1 & l2 & Hl & _ & Hi).
  unfold PhysicsEngine.removeBody. rewrite Hi.
  rewrite (gravity_far_point_mass this (st body) (st r) g (Hfar' r Hin Hne)).
  rewrite !calculateTotalForce_far.
  - cbn [fst PhysicsEngine.bodies PhysicsEngine.G]. rewrite Hl, splice_one.
    rewrite !others_app. unfold others at 2. cbn [filter].
    destruct (Nat.eqb_spec r body) as [E | _]; [contradiction |]. cbn [negb].
    fold (others body l2). rewrite !sum_vectors_app. cbn [sum_vectors fold_right].
    fold (sum_vectors (others body l2) (pair_force (PhysicsEngine.G this) st body)).
    unfold pair_force at 2.
    apply vector_eq; simpl; ring.
  - cbn [PhysicsEngine.bodies]. rewrite Hl, splice_one. intros r' Hr' Hne'.
    apply Hfar'; [| exact Hne']. rewrite Hl. apply in_app_or in Hr'.
    apply in_or_app. destruct Hr' as [H | H]; [now left | right; now right].
  - exact Hfar'.
Qed.

Lemma removeBody_total_force_witness :
  fst (PhysicsEngine.calculateTotalForce (engine_G1 three) store_three 0%nat rng_zero)
  = Vector3.add
      (fst (PhysicsEngine.calculateTotalForce
              (PhysicsEngine.removeBody (engine_G1 three) 2%nat) store_three 0%nat rng_zero))
      (fst (PhysicsEngine.calculateGravityForce (engine_G1 three)
              (store_three 0%nat) (store_three 2%nat) rng_zero)).
Proof.
  apply (removeBody_total_force (engine_G1 three) store_three 0%nat 2%nat rng_zero).
  - simpl. tauto.
  - lia.
  - intros r' Hr' Hne. apply no_jitter_three; [now left | exact Hr' |].
    intros H. apply Hne. now symmetry.
Defined.

(** ** The far field (BarnesHut.ts, [calculateForce]) *)

(** X19: seen from far enough, the whole system is one point mass.  On
    the tree built over bodies of positive mass with the box of
    [calculateBounds], when the size of the root box divided by the distance
    from the query body to the centre of mass of the list is below theta (and
    the distance is at least 0.001, and the list is not the query body alone),
    [calculateForce] returns the pull of one point mass, the total mass of the
    list placed at its centre of mass, and visits no child. *)
Theorem far_field_point_mass (fuel : nat) (st : Store) (bodies : list BodyRef)
  (padding theta : R) (tree : BarnesHutTree.t) (body : BodyRef) (G : R) :
  let bounds := BarnesHutTree.calculateBounds st bodies padding in
  let centre := Vector3.divideScalar (weighted_positions st bodies) (mass_of st bodies) in
  let direction := Vector3.subVectors centre (CelestialBody.position (st body)) in
  0 <= padding ->
  (forall r, In r bodies -> 0 < CelestialBody.mass (st r)) ->
  bodies <> [] -> bodies <> [body] ->
  BarnesHutTree.new fuel st bodies bounds theta = Some tree ->
  0.001 <= Vector3.length direction ->
  BHNode.getSize (BHNode.new bounds) / Vector3.length direction < theta ->
  BarnesHutTree.calculateForce tree st body G
  = point_mass_force G (CelestialBody.mass (st body)) (mass_of st bodies) direction.
Proof.
  intros bounds centre direction Hpad Hpos Hne Hnb Hnew Hd Hratio.
  unfold BarnesHutTree.new in Hnew.
  destruct (BarnesHutTree.buildTree fuel st bodies _) as [root |] eqn:Hbuild;
    [| discriminate].
  injection Hnew as <-.
  destruct (buildTree_spec fuel st _ _ root Hpos Hbuild) as (Hwf & Hagg & Hbd & Hperm).
  fold bounds in Hperm, Hbd. unfold bounds in Hperm.
  rewrite filter_in_bounds in Hperm by exact Hpad.
  destruct (root_aggregate st root bodies Hwf Hagg Hperm Hne Hpos) as [Hm Hc].
  pose proof (root_not_empty st root bodies Hwf Hperm Hne) as He.
  unfold BarnesHutTree.calculateForce. cbn [BarnesHutTree.root BarnesHutTree.theta].
  assert (Hself : BarnesHutTree.body_is root body = false).
  { unfold BarnesHutTree.body_is.
    destruct (BHNode.body root) as [b |] eqn:Hb; [| reflexivity].
    apply Nat.eqb_neq. intros ->. apply Hnb.
    rewrite (well_formed_leaf_bodies st root body Hwf He Hb) in Hperm.
    now apply Permutation_length_1_inv in Hperm. }
  destruct root as [com tm b ch bd ie].
  cbn [BHNode.isEmpty BHNode.totalMass BHNode.centerOfMass BHNode.bounds] in *.
  subst ie com tm bd.
  rewrite force_point_mass.
  - fold centre. fold direction. apply add_zero_l.
  - exact Hself.
  - fold centre. fold direction. exact Hd.
  - fold centre. fold direction. apply orb_true_iff. left. apply Rltb_true.
    exact Hratio.
Qed.

Lemma agree_three_far : agree_on three store_far store_three.
Proof. intros r Hr. destruct Hr as [<- | [<- | [<- | []]]]; reflexivity. Qed.

Lemma bounds_three_far :
  BarnesHutTree.calculateBounds store_far three 10 = bounds_three.
Proof.
  rewrite (calculateBounds_local store_far store_three three 10 agree_three_far).
  apply calculateBounds_three.
Qed.

Lemma far_tree_built :
  BarnesHutTree.new 3 store_far three (BarnesHutTree.calculateBounds store_far three 10) 0.5
  = Some tree_three_default.
Proof.
  rewrite bounds_three_far. unfold BarnesHutTree.new, BarnesHutTree.buildTree.
  destruct (insert_all_local store_far store_three 3 three agree_three_far
              (BHNode.new bounds_three)) as [Heq Hroot]; [intros r [] |].
  rewrite Heq, insert_all_three in Hroot. rewrite Heq, insert_all_three.
  rewrite (updateCenterOfMass_local store_far store_three root_three_3
             (Hroot root_three_3 eq_refl)).
  rewrite update_root_three. reflexivity.
Qed.

Lemma far_direction :
  Vector3.subVectors
    (Vector3.divideScalar (weighted_positions store_far three) (mass_of store_far three))
    (CelestialBody.position (store_far 3%nat))
  = Vector3.mk (-200) 0 0.
Proof.
  unfold weighted_positions, mass_of, sum_vectors, sum_over, three.
  apply vector_eq; simpl; field.
Qed.

Lemma size_bounds_three : BHNode.getSize (BHNode.new bounds_three) = 50.
Proof.
  unfold BHNode.getSize, Rmax3.
  cbn [BHNode.new BHNode.bounds bounds_three min max Vector3.x Vector3.y Vector3.z].
  rewrite (Rmax_left' (30 - -20) (10 - -10)) by lra.
  rewrite Rmax_left' by lra. lra.
Qed.

Lemma distinct_diagonal : distinct_positions store_diagonal three.
Proof.
  unfold distinct_positions, three.
  repeat constructor; intros H;
    first [ apply (f_equal Vector3.x) in H; simpl in H; lra
          | apply (f_equal Vector3.y) in H; simpl in H; lra ].
Qed.

Lemma bounds_diagonal :
  BarnesHutTree.calculateBounds store_diagonal three 10
  = mkBounds (Vector3.mk (-10) (-10) (-10)) (Vector3.mk 110 110 110).
Proof.
  unfold BarnesHutTree.calculateBounds, three.
  cbn [fold_left BarnesHutTree.extend store_diagonal body_at CelestialBody.position
       Vector3.x Vector3.y Vector3.z BarnesHutTree.minX BarnesHutTree.minY
       BarnesHutTree.minZ BarnesHutTree.maxX BarnesHutTree.maxY BarnesHutTree.maxZ].
  repeat match goal with
         | |- context [Rmin ?a ?b] =>
           first [ rewrite (Rmin_left a b) by lra | rewrite (Rmin_right a b) by lra ]
         | |- context [Rmax ?a ?b] =>
           first [ rewrite (Rmax_left a b) by lra | rewrite (Rmax_right a b) by lra ]
         end.
  f_equal; f_equal; lra.
Qed.

Lemma size_diagonal :
  BHNode.getSize (BHNode.new (BarnesHutTree.calculateBounds store_diagonal three 10)) = 120.
Proof.
  rewrite bounds_diagonal. unfold BHNode.getSize, Rmax3.
  cbn [BHNode.new BHNode.bounds min max Vector3.x Vector3.y Vector3.z].
  rewrite (Rmax_left' (110 - -10) (110 - -10)) by lra.
  rewrite Rmax_left' by lra. lra.
Qed.

Lemma direction_diagonal :
  Vector3.subVectors
    (Vector3.divideScalar (weighted_positions store_diagonal three)
       (mass_of store_diagonal three))
    (CelestialBody.position (store_diagonal 1%nat))
  = Vector3.mk (-98) (-99) (-99).
Proof.
  unfold weighted_positions, mass_of, sum_vectors, sum_over, three.
  apply vector_eq; simpl; field.
Qed.

Lemma length_diagonal : 120 < Vector3.length (Vector3.mk (-98) (-99) (-99)).
Proof.
  unfold Vector3.length, Vector3.lengthSq. simpl.
  rewrite <- (sqrt_square 120) at 1 by lra.
  apply sqrt_lt_1; lra.
Qed.

Lemma tree_diagonal_built :
  exists fuel tree,
    BarnesHutTree.new fuel store_diagonal three
      (BarnesHutTree.calculateBounds store_diagonal three 10) 1 = Some tree.
Proof.
  destruct (buildTree_returns store_diagonal three
              (BarnesHutTree.calculateBounds store_diagonal three 10) distinct_diagonal)
    as [fuel0 Hfuel0].
  exists fuel0. unfold BarnesHutTree.new.
  specialize (Hfuel0 fuel0 (le_n fuel0)).
  destruct (BarnesHutTree.buildTree fuel0 store_diagonal three _) as [root |];
    [eexists; reflexivity | contradiction].
Qed.

Lemma far_field_point_mass_witness :
  BarnesHutTree.calculateForce tree_three_default store_far 3%nat 1
  = point_mass_force 1 (CelestialBody.mass (store_far 3%nat)) (mass_of store_far three)
      (Vector3.subVectors
         (Vector3.divideScalar (weighted_positions store_far three)
            (mass_of store_far three))
         (CelestialBody.position (store_far 3%nat)))
  /\
  exists fuel tree,
    BarnesHutTree.new fuel store_diagonal three
      (BarnesHutTree.calculateBounds store_diagonal three 10) 1 = Some tree
    /\ BarnesHutTree.calculateForce tree store_diagonal 1%nat 1
       = point_mass_force 1 (CelestialBody.mass (store_diagonal 1%nat))
           (mass_of store_diagonal three)
           (Vector3.subVectors
              (Vector3.divideScalar (weighted_positions store_diagonal three)
                 (mass_of store_diagonal three))
              (CelestialBody.position (store_diagonal 1%nat))).
Proof.
  split.
  - apply (far_field_point_mass 3 store_far three 10 0.5 tree_three_default 3%nat 1).
    + lra.
    + intros r Hr. destruct Hr as [<- | [<- | [<- | []]]]; simpl; lra.
    + discriminate.
    + discriminate.
    + exact far_tree_built.
    + rewrite far_direction, length_axis.
      replace (Rabs (-200)) with 200 by (unfold Rabs; destruct (Rcase_abs (-200)); lra).
      lra.
    + rewrite bounds_three_far, size_bounds_three, far_direction, length_axis.
      replace (Rabs (-200)) with 200 by (unfold Rabs; destruct (Rcase_abs (-200)); lra).
      lra.
  - destruct tree_diagonal_built as [fuel [tree Htree]].
    exists fuel, tree. split; [exact Htree |].
    apply (far_field_point_mass fuel store_diagonal three 10 1 tree 1%nat 1).
    + lra.
    + intros r Hr. destruct Hr as [<- | [<- | [<- | []]]]; simpl; lra.
    + discriminate.
    + discriminate.
    + exact Htree.
    + rewrite direction_diagonal. pose proof length_diagonal. lra.
    + rewrite size_diagonal, direction_diagonal.
      pose proof length_diagonal as Hl.
      apply (Rmult_lt_reg_r (Vector3.length (Vector3.mk (-98) (-99) (-99)))); [lra |].
      unfold Rdiv. rewrite Rmult_assoc, Rinv_l by lra. lra.
Defined.

(** ** A static body as a force source (Physics.ts, [update]) *)

(** A larger recursion budget changes nothing once the insertion returns. *)
Lemma insert_more_fuel (st : Store) (fuel : nat) :
  forall (body : BodyRef) (node node' : BHNode.t),
    BarnesHutTree.insert fuel st body node = Some node' ->
    forall k, BarnesHutTree.insert (fuel + k) st body node = Some node'.
Proof.
  induction fuel as [| fuel IH]; intros body node node' H k; [discriminate |].
  cbn [Nat.add BarnesHutTree.insert] in *.
  destruct (negb _); [exact H |].
  destruct (BHNode.isEmpty node); [exact H |].
  destruct (BHNode.body node) as [existingBody |].
  - destruct (BarnesHutTree.insert fuel st existingBody _) as [c |] eqn:E1; [| discriminate].
    rewrite (IH _ _ _ E1 k).
    destruct (BarnesHutTree.insert fuel st body _) as [c' |] eqn:E2; [| discriminate].
    rewrite (IH _ _ _ E2 k). exact H.
  - destruct (BarnesHutTree.insert fuel st body _) as [c |] eqn:E1; [| discriminate].
    rewrite (IH _ _ _ E1 k). exact H.
Qed.

Lemma insert_all_more_fuel (st : Store) (fuel : nat) (bodies : list BodyRef) :
  forall root root',
    BarnesHutTree.insert_all fuel st bodies root = Some root' ->
    forall k, BarnesHutTree.insert_all (fuel + k) st bodies root = Some root'.
Proof.
  induction bodies as [| body rest IH]; intros root root' H k; [exact H |].
  cbn [BarnesHutTree.insert_all] in *.
  destruct (BarnesHutTree.insert fuel st body root) as [root1 |] eqn:E; [| discriminate].
  rewrite (insert_more_fuel st fuel _ _ _ E k). now apply IH.
Qed.

Lemma tick_tree_more_fuel (fuel : nat) (this : PhysicsEngine.t) (st : Store)
  (tree : option BarnesHutTree.t) :
  PhysicsEngine.tick_tree fuel this st = Some tree ->
  forall k, PhysicsEngine.tick_tree (fuel + k) this st = Some tree.
Proof.
  unfold PhysicsEngine.tick_tree, BarnesHutTree.new, BarnesHutTree.buildTree.
  destruct (_ && _); [| intros H k; exact H].
  destruct (BarnesHutTree.insert_all fuel st _ _) as [root |] eqn:E; [| discriminate].
  intros H k. rewrite (insert_all_more_fuel st fuel _ _ _ E k). exact H.
Qed.

Lemma same_matter_three_static : same_matter store_three_static store_three.
Proof. intros r. destruct r as [| [| r]]; split; reflexivity. Qed.

Lemma tick_tree_three_static (k : nat) :
  PhysicsEngine.tick_tree (3 + k) (engine_G1 three) store_three_static
  = Some (Some tree_three_default).
Proof.
  apply tick_tree_more_fuel.
  rewrite (tick_tree_same 3 (engine_G1 three) _ _ same_matter_three_static).
  unfold PhysicsEngine.tick_tree.
  cbn [engine_G1 PhysicsEngine.useBarnesHut PhysicsEngine.bodies
       PhysicsEngine.barnesHutTheta three length Nat.ltb Nat.leb andb].
  fold three. rewrite calculateBounds_three.
  unfold BarnesHutTree.new. rewrite buildTree_three. reflexivity.
Qed.

Lemma force_at_centre_three_static :
  BarnesHutTree.calculateForce tree_three_default store_three_static 0%nat 1 = Vector3.zero.
Proof.
  unfold BarnesHutTree.calculateForce. apply force_near_node.
  cbn [tree_three_default BarnesHutTree.root root_three_aggregated BHNode.centerOfMass].
  replace (Vector3.subVectors _ _) with Vector3.zero
    by (apply vector_eq; simpl; ring).
  rewrite length_zero. lra.
Qed.

Lemma point_mass_along_x (G m tm a : R) :
  0.1 <= Rabs a ->
  point_mass_force G m tm (Vector3.mk a 0 0)
  = Vector3.mk (a / Rabs a * (G * m * tm / (a * a))) 0 0.
Proof.
  intros Ha. unfold point_mass_force, Vector3.normalize, Vector3.divideScalar.
  rewrite length_axis. rewrite orOne_id by lra.
  assert (Hsq : Rabs a * Rabs a = a * a).
  { unfold Rabs. destruct (Rcase_abs a); ring. }
  rewrite Hsq.
  assert (Haa : 0.1 * 0.1 <= a * a) by (rewrite <- Hsq; nra).
  rewrite Rmax_left' by exact Haa.
  assert (Ha0 : a <> 0).
  { intros H0. rewrite H0, Rabs_R0 in Ha. lra. }
  assert (Hr0 : Rabs a <> 0) by lra.
  apply vector_eq; simpl; field; auto.
Qed.

Lemma no_jitter_three_static : no_jitter store_three_static three.
Proof.
  intros a b Ha Hb Hne. unfold Vector3.distanceToSquared.
  destruct Ha as [<- | [<- | [<- | []]]]; destruct Hb as [<- | [<- | [<- | []]]];
    try contradiction; simpl; lra.
Qed.

Lemma direct_force_three_static :
  sum_vectors (others 0%nat three) (pair_force 1 store_three_static 0%nat)
  = Vector3.mk (-0.0175) 0 0.
Proof.
  unfold three, others. cbn [filter Nat.eqb negb sum_vectors fold_right].
  unfold pair_force.
  cbn [store_three_static body_at CelestialBody.position CelestialBody.mass].
  replace (Vector3.subVectors (Vector3.mk 20 0 0) (Vector3.mk 0 0 0))
    with (Vector3.mk 20 0 0) by (apply vector_eq; simpl; ring).
  replace (Vector3.subVectors (Vector3.mk (-10) 0 0) (Vector3.mk 0 0 0))
    with (Vector3.mk (-10) 0 0) by (apply vector_eq; simpl; ring).
  rewrite !point_mass_along_x.
  - replace (Rabs 20) with 20 by (unfold Rabs; destruct (Rcase_abs 20); lra).
    replace (Rabs (-10)) with 10 by (unfold Rabs; destruct (Rcase_abs (-10)); lra).
    apply vector_eq; simpl; lra.
  - replace (Rabs (-10)) with 10 by (unfold Rabs; destruct (Rcase_abs (-10)); lra). lra.
  - replace (Rabs 20) with 20 by (unfold Rabs; destruct (Rcase_abs 20); lra). lra.
Qed.

Lemma static_pull_three :
  PhysicsEngine.calculateGravityForce (engine_G1 three)
    (store_three_static 0%nat) (store_three_static 2%nat) rng_zero
  = (Vector3.mk (-0.02) 0 0, rng_zero).
Proof.
  rewrite gravity_far_point_mass by (unfold Vector3.lengthSq; simpl; lra).
  f_equal.
  cbn [store_three_static body_at CelestialBody.position CelestialBody.mass
       engine_G1 PhysicsEngine.G].
  replace (Vector3.subVectors (Vector3.mk (-10) 0 0) (Vector3.mk 0 0 0))
    with (Vector3.mk (-10) 0 0) by (apply vector_eq; simpl; ring).
  rewrite point_mass_along_x.
  - replace (Rabs (-10)) with 10 by (unfold Rabs; destruct (Rcase_abs (-10)); lra).
    apply vector_eq; simpl; lra.
  - replace (Rabs (-10)) with 10 by (unfold Rabs; destruct (Rcase_abs (-10)); lra). lra.
Qed.

(** C7 (failing input): in [store_three_static] body 2 is static, of mass 2, at
    (-10, 0, 0); bodies 0 and 1 are mobile, of mass 1, at the origin and at
    (20, 0, 0).  The positions are pairwise distinct and the pull of the static
    body on body 0 is (-0.02, 0, 0).  A tick of the engine as constructed (tree
    path, theta 0.5) returns with any recursion budget of 3 or more; the centre
    of mass of the root is the position of body 0, the guard [distance < 0.001]
    of [calculateForceRecursive] returns the zero vector at the root, and the
    force accumulated for body 0 is the zero vector: neither the static body
    nor body 1 contributes, and body 0 is left as it was, whatever the duration
    of the tick.  The direct path, on the same input, gives body 0 the velocity
    (-0.0175 deltaTime, 0, 0), of which -0.02 deltaTime is the share of the
    static body. *)
Theorem static_source_lost_at_centre (k : nat) (deltaTime : R) :
  CelestialBody.isStatic (store_three_static 2%nat) = true
  /\ distinct_positions store_three_static three
  /\ PhysicsEngine.calculateGravityForce (engine_G1 three)
       (store_three_static 0%nat) (store_three_static 2%nat) rng_zero
     = (Vector3.mk (-0.02) 0 0, rng_zero)
  /\ (exists tree w',
        PhysicsEngine.tick_tree (3 + k) (engine_G1 three) store_three_static
        = Some (Some tree)
        /\ BarnesHutTree.calculateForce tree store_three_static 0%nat 1 = Vector3.zero
        /\ PhysicsEngine.update (3 + k) (engine_G1 three) deltaTime
             (mkWorld store_three_static rng_zero) = Some w'
        /\ store w' 0%nat = store_three_static 0%nat)
  /\ (exists w',
        PhysicsEngine.update (3 + k) (PhysicsEngine.mk 1 three false 0.5) deltaTime
          (mkWorld store_three_static rng_zero) = Some w'
        /\ CelestialBody.velocity (store w' 0%nat) = Vector3.mk (-0.0175 * deltaTime) 0 0).
Proof.
  split; [reflexivity |]. split.
  { unfold distinct_positions, three.
    repeat constructor; intros H; apply (f_equal Vector3.x) in H; simpl in H; lra. }
  split; [exact static_pull_three |]. split.
  - exists tree_three_default.
    unfold PhysicsEngine.update. cbn [store rng].
    rewrite tick_tree_three_static.
    destruct (force_pass_entries (engine_G1 three) (Some tree_three_default)
                store_three_static three (fun _ => None, rng_zero) 0%nat)
      as [g Hg]; [now left |].
    pose proof (force_pass_steps (engine_G1 three) (Some tree_three_default)
                  store_three_static rng_zero) as Hsteps.
    change (PhysicsEngine.bodies (engine_G1 three)) with three in Hsteps.
    rewrite <- Hsteps in Hg. clear Hsteps.
    destruct (PhysicsEngine.force_pass (engine_G1 three) (Some tree_three_default)
                store_three_static rng_zero) as [forces g1].
    cbn [fst tick_force] in Hg.
    eexists. split; [reflexivity |]. split; [exact force_at_centre_three_static |].
    split; [reflexivity |]. cbn [store].
    destruct (position_pass_at (engine_G1 three) deltaTime
                (PhysicsEngine.velocity_pass (engine_G1 three) forces deltaTime
                   store_three_static) 0%nat NoDup_three) as [Hp _].
    destruct (velocity_pass_at (engine_G1 three) forces deltaTime store_three_static
                0%nat NoDup_three) as [Hv _].
    rewrite Hp, Hv by now left.
    unfold drift, kick, PhysicsEngine.Map_get. rewrite Hg.
    cbn [engine_G1 PhysicsEngine.G]. rewrite force_at_centre_three_static.
    cbn. unfold body_at. f_equal; apply vector_eq; simpl; field.
  - unfold PhysicsEngine.update. cbn [store rng].
    rewrite tick_tree_direct by reflexivity.
    destruct (force_pass_far (PhysicsEngine.mk 1 three false 0.5) store_three_static
                rng_zero no_jitter_three_static) as [_ Hforces].
    destruct (PhysicsEngine.force_pass (PhysicsEngine.mk 1 three false 0.5) None
                store_three_static rng_zero) as [forces g1].
    cbn [fst] in Hforces. specialize (Hforces 0%nat (or_introl eq_refl)).
    cbn [PhysicsEngine.bodies PhysicsEngine.G] in Hforces.
    rewrite direct_force_three_static in Hforces.
    eexists. split; [reflexivity |]. cbn [store].
    destruct (position_pass_at (PhysicsEngine.mk 1 three false 0.5) deltaTime
                (PhysicsEngine.velocity_pass (PhysicsEngine.mk 1 three false 0.5) forces
                   deltaTime store_three_static) 0%nat NoDup_three) as [Hp _].
    destruct (velocity_pass_at (PhysicsEngine.mk 1 three false 0.5) forces deltaTime
                store_three_static 0%nat NoDup_three) as [Hv _].
    rewrite Hp, Hv by now left.
    unfold drift, kick. rewrite Hforces.
    cbn. apply vector_eq; simpl; field.
Qed.
